(** * Factory graph synthesis (src/factory.ts)

    A shallow embedding of [produce], [handleByproducts],
    [handleIndustryLinks], [sanityCheck] and [buildFactory].

    Number model: a JavaScript [number] holding a rate, a quantity or a split
    fraction is an exact rational ([Q]); one holding a count is an integer
    ([Z]).  [Math.ceil] is [Qceiling].  Rounding of IEEE doubles is outside
    the model.

    Object model: every node of the graph is an object that the others hold
    by reference.  A reference is a typed index into the registry of the
    [FactoryGraph] (creation order); a JavaScript [Set] of nodes is the list
    of its members in insertion order, without repetition.

    Exceptions and loops: a computation returns [Ok], throws ([Throw]) or
    exhausts the recursion budget of the model ([OutOfFuel]). *)

From Stdlib Require Import ZArith QArith Qround Lia.
From stdpp Require Import base decidable option list sorting strings.

Open Scope Z_scope.

(** ** Items and recipes (interface of ./items and ./recipes) *)

(** Modelled from the spec: ./items is not part of the sources.  "Item —
    polymorphic over variants {Ore, Craftable}"; [isOre(item) -> bool]. *)
Inductive Item : Type :=
  | Ore (name : string)
  | Craftable (name : string).

#[global] Instance Item_eq_dec : EqDecision Item.
Proof. solve_decision. Defined.

Definition isOre (item : Item) : bool :=
  match item with
  | Ore _ => true
  | Craftable _ => false
  end.

(** [{item, quantity}] *)
Record Quantity : Type := mkQuantity {
  q_item : Item;
  quantity : Q
}.

(** Modelled from the spec: ./recipes is not part of the sources.  "Recipe —
    product (item, quantity produced per run), ingredients (ordered sequence
    of {item, quantity}), byproducts (sequence of {item, quantity}), time". *)
Record Recipe : Type := mkRecipe {
  product : Quantity;
  ingredients : list Quantity;
  byproducts : list Quantity;
  time : Q
}.

(** The recipe table of ./recipes: the objects [findRecipe] hands out. *)
Definition Recipes : Type := list Recipe.

Definition makes (item : Item) (r : Recipe) : bool :=
  bool_decide (q_item (product r) = item).

(** Modelled from the spec: [findRecipe(item) -> Recipe], "looked up by
    item".  The recipe returned is the object stored in the table, not a
    copy; an item without a recipe is a precondition violation. *)
Definition findRecipe (db : Recipes) (item : Item) : option Recipe :=
  find (makes item) db.

(** The effect on the table of assigning [recipe.ingredients] for the recipe
    of [item]. *)
Definition setIngredients (item : Item) (l : list Quantity) (db : Recipes) : Recipes :=
  (fix go (db : Recipes) : Recipes :=
     match db with
     | [] => []
     | r :: db' =>
         if makes item r
         then mkRecipe (product r) l (byproducts r) (time r) :: db'
         else r :: go db'
     end) db.

(** ** Outcomes *)

Inductive SanityFailure : Type :=
  | IncomingLimit      (* "Container exceeds incoming link limit" *)
  | OutgoingLimit      (* "Container exceeds outgoing link limit" *)
  | EgressExceedsIngress (* "Container egress exceeds ingress" *)
  | SplitOutgoing      (* "Split container has more than one outgoing link" *)
  | IndustryLimit.     (* "Industry exceeds incoming link limit" *)

Inductive Error : Type :=
  | CapacityExceeded
  | UnableToTransfer                (* "Unable to transfer item" *)
  | SanityError (why : SanityFailure)
  | RecipeNotFound
  | TypeError.                      (* a member of [undefined] is accessed *)

Inductive Result (A : Type) : Type :=
  | Ok (a : A)
  | Throw (e : Error)
  | OutOfFuel.

Arguments Ok {A} a.
Arguments Throw {A} e.
Arguments OutOfFuel {A}.

Definition bind {A B : Type} (m : Result A) (k : A -> Result B) : Result B :=
  match m with
  | Ok a => k a
  | Throw e => Throw e
  | OutOfFuel => OutOfFuel
  end.

Notation "'do' x <- m ; k" := (bind m (fun x => k))
  (at level 10, x name, m at level 100, k at level 200).
Notation "'do' ' p <- m ; k" := (bind m (fun x => match x with p => k end))
  (at level 10, p pattern, m at level 100, k at level 200).

Definition orThrow {A : Type} (e : Error) (o : option A) : Result A :=
  match o with
  | Some a => Ok a
  | None => Throw e
  end.

(** A [for ... of] loop over a list whose body may throw. *)
Fixpoint forEach {A S : Type} (body : A -> S -> Result S) (l : list A) (s : S) : Result S :=
  match l with
  | [] => Ok s
  | a :: l' => do s' <- body a s; forEach body l' s'
  end.

(** ** Graph model (interface of ./graph) *)

Inductive NodeRef : Type :=
  | ContainerRef (id : nat)
  | IndustryRef (id : nat)
  | TransferRef (id : nat)
  | TransferContainerRef (id : nat)
  | OutputRef (id : nat).

#[global] Instance NodeRef_eq_dec : EqDecision NodeRef.
Proof. solve_decision. Defined.

(** [Set.prototype.add] and [Set.prototype.delete] *)
Definition set_add (x : NodeRef) (s : list NodeRef) : list NodeRef :=
  if bool_decide (x ∈ s) then s else s ++ [x].

Definition set_delete (x : NodeRef) (s : list NodeRef) : list NodeRef :=
  filter (λ y, y ≠ x) s.

(** Modelled from the spec: the node classes of ./graph.  "StorageNode —
    ... item, ingress, egress, isSplit flag + split fraction, sets of
    producer and consumer node references, incoming/outgoing link counts". *)
Record ContainerNode : Type := mkContainer {
  c_item : Item;
  split : Q;
  isSplit : bool;
  producers : list NodeRef;
  consumers : list NodeRef
}.

(** Modelled from the spec: "FabricationNode — ... item (hence recipe), set
    of input storage/relay-storage references, one output reference". *)
Record IndustryNode : Type := mkIndustry {
  i_item : Item;
  inputs : list NodeRef;
  output : option NodeRef
}.

(** Modelled from the spec: "RelayNode — single-item pass-through ... from
    one producer storage node to one consumer storage/relay-storage node". *)
Record TransferNode : Type := mkTransfer {
  t_item : Item;
  t_inputs : list NodeRef;
  t_output : option NodeRef
}.

(** Modelled from the spec: "RelayStorageNode — holds a fixed set of
    distinct items, each supplied by exactly one dedicated RelayNode". *)
Record TransferContainerNode : Type := mkTransferContainer {
  items : list Item;
  tc_producers : list NodeRef;
  tc_consumers : list NodeRef
}.

(** Modelled from the spec: "OutputNode — sink representing final delivery
    of an item at a target rate plus a maintained buffer quantity". *)
Record OutputNode : Type := mkOutput {
  o_item : Item;
  o_rate : Q;
  maintain : Q;
  o_producers : list NodeRef
}.

(** Modelled from the spec: "FactoryGraph — process-wide registry owning all
    nodes", "populated monotonically (nodes are added, never removed)";
    every registry lists its nodes in creation order. *)
Record FactoryGraph : Type := mkFactory {
  containers : list ContainerNode;
  industries : list IndustryNode;
  transferUnits : list TransferNode;
  transferContainers : list TransferContainerNode;
  outputNodes : list OutputNode
}.

Definition emptyFactory : FactoryGraph := mkFactory [] [] [] [] [].

(** *** Field updates *)

Definition withContainers (f : list ContainerNode -> list ContainerNode) (g : FactoryGraph) : FactoryGraph :=
  mkFactory (f (containers g)) (industries g) (transferUnits g) (transferContainers g) (outputNodes g).

Definition withIndustries (f : list IndustryNode -> list IndustryNode) (g : FactoryGraph) : FactoryGraph :=
  mkFactory (containers g) (f (industries g)) (transferUnits g) (transferContainers g) (outputNodes g).

Definition withTransferUnits (f : list TransferNode -> list TransferNode) (g : FactoryGraph) : FactoryGraph :=
  mkFactory (containers g) (industries g) (f (transferUnits g)) (transferContainers g) (outputNodes g).

Definition withTransferContainers (f : list TransferContainerNode -> list TransferContainerNode) (g : FactoryGraph) : FactoryGraph :=
  mkFactory (containers g) (industries g) (transferUnits g) (f (transferContainers g)) (outputNodes g).

Definition withOutputs (f : list OutputNode -> list OutputNode) (g : FactoryGraph) : FactoryGraph :=
  mkFactory (containers g) (industries g) (transferUnits g) (transferContainers g) (f (outputNodes g)).

Definition addProducer (p : NodeRef) (c : ContainerNode) : ContainerNode :=
  mkContainer (c_item c) (split c) (isSplit c) (set_add p (producers c)) (consumers c).

Definition addConsumer (k : NodeRef) (c : ContainerNode) : ContainerNode :=
  mkContainer (c_item c) (split c) (isSplit c) (producers c) (set_add k (consumers c)).

Definition deleteConsumer (k : NodeRef) (c : ContainerNode) : ContainerNode :=
  mkContainer (c_item c) (split c) (isSplit c) (producers c) (set_delete k (consumers c)).

Definition addInput (src : NodeRef) (i : IndustryNode) : IndustryNode :=
  mkIndustry (i_item i) (set_add src (inputs i)) (output i).

Definition deleteInput (src : NodeRef) (i : IndustryNode) : IndustryNode :=
  mkIndustry (i_item i) (set_delete src (inputs i)) (output i).

Definition setOutput (dst : NodeRef) (i : IndustryNode) : IndustryNode :=
  mkIndustry (i_item i) (inputs i) (Some dst).

Definition t_addInput (src : NodeRef) (t : TransferNode) : TransferNode :=
  mkTransfer (t_item t) (set_add src (t_inputs t)) (t_output t).

Definition t_setOutput (dst : NodeRef) (t : TransferNode) : TransferNode :=
  mkTransfer (t_item t) (t_inputs t) (Some dst).

Definition tc_addProducer (p : NodeRef) (tc : TransferContainerNode) : TransferContainerNode :=
  mkTransferContainer (items tc) (set_add p (tc_producers tc)) (tc_consumers tc).

Definition tc_addConsumer (k : NodeRef) (tc : TransferContainerNode) : TransferContainerNode :=
  mkTransferContainer (items tc) (tc_producers tc) (set_add k (tc_consumers tc)).

Definition o_addProducer (p : NodeRef) (o : OutputNode) : OutputNode :=
  mkOutput (o_item o) (o_rate o) (maintain o) (set_add p (o_producers o)).

(** *** Link counts *)

Definition incomingLinkCount (c : ContainerNode) : Z := Z.of_nat (length (producers c)).
Definition outgoingLinkCount (c : ContainerNode) : Z := Z.of_nat (length (consumers c)).
Definition i_incomingLinkCount (i : IndustryNode) : Z := Z.of_nat (length (inputs i)).
Definition t_incomingLinkCount (t : TransferNode) : Z := Z.of_nat (length (t_inputs t)).
Definition tc_incomingLinkCount (tc : TransferContainerNode) : Z := Z.of_nat (length (tc_producers tc)).
Definition tc_outgoingLinkCount (tc : TransferContainerNode) : Z := Z.of_nat (length (tc_consumers tc)).

(** The item a consumer or producer of a storage node carries
    ([consumer.item] for an [IndustryNode | TransferNode]). *)
Definition itemOf (g : FactoryGraph) (r : NodeRef) : option Item :=
  match r with
  | ContainerRef id => c_item <$> containers g !! id
  | IndustryRef id => i_item <$> industries g !! id
  | TransferRef id => t_item <$> transferUnits g !! id
  | TransferContainerRef _ => None
  | OutputRef id => o_item <$> outputNodes g !! id
  end.

(** *** Registry: creation and lookup *)

Definition createContainer (item : Item) (g : FactoryGraph) : nat * FactoryGraph :=
  (length (containers g),
   withContainers (λ l, l ++ [mkContainer item 1%Q false [] []]) g).

Definition createSplitContainer (item : Item) (split : Q) (g : FactoryGraph) : nat * FactoryGraph :=
  (length (containers g),
   withContainers (λ l, l ++ [mkContainer item split true [] []]) g).

Definition createIndustry (item : Item) (g : FactoryGraph) : nat * FactoryGraph :=
  (length (industries g),
   withIndustries (λ l, l ++ [mkIndustry item [] None]) g).

Definition createTransferUnit (item : Item) (g : FactoryGraph) : nat * FactoryGraph :=
  (length (transferUnits g),
   withTransferUnits (λ l, l ++ [mkTransfer item [] None]) g).

Definition createTransferContainer (its : list Item) (g : FactoryGraph) : nat * FactoryGraph :=
  (length (transferContainers g),
   withTransferContainers (λ l, l ++ [mkTransferContainer its [] []]) g).

Definition createOutput (item : Item) (rate : Q) (maintain : Q) (g : FactoryGraph) : nat * FactoryGraph :=
  (length (outputNodes g),
   withOutputs (λ l, l ++ [mkOutput item rate maintain []]) g).

(** Indices of the members of [l] that satisfy [p], in creation order. *)
Definition indicesWhere {A : Type} (p : A -> bool) (l : list A) : list nat :=
  filter (λ id, from_option p false (l !! id)) (seq 0 (length l)).

(** Modelled from the spec: "Registry lookups (getContainers(item),
    getTransferUnits(item), getTransferContainers(itemSet)) return nodes in
    creation order". *)
Definition getContainers (g : FactoryGraph) (item : Item) : list nat :=
  indicesWhere (λ c, bool_decide (c_item c = item)) (containers g).

Definition getTransferUnits (g : FactoryGraph) (item : Item) : list nat :=
  indicesWhere (λ t, bool_decide (t_item t = item)) (transferUnits g).

(** Modelled from the spec: "relay-storage nodes whose item set is a subset
    of this node's ingredients". *)
Definition getTransferContainers (g : FactoryGraph) (itemSet : list Item) : list nat :=
  indicesWhere (λ tc, forallb (λ it, bool_decide (it ∈ itemSet)) (items tc))
               (transferContainers g).

(** ** Numbers *)

Definition Math_ceil (x : Q) : Z := Qceiling x.

Definition Qltb (x y : Q) : bool := negb (Qle_bool y x).

(** [Array.prototype.sort((a, b) => a.quantity - b.quantity)]: ascending by
    quantity, elements of equal quantity keep their order. *)
Fixpoint insertByQuantity (x : Quantity) (l : list Quantity) : list Quantity :=
  match l with
  | [] => [x]
  | y :: l' =>
      if Qle_bool (quantity x) (quantity y) then x :: l
      else y :: insertByQuantity x l'
  end.

Definition sortByQuantity (l : list Quantity) : list Quantity :=
  foldr insertByQuantity [] l.

(** The value left in [x] by [for (const y of l) { if (p(y)) { x = y } }]. *)
Definition lastWhere {A : Type} (p : A -> bool) (l : list A) : option A :=
  fold_left (λ acc y, if p y then Some y else acc) l None.

Definition withContainer (g : FactoryGraph) (id : nat) (p : ContainerNode -> bool) : bool :=
  from_option p false (containers g !! id).

Definition withTransferUnit (g : FactoryGraph) (id : nat) (p : TransferNode -> bool) : bool :=
  from_option p false (transferUnits g !! id).

(** [{count, maintain}] of a requirement *)
Record Requirement : Type := mkRequirement {
  count : Z;
  r_maintain : Q
}.

(** ** Flow rates of the example runs

    Modelled from the spec: ./graph is not part of the sources, and the spec
    gives the getters in words only: "ingress (sum of incoming flow rates),
    egress (sum of outgoing flow rates)", "Rate is always expressed as
    quantity/time", "Ores ... are treated as externally supplied", "Split
    fraction: proportion of total fabrication demand a given split storage
    node is responsible for", "RelayNode — single-item pass-through".  The
    definitions of [produce], [sanityCheck] and [buildFactory] below take the
    two getters as parameters; [ingressOf] and [egressOf] are the instance
    the example runs are evaluated with. *)

Definition Qsum (l : list Q) : Q := foldr Qplus 0%Q l.

Definition quantityOf (item : Item) (l : list Quantity) : Q :=
  Qsum (map quantity (filter (λ q, q_item q = item) l)).

(** What one fabrication node puts out of [item]: product or byproduct. *)
Definition industryOutput (db : Recipes) (i : IndustryNode) (item : Item) : Q :=
  match findRecipe db (i_item i) with
  | Some r => (quantityOf item (product r :: byproducts r) / time r)%Q
  | None => 0%Q
  end.

(** What one fabrication node takes of [item]. *)
Definition industryInput (db : Recipes) (i : IndustryNode) (item : Item) : Q :=
  match findRecipe db (i_item i) with
  | Some r => (quantityOf item (ingredients r) / time r)%Q
  | None => 0%Q
  end.

(** What a relay delivers of [item]: all that the fabrication nodes filling
    its sources put out of it. *)
Definition transferOutput (db : Recipes) (g : FactoryGraph) (t : TransferNode) (item : Item) : Q :=
  if bool_decide (t_item t = item) then
    Qsum (map (λ src,
                 match src with
                 | ContainerRef c =>
                     Qsum (map (λ p, match p with
                                     | IndustryRef i =>
                                         from_option (λ n, industryOutput db n item) 0%Q (industries g !! i)
                                     | _ => 0%Q
                                     end)
                               (from_option producers [] (containers g !! c)))
                 | _ => 0%Q
                 end) (t_inputs t))
  else 0%Q.

(** What a relay takes of [item] from a source: the demand of the
    fabrication nodes it serves through its relay-storage node; a relay that
    removes a byproduct takes nothing of the item the source stores. *)
Definition transferInput (db : Recipes) (g : FactoryGraph) (t : TransferNode) (item : Item) : Q :=
  if bool_decide (t_item t = item) then
    match t_output t with
    | Some (TransferContainerRef tc) =>
        Qsum (map (λ k, match k with
                        | IndustryRef i =>
                            from_option (λ n, industryInput db n item) 0%Q (industries g !! i)
                        | _ => 0%Q
                        end)
                  (from_option tc_consumers [] (transferContainers g !! tc)))
    | _ => 0%Q
    end
  else 0%Q.

Definition egressOf (db : Recipes) (g : FactoryGraph) (id : nat) : Q :=
  match containers g !! id with
  | Some c =>
      (split c *
       Qsum (map (λ k, match k with
                       | IndustryRef i =>
                           from_option (λ n, industryInput db n (c_item c)) 0%Q (industries g !! i)
                       | TransferRef t =>
                           from_option (λ n, transferInput db g n (c_item c)) 0%Q (transferUnits g !! t)
                       | _ => 0%Q
                       end) (consumers c)))%Q
  | None => 0%Q
  end.

Definition ingressOf (db : Recipes) (g : FactoryGraph) (id : nat) : Q :=
  match containers g !! id with
  | Some c =>
      if isOre (c_item c) then egressOf db g id
      else
        Qsum (map (λ p, match p with
                        | IndustryRef i =>
                            from_option (λ n, industryOutput db n (c_item c)) 0%Q (industries g !! i)
                        | TransferRef t =>
                            from_option (λ n, transferOutput db g n (c_item c)) 0%Q (transferUnits g !! t)
                        | _ => 0%Q
                        end) (producers c))
  | None => 0%Q
  end.

(** ** Tactics for the example runs *)

(** [by_running t k]: evaluate the run [t] and hand its result to [k]. *)
Ltac by_running t k :=
  let r := eval vm_compute in t in
  lazymatch r with
  | Ok ?x => k x
  | Some ?x => k x
  | (?d, Ok ?x) => k (d, x)
  end.

Ltac run := vm_compute; reflexivity.

(** ** Example recipe tables and requirements *)

Definition widget : Item := Craftable "widget".
Definition gadget : Item := Craftable "gadget".
Definition plate : Item := Craftable "plate".
Definition slag : Item := Craftable "slag".
Definition iron : Item := Ore "iron".
Definition coal : Item := Ore "coal".

Definition require (item : Item) (n : Z) : Item * Requirement :=
  (item, mkRequirement n 0%Q).

(** A widget made of iron alone. *)
Definition ironRecipes : Recipes :=
  [mkRecipe (mkQuantity widget 1) [mkQuantity iron 1] [] 1].

(** A recipe whose ingredients are not declared in ascending quantity. *)
Definition unsortedRecipes : Recipes :=
  [mkRecipe (mkQuantity widget 1) [mkQuantity iron 2; mkQuantity coal 1] [] 1].

(** A widget takes plates at [rate] per minute; one industry makes one plate
    per minute. *)
Definition plateRecipes (rate : Q) : Recipes :=
  [mkRecipe (mkQuantity widget 1) [mkQuantity plate rate] [] 1;
   mkRecipe (mkQuantity plate 1) [mkQuantity iron 1] [] 1].

(** A widget with nine ingredients. *)
Definition nineIngredients : Recipes :=
  [mkRecipe (mkQuantity widget 1)
     [mkQuantity (Ore "a") 9; mkQuantity (Ore "b") 8; mkQuantity (Ore "c") 7;
      mkQuantity (Ore "d") 6; mkQuantity (Ore "e") 5; mkQuantity (Ore "f") 4;
      mkQuantity (Ore "g") 3; mkQuantity (Ore "h") 2; mkQuantity (Ore "i") 1] [] 1].

(** Plates leave slag as a byproduct; widgets take slag, gadgets take
    plates. *)
Definition slagRecipes : Recipes :=
  [mkRecipe (mkQuantity widget 1) [mkQuantity slag 1] [] 1;
   mkRecipe (mkQuantity gadget 1) [mkQuantity plate 1] [] 1;
   mkRecipe (mkQuantity slag 100) [mkQuantity iron 1] [] 1;
   mkRecipe (mkQuantity plate 1) [mkQuantity iron 1] [mkQuantity slag 1] 1].

(** One industry makes a hundred plates per minute, and slag with them; a
    widget takes one plate per minute. *)
Definition bulkPlateRecipes : Recipes :=
  [mkRecipe (mkQuantity widget 1) [mkQuantity plate 1] [] 1;
   mkRecipe (mkQuantity plate 100) [mkQuantity iron 1] [mkQuantity slag 1] 1;
   mkRecipe (mkQuantity slag 1) [mkQuantity iron 1] [] 1].

(** A widget with nine ingredients and a gadget made of iron alone. *)
Definition mixedRecipes : Recipes :=
  nineIngredients ++ [mkRecipe (mkQuantity gadget 1) [mkQuantity iron 1] [] 1].

(** A gadget takes ten plates a minute, one industry makes one plate a
    minute and leaves slag. *)
Definition tenPlateRecipes : Recipes :=
  [mkRecipe (mkQuantity gadget 1) [mkQuantity plate 10] [] 1;
   mkRecipe (mkQuantity plate 1) [mkQuantity iron 1] [mkQuantity slag 1] 1;
   mkRecipe (mkQuantity slag 1) [mkQuantity iron 1] [] 1].

(** A widget takes seven plates and six units of slag a minute, declared
    in that order; a plate and a unit of slag are each made of iron, one a
    minute per industry. *)
Definition sharedOreRecipes : Recipes :=
  [mkRecipe (mkQuantity widget 1) [mkQuantity plate 7; mkQuantity slag 6] [] 1;
   mkRecipe (mkQuantity plate 1) [mkQuantity iron 1] [] 1;
   mkRecipe (mkQuantity slag 1) [mkQuantity iron 1] [] 1].



(** The depth of an item in the tables above that have [widget] made of
    other craftable items: ores, then the items made of ores, then
    [widget]. *)
Definition tier (item : Item) : nat :=
  if isOre item then 0%nat
  else if bool_decide (item = widget) then 2%nat
  else 1%nat.

Section Factory.

(** Capacity constants of ./graph. *)
Variable MAX_CONTAINER_LINKS : Z.
Variable MAX_INDUSTRY_LINKS : Z.

(** The getters [container.ingress] and [container.egress] of ./graph, for
    the storage node with the given index, the recipe table being as given. *)
Variable ingress : Recipes -> FactoryGraph -> nat -> Q.
Variable egress : Recipes -> FactoryGraph -> nat -> Q.

(** *** Capacity predicates *)

(** Modelled from the spec: "for every storage node, incoming and outgoing
    link counts ≤ MAX_CONTAINER_LINKS". *)
Definition canAddIncomingLinks (c : ContainerNode) (n : Z) : bool :=
  incomingLinkCount c + n <=? MAX_CONTAINER_LINKS.

(** Modelled from the spec: as above, and "a split node has exactly one
    outgoing link". *)
Definition canAddOutgoingLinks (c : ContainerNode) (n : Z) : bool :=
  if isSplit c then outgoingLinkCount c + n <=? 1
  else outgoingLinkCount c + n <=? MAX_CONTAINER_LINKS.

(** Modelled from the spec: the spec names two limits only; a relay is a
    machine and is given the limit of a fabrication node, a relay-storage
    node is given the limits of a storage node. *)
Definition t_canAddIncomingLinks (t : TransferNode) (n : Z) : bool :=
  t_incomingLinkCount t + n <=? MAX_INDUSTRY_LINKS.

Definition tc_canAddIncomingLinks (tc : TransferContainerNode) (n : Z) : bool :=
  tc_incomingLinkCount tc + n <=? MAX_CONTAINER_LINKS.

Definition tc_canAddOutgoingLinks (tc : TransferContainerNode) (n : Z) : bool :=
  tc_outgoingLinkCount tc + n <=? MAX_CONTAINER_LINKS.

(** *** Link-attach operations *)

(** Modelled from the spec: "link-attach operations (outputTo, takeFrom)
    which atomically update ingress/egress and link counts and fail with a
    CapacityExceeded condition if a limit would be violated"; "each checks
    the relevant capacity predicate ... before mutating".  The limit of a
    fabrication node is "enforced post-hoc by the Link-Limit Resolver", so
    attaching an input to one checks the source only. *)
Definition i_outputTo (industry : nat) (dst : NodeRef) (g : FactoryGraph) : Result FactoryGraph :=
  do _ <- orThrow TypeError (industries g !! industry);
  match dst with
  | ContainerRef c =>
      do node <- orThrow TypeError (containers g !! c);
      if canAddIncomingLinks node 1
      then Ok (withIndustries (alter (setOutput dst) industry)
                 (withContainers (alter (addProducer (IndustryRef industry)) c) g))
      else Throw CapacityExceeded
  | OutputRef o =>
      do _ <- orThrow TypeError (outputNodes g !! o);
      Ok (withIndustries (alter (setOutput dst) industry)
            (withOutputs (alter (o_addProducer (IndustryRef industry)) o) g))
  | _ => Throw TypeError
  end.

Definition i_takeFrom (industry : nat) (src : NodeRef) (g : FactoryGraph) : Result FactoryGraph :=
  do _ <- orThrow TypeError (industries g !! industry);
  match src with
  | ContainerRef c =>
      do node <- orThrow TypeError (containers g !! c);
      if canAddOutgoingLinks node 1
      then Ok (withIndustries (alter (addInput src) industry)
                 (withContainers (alter (addConsumer (IndustryRef industry)) c) g))
      else Throw CapacityExceeded
  | TransferContainerRef tc =>
      do node <- orThrow TypeError (transferContainers g !! tc);
      if tc_canAddOutgoingLinks node 1
      then Ok (withIndustries (alter (addInput src) industry)
                 (withTransferContainers (alter (tc_addConsumer (IndustryRef industry)) tc) g))
      else Throw CapacityExceeded
  | _ => Throw TypeError
  end.

Definition t_outputTo (transfer : nat) (dst : NodeRef) (g : FactoryGraph) : Result FactoryGraph :=
  do _ <- orThrow TypeError (transferUnits g !! transfer);
  match dst with
  | ContainerRef c =>
      do node <- orThrow TypeError (containers g !! c);
      if canAddIncomingLinks node 1
      then Ok (withTransferUnits (alter (t_setOutput dst) transfer)
                 (withContainers (alter (addProducer (TransferRef transfer)) c) g))
      else Throw CapacityExceeded
  | TransferContainerRef tc =>
      do node <- orThrow TypeError (transferContainers g !! tc);
      if tc_canAddIncomingLinks node 1
      then Ok (withTransferUnits (alter (t_setOutput dst) transfer)
                 (withTransferContainers (alter (tc_addProducer (TransferRef transfer)) tc) g))
      else Throw CapacityExceeded
  | _ => Throw TypeError
  end.

Definition t_takeFrom (transfer : nat) (src : NodeRef) (g : FactoryGraph) : Result FactoryGraph :=
  do unit <- orThrow TypeError (transferUnits g !! transfer);
  match src with
  | ContainerRef c =>
      do node <- orThrow TypeError (containers g !! c);
      if canAddOutgoingLinks node 1 && t_canAddIncomingLinks unit 1
      then Ok (withTransferUnits (alter (t_addInput src) transfer)
                 (withContainers (alter (addConsumer (TransferRef transfer)) c) g))
      else Throw CapacityExceeded
  | _ => Throw TypeError
  end.

(** ** [produce] *)

(** Lines 90-95 and 293-297: build the ingredients of one industry;
    [produce] is the function called for each of them. *)
Definition buildIngredients
    (produce : Item -> Q -> FactoryGraph -> Result (list nat * FactoryGraph))
    (industry : nat) (recipe : Recipe) (factory : FactoryGraph) : Result FactoryGraph :=
  forEach
    (λ ingredient g,
       do '(inputs, g1) <- produce (q_item ingredient) (quantity ingredient / time recipe)%Q g;
       forEach (λ input g2, i_takeFrom industry (ContainerRef input) g2) inputs g1)
    (ingredients recipe) factory.

(** Lines 52-63: the first container that takes the additional industries,
    with their number. *)
Fixpoint existingOutput (db : Recipes) (rate : Q) (recipe : Recipe)
    (factory : FactoryGraph) (cs : list nat) : option (nat * Z) :=
  match cs with
  | [] => None
  | container :: cs' =>
      let additionalIndustries :=
        Math_ceil ((rate + egress db factory container - ingress db factory container)
                   / (quantity (product recipe) / time recipe))%Q in
      if withContainer factory container (λ c, canAddIncomingLinks c additionalIndustries)
         && withContainer factory container (λ c, canAddOutgoingLinks c 1)
      then Some (container, additionalIndustries)
      else existingOutput db rate recipe factory cs'
  end.

(** Lines 75-80: [n] is the number of iterations left. *)
Fixpoint createSplitContainers (n : nat) (item : Item)
    (additionalIndustries evenLinks linksRemaining : Z)
    (factory : FactoryGraph) : list nat * FactoryGraph :=
  match n with
  | O => ([], factory)
  | S n' =>
      let numLinks := Z.min evenLinks linksRemaining in
      let split := (inject_Z numLinks / inject_Z additionalIndustries)%Q in
      let '(c, g1) := createSplitContainer item split factory in
      let '(cs, g2) := createSplitContainers n' item additionalIndustries evenLinks
                         (linksRemaining + - numLinks) g1 in
      (c :: cs, g2)
  end.

(** Lines 66-84: the new output container(s) and the number of industries. *)
Definition newOutputs (item : Item) (rate : Q) (recipe : Recipe)
    (factory : FactoryGraph) : list nat * Z * FactoryGraph :=
  let additionalIndustries :=
    Math_ceil (rate / (quantity (product recipe) / time recipe))%Q in
  if additionalIndustries >? MAX_CONTAINER_LINKS then
    let numContainers :=
      Math_ceil (inject_Z additionalIndustries / inject_Z MAX_CONTAINER_LINKS)%Q in
    let evenLinks :=
      Math_ceil (inject_Z additionalIndustries / inject_Z numContainers)%Q in
    let '(outputs, g) :=
      createSplitContainers (Z.to_nat numContainers) item
        additionalIndustries evenLinks additionalIndustries factory in
    (outputs, additionalIndustries, g)
  else
    let '(c, g) := createContainer item factory in
    ([c], additionalIndustries, g).

(** Lines 86-96: the body of the loop, for the index [i]. *)
Definition addIndustry
    (produce : Item -> Q -> FactoryGraph -> Result (list nat * FactoryGraph))
    (item : Item) (recipe : Recipe) (outputs : list nat)
    (i : nat) (factory : FactoryGraph) : Result FactoryGraph :=
  let '(industry, g1) := createIndustry item factory in
  do out <- orThrow TypeError (outputs !! (i mod length outputs)%nat);
  do g2 <- i_outputTo industry (ContainerRef out) g1;
  buildIngredients produce industry recipe g2.

Fixpoint produce (fuel : nat) (db : Recipes) (item : Item) (rate : Q)
    (factory : FactoryGraph) : Result (list nat * FactoryGraph) :=
  match fuel with
  | O => OutOfFuel
  | S fuel' =>
      let cs := getContainers factory item in
      if isOre item then
        match find (λ c, withContainer factory c (λ n, canAddOutgoingLinks n 1)) cs with
        | Some container => Ok ([container], factory)
        | None => let '(c, g) := createContainer item factory in Ok ([c], g)
        end
      else
        match find (λ c, Qltb (egress db factory c + rate) (ingress db factory c)
                         && withContainer factory c (λ n, canAddOutgoingLinks n 1)) cs with
        | Some container => Ok ([container], factory)
        | None =>
            do recipe <- orThrow RecipeNotFound (findRecipe db item);
            let '(outputs, additionalIndustries, g) :=
              match existingOutput db rate recipe factory cs with
              | Some (container, n) => ([container], n, factory)
              | None => newOutputs item rate recipe factory
              end in
            do g' <- forEach (addIndustry (produce fuel' db) item recipe outputs)
                       (seq 0 (Z.to_nat additionalIndustries)) g;
            Ok (outputs, g')
        end
  end.

(** ** [handleByproducts] *)

(** Lines 114-119 *)
Definition isConsumed (g : FactoryGraph) (container : ContainerNode) (item : Item) : bool :=
  existsb (λ consumer, bool_decide (itemOf g consumer = Some item)) (consumers container).

(** [itemTransfer.canAddIncomingLinks(1)] (line 125) and
    [itemContainer.canAddIncomingLinks(1)] (line 136) *)
Definition transferHasHeadroom (g : FactoryGraph) (t : nat) : bool :=
  withTransferUnit g t (λ n, t_canAddIncomingLinks n 1).

Definition containerHasHeadroom (g : FactoryGraph) (c : nat) : bool :=
  withContainer g c (λ n, canAddIncomingLinks n 1).

(** Lines 133-143: the output container of a new transfer unit. *)
Definition byproductOutput (item : Item) (g : FactoryGraph) : nat * FactoryGraph :=
  let itemContainers := getContainers g item in
  match lastWhere (containerHasHeadroom g) itemContainers with
  | Some output => (output, g)
  | None => createContainer item g
  end.

(** Lines 113-147: one byproduct of the container with index [container]. *)
Definition handleByproduct (container : nat) (byproduct : Quantity)
    (g : FactoryGraph) : Result FactoryGraph :=
  do node <- orThrow TypeError (containers g !! container);
  if isConsumed g node (q_item byproduct) then Ok g
  else
    let itemTransfers := getTransferUnits g (q_item byproduct) in
    do '(transfer, g1) <-
      match lastWhere (transferHasHeadroom g) itemTransfers with
      | Some transfer => Ok (transfer, g)
      | None =>
          let '(transfer, g1) := createTransferUnit (q_item byproduct) g in
          let '(output, g2) := byproductOutput (q_item byproduct) g1 in
          do g3 <- t_outputTo transfer (ContainerRef output) g2;
          Ok (transfer, g3)
      end;
    t_takeFrom transfer (ContainerRef container) g1.

(** Lines 106-149: [factory.containers] is iterated while it grows, so the
    loop runs by index; [fuel] bounds the number of containers visited. *)
Fixpoint handleByproductsFrom (fuel : nat) (db : Recipes) (idx : nat)
    (factory : FactoryGraph) : Result FactoryGraph :=
  match containers factory !! idx with
  | None => Ok factory
  | Some container =>
      match fuel with
      | O => OutOfFuel
      | S fuel' =>
          if isOre (c_item container) then handleByproductsFrom fuel' db (S idx) factory
          else
            do recipe <- orThrow RecipeNotFound (findRecipe db (c_item container));
            do g <- forEach (handleByproduct idx) (byproducts recipe) factory;
            handleByproductsFrom fuel' db (S idx) g
      end
  end.

Definition handleByproducts (fuel : nat) (db : Recipes) (factory : FactoryGraph) : Result FactoryGraph :=
  handleByproductsFrom fuel db 0 factory.

(** ** [handleIndustryLinks] *)

Definition nodeCanAddIncomingLinks (g : FactoryGraph) (node : NodeRef) (n : Z) : bool :=
  match node with
  | TransferRef t => withTransferUnit g t (λ u, t_canAddIncomingLinks u n)
  | _ => false
  end.

(** Lines 175-193: the test a transfer container passes to be chosen. *)
Definition usableTransferContainer (exceedingLinks : Z) (g : FactoryGraph) (id : nat) : bool :=
  from_option
    (λ tc,
       negb (Z.of_nat (length (items tc)) <? exceedingLinks + 1)
       && tc_canAddOutgoingLinks tc 1
       && negb (existsb (λ node, negb (nodeCanAddIncomingLinks g node 1)) (tc_producers tc)))
    false (transferContainers g !! id).

(** Lines 198-208 *)
Definition newTransferContainer (its : list Item) (g : FactoryGraph) : Result (nat * FactoryGraph) :=
  let '(transferContainer, g1) := createTransferContainer its g in
  do g2 <- forEach
             (λ item g,
                let '(transferUnit, g') := createTransferUnit item g in
                t_outputTo transferUnit (TransferContainerRef transferContainer) g')
             its g1;
  Ok (transferContainer, g2).

(** Lines 170-208 *)
Definition chooseTransferContainer (exceedingLinks : Z) (ingredientItems : list Item)
    (g : FactoryGraph) : Result (nat * FactoryGraph) :=
  let transferContainers := getTransferContainers g ingredientItems in
  match find (usableTransferContainer exceedingLinks g) transferContainers with
  | Some transferContainer => Ok (transferContainer, g)
  | None => newTransferContainer (firstn (Z.to_nat (exceedingLinks + 1)) ingredientItems) g
  end.

(** Lines 214-225: the input a transfer unit takes over. *)
Definition directInput (g : FactoryGraph) (item : Item) (input : NodeRef) : bool :=
  match input with
  | ContainerRef c => withContainer g c (λ n, bool_decide (c_item n = item))
  | _ => false
  end.

(** Lines 212-231: the body of the loop, for one producer of the transfer
    container. *)
Definition rewire (industry : nat) (producer : NodeRef) (g : FactoryGraph) : Result FactoryGraph :=
  match producer with
  | TransferRef transferUnit =>
      do unit <- orThrow TypeError (transferUnits g !! transferUnit);
      do node <- orThrow TypeError (industries g !! industry);
      match find (directInput g (t_item unit)) (inputs node) with
      | Some (ContainerRef container) =>
          let g1 := withContainers (alter (deleteConsumer (IndustryRef industry)) container) g in
          let g2 := withIndustries (alter (deleteInput (ContainerRef container)) industry) g1 in
          t_takeFrom transferUnit (ContainerRef container) g2
      | _ => Throw UnableToTransfer
      end
  | _ => Throw TypeError
  end.

(** Lines 210-234: the links of [industry] are moved to the transfer units
    of the chosen transfer container, which is then linked to [industry]. *)
Definition relink (industry transferContainer : nat) (g : FactoryGraph) : Result FactoryGraph :=
  do tc <- orThrow TypeError (transferContainers g !! transferContainer);
  do g' <- forEach (rewire industry) (tc_producers tc) g;
  i_takeFrom industry (TransferContainerRef transferContainer) g'.

(** Lines 168-235, the ingredient items being sorted already. *)
Definition resolveLinks (industry : nat) (ingredientItems : list Item)
    (g : FactoryGraph) : Result FactoryGraph :=
  do node <- orThrow TypeError (industries g !! industry);
  let exceedingLinks := i_incomingLinkCount node - MAX_INDUSTRY_LINKS in
  if exceedingLinks >? 0 then
    do '(transferContainer, g1) <- chooseTransferContainer exceedingLinks ingredientItems g;
    relink industry transferContainer g1
  else Ok g.

(** Lines 159-236: one industry.  [recipe.ingredients.sort] sorts the array
    of the recipe in the table. *)
Definition handleIndustry (industry : nat) (db : Recipes) (g : FactoryGraph)
    : Recipes * Result FactoryGraph :=
  match industries g !! industry with
  | None => (db, Throw TypeError)
  | Some node =>
      match findRecipe db (i_item node) with
      | None => (db, Throw RecipeNotFound)
      | Some recipe =>
          let recipeIngredients := sortByQuantity (ingredients recipe) in
          let db' := setIngredients (i_item node) recipeIngredients db in
          (db', resolveLinks industry (map q_item recipeIngredients) g)
      end
  end.

Fixpoint handleIndustryLinksOver (ids : list nat) (db : Recipes) (g : FactoryGraph)
    : Recipes * Result FactoryGraph :=
  match ids with
  | [] => (db, Ok g)
  | industry :: ids' =>
      match handleIndustry industry db g with
      | (db', Ok g') => handleIndustryLinksOver ids' db' g'
      | (db', Throw e) => (db', Throw e)
      | (db', OutOfFuel) => (db', OutOfFuel)
      end
  end.

Definition handleIndustryLinks (db : Recipes) (factory : FactoryGraph) : Recipes * Result FactoryGraph :=
  handleIndustryLinksOver (seq 0 (length (industries factory))) db factory.

(** ** [sanityCheck] *)

Definition checkContainer (db : Recipes) (factory : FactoryGraph) (id : nat) : Result unit :=
  do container <- orThrow TypeError (containers factory !! id);
  if incomingLinkCount container >? MAX_CONTAINER_LINKS then Throw (SanityError IncomingLimit)
  else if outgoingLinkCount container >? MAX_CONTAINER_LINKS then Throw (SanityError OutgoingLimit)
  else if Qltb (ingress db factory id) (egress db factory id) then Throw (SanityError EgressExceedsIngress)
  else if isSplit container && (outgoingLinkCount container >? 1) then Throw (SanityError SplitOutgoing)
  else Ok tt.

Definition checkIndustry (industry : IndustryNode) : Result unit :=
  if i_incomingLinkCount industry >? MAX_INDUSTRY_LINKS then Throw (SanityError IndustryLimit)
  else Ok tt.

Definition sanityCheck (db : Recipes) (factory : FactoryGraph) : Result unit :=
  do _ <- forEach (λ id _, checkContainer db factory id) (seq 0 (length (containers factory))) tt;
  forEach (λ industry _, checkIndustry industry) (industries factory) tt.

(** ** [buildFactory] *)

(** Lines 282-300: one requirement. *)
Definition addRequirement (fuel : nat) (db : Recipes) (requirement : Item * Requirement)
    (factory : FactoryGraph) : Result FactoryGraph :=
  let '(item, mkRequirement count maintain) := requirement in
  do recipe <- orThrow RecipeNotFound (findRecipe db item);
  let rate := (quantity (product recipe) / time recipe)%Q in
  let '(output, g1) := createOutput item (rate * inject_Z count)%Q maintain factory in
  forEach
    (λ _ g,
       let '(industry, g2) := createIndustry item g in
       do g3 <- i_outputTo industry (OutputRef output) g2;
       buildIngredients (produce fuel db) industry recipe g3)
    (seq 0 (Z.to_nat count)) g1.

(** Lines 281-300: the graph before the repair passes. *)
Definition synthesize (fuel : nat) (db : Recipes) (requirements : list (Item * Requirement))
    : Result FactoryGraph :=
  forEach (addRequirement fuel db) requirements emptyFactory.

(** Lines 281-304: the graph handed to [sanityCheck].  The recipe table is
    read by every pass and written by [handleIndustryLinks]; it is returned
    as it is left. *)
Definition repair (fuel : nat) (db : Recipes) (requirements : list (Item * Requirement))
    : Recipes * Result FactoryGraph :=
  match (do g <- synthesize fuel db requirements; handleByproducts fuel db g) with
  | Ok g => handleIndustryLinks db g
  | Throw e => (db, Throw e)
  | OutOfFuel => (db, OutOfFuel)
  end.

Definition buildFactory (fuel : nat) (db : Recipes) (requirements : list (Item * Requirement))
    : Recipes * Result FactoryGraph :=
  let '(db', r) := repair fuel db requirements in
  (db', do factory <- r; do _ <- sanityCheck db' factory; Ok factory).

(** ** Properties of a graph *)

(** The limits [sanityCheck] is there to enforce. *)
Definition withinLimits (db : Recipes) (g : FactoryGraph) : Prop :=
  (∀ id c, containers g !! id = Some c →
     incomingLinkCount c <= MAX_CONTAINER_LINKS
     ∧ outgoingLinkCount c <= MAX_CONTAINER_LINKS
     ∧ (egress db g id <= ingress db g id)%Q)
  ∧ (∀ id i, industries g !! id = Some i →
       i_incomingLinkCount i <= MAX_INDUSTRY_LINKS).

(** A split container nothing takes from. *)
Definition unconsumedSplit (g : FactoryGraph) (id : nat) : Prop :=
  ∃ c, containers g !! id = Some c ∧ isSplit c = true ∧ consumers c = [].

(** The split containers nothing takes from are among [waiting]: those a
    caller of [produce] is about to link. *)
Definition pending (g : FactoryGraph) (waiting : list nat) : Prop :=
  ∀ id, unconsumedSplit g id → id ∈ waiting.

(** What the callers of [produce] rely on: the split containers that are
    left without a consumer are those returned. *)
Definition returnsPending (rec : Item -> Q -> FactoryGraph -> Result (list nat * FactoryGraph)) : Prop :=
  ∀ (P : list nat) (item : Item) (rate : Q) (g g' : FactoryGraph) (outs : list nat),
  rec item rate g = Ok (outs, g') → pending g P → pending g' (outs ++ P).

(** Some consumer of the container carries [item]. *)
Definition consumed (g : FactoryGraph) (c : ContainerNode) (item : Item) : Prop :=
  ∃ k, k ∈ consumers c ∧ itemOf g k = Some item.

(** The byproducts of the container with index [id] are all consumed. *)
Definition handled (db : Recipes) (g : FactoryGraph) (id : nat) : Prop :=
  ∀ c, containers g !! id = Some c → isOre (c_item c) = false →
  ∃ r, findRecipe db (c_item c) = Some r
       ∧ ∀ b, b ∈ byproducts r → consumed g c (q_item b).

(** A container keeps its item and its consumers. *)
Definition grows (c c' : ContainerNode) : Prop :=
  c_item c' = c_item c ∧ ∀ k, k ∈ consumers c → k ∈ consumers c'.

(** [g'] has the nodes of [g], with their items, and the consumer links of
    [g]. *)
Definition extends (g g' : FactoryGraph) : Prop :=
  (∀ id c, containers g !! id = Some c →
     ∃ c', containers g' !! id = Some c' ∧ grows c c')
  ∧ (∀ k item, itemOf g k = Some item → itemOf g' k = Some item).

(** [x] is the first, respectively the last, member of [l] that passes
    [p]. *)
Definition isFirstWhere {A : Type} (p : A -> bool) (l : list A) (x : A) : Prop :=
  ∃ l1 l2, l = l1 ++ x :: l2 ∧ p x = true ∧ Forall (λ y, p y = false) l1.

Definition isLastWhere {A : Type} (p : A -> bool) (l : list A) (x : A) : Prop :=
  ∃ l1 l2, l = l1 ++ x :: l2 ∧ p x = true ∧ Forall (λ y, p y = false) l2.

(** The transfer unit attached to [container] for [item] is the one that
    [pick] singles out among the transfer units of the item with room for
    an incoming link, when there is one. *)
Definition reusesTransferUnit (pick : (nat -> bool) -> list nat -> nat -> Prop) : Prop :=
  ∀ (g g' : FactoryGraph) (container : nat) (node : ContainerNode)
    (byproduct : Quantity) (t : nat),
  containers g !! container = Some node →
  isConsumed g node (q_item byproduct) = false →
  handleByproduct container byproduct g = Ok g' →
  pick (transferHasHeadroom g) (getTransferUnits g (q_item byproduct)) t →
  ∃ node', containers g' !! container = Some node'
           ∧ TransferRef t ∈ consumers node'
           ∧ length (transferUnits g') = length (transferUnits g).

(** When no transfer unit of the item has room, the output of the new
    transfer unit is the container that [pick] singles out among the
    containers of the item with room for an incoming link, when there is
    one. *)
Definition wiresNewTransferUnit (pick : (nat -> bool) -> list nat -> nat -> Prop) : Prop :=
  ∀ (g g' : FactoryGraph) (container : nat) (node : ContainerNode)
    (byproduct : Quantity) (o : nat),
  containers g !! container = Some node →
  isConsumed g node (q_item byproduct) = false →
  handleByproduct container byproduct g = Ok g' →
  Forall (λ t, transferHasHeadroom g t = false) (getTransferUnits g (q_item byproduct)) →
  pick (containerHasHeadroom g) (getContainers g (q_item byproduct)) o →
  ∃ unit, transferUnits g' !! length (transferUnits g) = Some unit
          ∧ t_item unit = q_item byproduct
          ∧ t_output unit = Some (ContainerRef o).








(** Whatever [rec] returns, [rec'] returns. *)
Definition refines (rec rec' : Item -> Q -> FactoryGraph -> Result (list nat * FactoryGraph)) : Prop :=
  ∀ item rate g r, rec item rate g = Ok r → rec' item rate g = Ok r.

(** What the determinism of [buildFactory] is about. *)
Definition nodeCounts (g : FactoryGraph) : nat * nat * nat * nat * nat :=
  (length (containers g), length (industries g), length (transferUnits g),
   length (transferContainers g), length (outputNodes g)).

Definition linkTopology (g : FactoryGraph) :=
  (map (λ c, (producers c, consumers c)) (containers g),
   map (λ i, (inputs i, output i)) (industries g),
   map (λ t, (t_inputs t, t_output t)) (transferUnits g),
   map (λ tc, (tc_producers tc, tc_consumers tc)) (transferContainers g),
   map o_producers (outputNodes g)).

Definition splitFractions (g : FactoryGraph) : list (bool * Q) :=
  map (λ c, (isSplit c, split c)) (containers g).

(** The values [numLinks] takes in the loop of lines 75-80, [n] being the
    number of iterations left. *)
Fixpoint splitShares (n : nat) (evenLinks linksRemaining : Z) : list Z :=
  match n with
  | O => []
  | S n' =>
      let numLinks := Z.min evenLinks linksRemaining in
      numLinks :: splitShares n' evenLinks (linksRemaining + - numLinks)
  end.

Definition Zsum (l : list Z) : Z := foldr Z.add 0 l.


(** ** What the graph model keeps

    A link from a container to an industry is held by both; the consumers of
    a container are a set within the limit; the transfer units of a transfer
    container carry distinct items. *)
Definition linksConsistent (g : FactoryGraph) : Prop :=
  ∀ i node c, industries g !! i = Some node → ContainerRef c ∈ inputs node →
  ∃ n, containers g !! c = Some n ∧ IndustryRef i ∈ consumers n.

Definition capacitiesKept (g : FactoryGraph) : Prop :=
  ∀ c n, containers g !! c = Some n →
  NoDup (consumers n) ∧ canAddOutgoingLinks n 0 = true.

Definition distinctUnits (g : FactoryGraph) : Prop :=
  ∀ id tc, transferContainers g !! id = Some tc →
  NoDup (itemOf g <$> tc_producers tc)
  ∧ ∀ p, p ∈ tc_producers tc → ∃ t, p = TransferRef t ∧ is_Some (transferUnits g !! t).

Definition consistent (g : FactoryGraph) : Prop :=
  linksConsistent g ∧ capacitiesKept g ∧ distinctUnits g.

(** No recipe lists an item twice among its ingredients. *)
Definition distinctIngredients (db : Recipes) : Prop :=
  ∀ r, r ∈ db → NoDup (q_item <$> ingredients r).

(** A step that adds nodes or producers of containers, and changes no
    input of an industry, no consumer of a container and no producer of a
    transfer container. *)
Definition quiet (g g' : FactoryGraph) : Prop :=
  extends g g'
  ∧ (∀ i node', industries g' !! i = Some node' →
       inputs node' = []
       ∨ ∃ node, industries g !! i = Some node ∧ inputs node' = inputs node)
  ∧ (∀ c n', containers g' !! c = Some n' →
       consumers n' = []
       ∨ ∃ n, containers g !! c = Some n ∧ consumers n' = consumers n
              ∧ isSplit n' = isSplit n)
  ∧ (∀ id tc', transferContainers g' !! id = Some tc' →
       tc_producers tc' = []
       ∨ ∃ tc, transferContainers g !! id = Some tc
               ∧ tc_producers tc' = tc_producers tc).

(** ** What the link resolver leaves of a node

    Of a container: everything but its consumers.  Of an industry:
    everything but its inputs. *)
Definition containerShape (c : ContainerNode) : Item * Q * bool * list NodeRef :=
  (c_item c, split c, isSplit c, producers c).

Definition industryShape (i : IndustryNode) : Item * option NodeRef :=
  (i_item i, output i).

(** [r'] is the recipe [r] with its ingredients in another order. *)
Definition reordered (r r' : Recipe) : Prop :=
  product r' = product r
  ∧ byproducts r' = byproducts r
  ∧ time r' = time r
  ∧ ingredients r' ≡ₚ ingredients r.

(** ** What [sanityCheck] reports *)

(** The container passes the four checks of lines 247-262. *)
Definition containerWithin (db : Recipes) (g : FactoryGraph) (id : nat)
    (c : ContainerNode) : Prop :=
  incomingLinkCount c <= MAX_CONTAINER_LINKS
  ∧ outgoingLinkCount c <= MAX_CONTAINER_LINKS
  ∧ (egress db g id <= ingress db g id)%Q
  ∧ (isSplit c = true → outgoingLinkCount c <= 1).

(** The container fails the check that throws [why], and passes the checks
    made before it. *)
Definition containerFault (db : Recipes) (g : FactoryGraph) (id : nat)
    (c : ContainerNode) (why : SanityFailure) : Prop :=
  match why with
  | IncomingLimit => incomingLinkCount c > MAX_CONTAINER_LINKS
  | OutgoingLimit =>
      incomingLinkCount c <= MAX_CONTAINER_LINKS
      ∧ outgoingLinkCount c > MAX_CONTAINER_LINKS
  | EgressExceedsIngress =>
      incomingLinkCount c <= MAX_CONTAINER_LINKS
      ∧ outgoingLinkCount c <= MAX_CONTAINER_LINKS
      ∧ (ingress db g id < egress db g id)%Q
  | SplitOutgoing =>
      incomingLinkCount c <= MAX_CONTAINER_LINKS
      ∧ outgoingLinkCount c <= MAX_CONTAINER_LINKS
      ∧ (egress db g id <= ingress db g id)%Q
      ∧ isSplit c = true ∧ outgoingLinkCount c > 1
  | IndustryLimit => False
  end.

(** The error [e] of [sanityCheck] is the one of the first container, in
    creation order, that fails a check, or, when every container passes,
    the one of the first industry above the limit. *)
Definition reportsFirst (db : Recipes) (g : FactoryGraph) (e : Error) : Prop :=
  ∃ why, e = SanityError why
  ∧ ((∃ id c, containers g !! id = Some c
              ∧ containerFault db g id c why
              ∧ ∀ j cj, (j < id)%nat → containers g !! j = Some cj →
                  containerWithin db g j cj)
     ∨ (why = IndustryLimit
        ∧ (∀ id c, containers g !! id = Some c → containerWithin db g id c)
        ∧ ∃ i node, industries g !! i = Some node
                    ∧ i_incomingLinkCount node > MAX_INDUSTRY_LINKS
                    ∧ ∀ j nj, (j < i)%nat → industries g !! j = Some nj →
                        i_incomingLinkCount nj <= MAX_INDUSTRY_LINKS)).

(** ** The output nodes *)

(** The producers of the output node [o], whose index is [k], are
    industries of [item] whose output it is. *)
Definition assembles (g : FactoryGraph) (item : Item) (k : nat) (o : OutputNode) : Prop :=
  ∀ p, p ∈ o_producers o →
  ∃ i node, p = IndustryRef i
            ∧ industries g !! i = Some node
            ∧ i_item node = item
            ∧ output node = Some (OutputRef k).

(** The output node with index [k] is that of the requirement: it has its
    item, the rate of one industry times the count, the quantity to
    maintain, and one producer for each unit of the count, an industry of
    the item whose output it is. *)
Definition delivers (db : Recipes) (g : FactoryGraph) (k : nat)
    (requirement : Item * Requirement) : Prop :=
  ∃ o recipe,
    outputNodes g !! k = Some o
    ∧ findRecipe db requirement.1 = Some recipe
    ∧ o_item o = requirement.1
    ∧ o_rate o = (quantity (product recipe) / time recipe
                  * inject_Z (count requirement.2))%Q
    ∧ maintain o = r_maintain requirement.2
    ∧ length (o_producers o) = Z.to_nat (count requirement.2)
    ∧ assembles g requirement.1 k o.

(** [g'] has the industries of [g], with their items and outputs. *)
Definition keepsIndustries (g g' : FactoryGraph) : Prop :=
  ∀ i node, industries g !! i = Some node →
  ∃ node', industries g' !! i = Some node' ∧ industryShape node' = industryShape node.

(** [g'] has the output nodes of [g] as they are, and its industries. *)
Definition settled (g g' : FactoryGraph) : Prop :=
  outputNodes g' = outputNodes g ∧ keepsIndustries g g'.

(** ** Ingredients in ascending quantity *)

Definition byQuantity (x y : Quantity) : Prop := (quantity x <= quantity y)%Q.

(** ** Where the transfer units put what they carry *)

(** Every transfer unit outputs to a container that holds its item. *)
Definition stored (g : FactoryGraph) : Prop :=
  ∀ t u, transferUnits g !! t = Some u →
  ∃ c n, t_output u = Some (ContainerRef c)
         ∧ containers g !! c = Some n
         ∧ c_item n = t_item u.

(** ** Transfer containers and their units *)

(** Every transfer container has one transfer unit for each of its items. *)
Definition unitPerItem (g : FactoryGraph) : Prop :=
  ∀ id tc, transferContainers g !! id = Some tc →
  length (tc_producers tc) = length (items tc).

(** The industries listed in [ids] have enough ingredients for the link
    resolver: one more than the incoming links in excess of the limit. *)
Definition enoughIngredients (db : Recipes) (g : FactoryGraph) (ids : list nat) : Prop :=
  ∀ i node recipe,
  i ∈ ids →
  industries g !! i = Some node →
  findRecipe db (i_item node) = Some recipe →
  i_incomingLinkCount node - MAX_INDUSTRY_LINKS + 1 <= Z.of_nat (length (ingredients recipe)).

(** ** The production chain *)

(** The industry outputs to a node that carries the item it makes. *)
Definition feedsOwnItem (g : FactoryGraph) (node : IndustryNode) : Prop :=
  ∃ dst, output node = Some dst ∧ itemOf g dst = Some (i_item node).

(** The container with index [c] holds an ingredient of the recipe of the
    item the industry makes. *)
Definition justified (db : Recipes) (g : FactoryGraph) (node : IndustryNode) (c : nat) : Prop :=
  ∃ recipe q, findRecipe db (i_item node) = Some recipe
              ∧ q ∈ ingredients recipe
              ∧ itemOf g (ContainerRef c) = Some (q_item q).

Definition takesIngredients (db : Recipes) (g : FactoryGraph) (node : IndustryNode) : Prop :=
  ∀ c, ContainerRef c ∈ inputs node → justified db g node c.

(** Every industry outputs to a node that carries its item and takes from
    containers of its ingredients. *)
Definition wired (db : Recipes) (g : FactoryGraph) : Prop :=
  ∀ i node, industries g !! i = Some node →
  feedsOwnItem g node ∧ takesIngredients db g node.

(** A step from [g] to [g'] that keeps the items of the nodes, and after
    which an industry is new, with its output and no input, or is an
    industry of [g] that takes from the containers it took from or from
    containers of its ingredients. *)
Definition keepsWiring (db : Recipes) (g g' : FactoryGraph) : Prop :=
  (∀ k item, itemOf g k = Some item → itemOf g' k = Some item)
  ∧ ∀ i node', industries g' !! i = Some node' →
      (feedsOwnItem g' node' ∧ inputs node' = [])
      ∨ ∃ node, industries g !! i = Some node
                ∧ industryShape node' = industryShape node
                ∧ ∀ c, ContainerRef c ∈ inputs node' →
                    ContainerRef c ∈ inputs node ∨ justified db g' node' c.

(** The recipe of [item] in the table has its ingredients in ascending
    quantity. *)
Definition sortedRecipe (db : Recipes) (item : Item) : Prop :=
  ∃ r, findRecipe db item = Some r ∧ StronglySorted byQuantity (ingredients r).

(** [g'] has the nodes of [g], with their items. *)
Definition itemsKept (g g' : FactoryGraph) : Prop :=
  ∀ k item, itemOf g k = Some item → itemOf g' k = Some item.

(** Every transfer container has one transfer unit for each of its items,
    in the order of the items, and some industry takes from it. *)
Definition supplied (g : FactoryGraph) : Prop :=
  ∀ id tc, transferContainers g !! id = Some tc →
  itemOf g <$> tc_producers tc = Some <$> items tc ∧ tc_consumers tc ≠ [].

(** ** Consumers and inputs *)

(** The node [k] is an industry or a transfer unit of the graph that has the
    container with index [c] among its inputs. *)
Definition takes (g : FactoryGraph) (k : NodeRef) (c : nat) : Prop :=
  match k with
  | IndustryRef i => ∃ l, inputs <$> industries g !! i = Some l ∧ ContainerRef c ∈ l
  | TransferRef t => ∃ l, t_inputs <$> transferUnits g !! t = Some l ∧ ContainerRef c ∈ l
  | _ => False
  end.

(** Every consumer of a container takes from it. *)
Definition consumersTake (g : FactoryGraph) : Prop :=
  ∀ c n k, containers g !! c = Some n → k ∈ consumers n → takes g k c.

(** ** Synthesis within the capacities *)

(** The outcome is not a failed attach; a result satisfies [P]. *)
Definition neverFull {A : Type} (r : Result A) (P : A -> Prop) : Prop :=
  match r with
  | Ok a => P a
  | Throw e => e ≠ CapacityExceeded
  | OutOfFuel => True
  end.

(** No recipe of the table needs its own product, directly or through other
    recipes: [rank] decreases from a product to its ingredients. *)
Definition acyclic (rank : Item -> nat) (db : Recipes) : Prop :=
  ∀ r q, r ∈ db → q ∈ ingredients r →
  (rank (q_item q) < rank (q_item (product r)))%nat.

(** The containers of [g] whose item has rank [r] or more are in [g'] as
    they are in [g]. *)
Definition untouchedFrom (rank : Item -> nat) (r : nat) (g g' : FactoryGraph) : Prop :=
  ∀ c n, containers g !! c = Some n → (r <= rank (c_item n))%nat →
  containers g' !! c = Some n.

(** The container with index [c] holds [item] and has room for one more
    outgoing link. *)
Definition hasRoom (g : FactoryGraph) (item : Item) (c : nat) : Prop :=
  ∃ n, containers g !! c = Some n ∧ c_item n = item ∧ canAddOutgoingLinks n 1 = true.

(** What [produce] returns for [item] from [g]: distinct containers of the
    item with room for a consumer, in a graph that has the containers of
    the items that rank above [item] as they were. *)
Definition produced (rank : Item -> nat) (item : Item) (g : FactoryGraph)
    (r : list nat * FactoryGraph) : Prop :=
  NoDup r.1
  ∧ (∀ c, c ∈ r.1 → hasRoom r.2 item c)
  ∧ untouchedFrom rank (S (rank item)) g r.2.

(** ** Containers within their link limits *)

(** Every container has at most [MAX_CONTAINER_LINKS] producers, and its
    consumers are within its outgoing capacity. *)
Definition linksWithin (g : FactoryGraph) : Prop :=
  ∀ c n, containers g !! c = Some n →
  incomingLinkCount n <= MAX_CONTAINER_LINKS ∧ canAddOutgoingLinks n 0 = true.

(** ** The states of the byproduct pass *)

(** The graphs in which [buildFactory] handles a byproduct: the graph that
    the loop over the requirements leaves, and the graph after each
    byproduct handled. *)
Inductive reconciling : FactoryGraph -> Prop :=
  | reconciling_start (fuel : nat) (db : Recipes)
      (requirements : list (Item * Requirement)) (g : FactoryGraph) :
      synthesize fuel db requirements = Ok g -> reconciling g
  | reconciling_step (container : nat) (byproduct : Quantity) (g g' : FactoryGraph) :
      reconciling g -> handleByproduct container byproduct g = Ok g' -> reconciling g'.

(** At most one transfer unit of an item has room for an incoming link. *)
Definition oneOpenUnit (g : FactoryGraph) : Prop :=
  ∀ t1 t2 u1 u2,
  transferUnits g !! t1 = Some u1 → transferUnits g !! t2 = Some u2 →
  t_item u1 = t_item u2 →
  t_canAddIncomingLinks u1 1 = true → t_canAddIncomingLinks u2 1 = true →
  t1 = t2.

(** [reusesTransferUnit] and [wiresNewTransferUnit], for the graphs that
    satisfy [reached]. *)
Definition reusesTransferUnitIn (reached : FactoryGraph -> Prop)
    (pick : (nat -> bool) -> list nat -> nat -> Prop) : Prop :=
  ∀ (g g' : FactoryGraph) (container : nat) (node : ContainerNode)
    (byproduct : Quantity) (t : nat),
  reached g →
  containers g !! container = Some node →
  isConsumed g node (q_item byproduct) = false →
  handleByproduct container byproduct g = Ok g' →
  pick (transferHasHeadroom g) (getTransferUnits g (q_item byproduct)) t →
  ∃ node', containers g' !! container = Some node'
           ∧ TransferRef t ∈ consumers node'
           ∧ length (transferUnits g') = length (transferUnits g).

Definition wiresNewTransferUnitIn (reached : FactoryGraph -> Prop)
    (pick : (nat -> bool) -> list nat -> nat -> Prop) : Prop :=
  ∀ (g g' : FactoryGraph) (container : nat) (node : ContainerNode)
    (byproduct : Quantity) (o : nat),
  reached g →
  containers g !! container = Some node →
  isConsumed g node (q_item byproduct) = false →
  handleByproduct container byproduct g = Ok g' →
  Forall (λ t, transferHasHeadroom g t = false) (getTransferUnits g (q_item byproduct)) →
  pick (containerHasHeadroom g) (getContainers g (q_item byproduct)) o →
  ∃ unit, transferUnits g' !! length (transferUnits g) = Some unit
          ∧ t_item unit = q_item byproduct
          ∧ t_output unit = Some (ContainerRef o).

(** ** The link resolver, industry by industry *)



(** ** A table that the link resolver leaves as it is *)

(** Every recipe of the table has its ingredients in ascending quantity. *)
Definition sortedTable (db : Recipes) : Prop :=
  ∀ r, r ∈ db → StronglySorted byQuantity (ingredients r).

(** * Properties *)

(** ** Loops *)

Lemma bind_Ok {A B : Type} (m : Result A) (k : A -> Result B) (b : B) :
  bind m k = Ok b → ∃ a, m = Ok a ∧ k a = Ok b.
Proof. destruct m as [a| |]; simpl; [eauto | discriminate | discriminate]. Qed.

Lemma orThrow_Ok {A : Type} (e : Error) (o : option A) (a : A) :
  orThrow e o = Ok a → o = Some a.
Proof. destruct o; simpl; congruence. Qed.

Lemma forEach_invariant {A S : Type} (I : S -> Prop) (body : A -> S -> Result S) (l : list A) :
  (∀ a s s', a ∈ l → I s → body a s = Ok s' → I s') →
  ∀ s s', I s → forEach body l s = Ok s' → I s'.
Proof.
  induction l as [|a l IH]; intros Hbody s s' Hs Hrun; simpl in Hrun.
  - congruence.
  - apply bind_Ok in Hrun as (s1 & H1 & H2).
    eapply IH; [| |exact H2].
    + intros; eapply Hbody; eauto. by right.
    + eapply Hbody; eauto. by left.
Qed.

Lemma forEach_checks {A : Type} (check : A -> Result unit) (l : list A) :
  forEach (λ a _, check a) l tt = Ok tt ↔ ∀ a, a ∈ l → check a = Ok tt.
Proof.
  induction l as [|a l IH]; simpl.
  - split; [|done]. intros _ a Ha. by apply elem_of_nil in Ha.
  - split.
    + intros H. apply bind_Ok in H as ([] & H1 & H2).
      intros b [->|Hb]%elem_of_cons; [done|]. by apply IH.
    + intros H. rewrite (H a) by (by left). simpl. apply IH.
      intros b Hb. apply H. by right.
Qed.

Lemma forEach_checks_throw {A : Type} (check : A -> Result unit) (l : list A) :
  (∀ a, a ∈ l → check a = Ok tt ∨ ∃ why, check a = Throw (SanityError why)) →
  forEach (λ a _, check a) l tt = Ok tt
  ∨ ∃ why, forEach (λ a _, check a) l tt = Throw (SanityError why).
Proof.
  induction l as [|a l IH]; intros H; simpl; [by left|].
  destruct (H a) as [Ha|[why Ha]]; [by left| |]; rewrite Ha; simpl.
  - apply IH. intros b Hb. apply H. by right.
  - right. by exists why.
Qed.

(** ** [sanityCheck] *)

Lemma checkContainer_Ok (db : Recipes) (g : FactoryGraph) (id : nat) (c : ContainerNode) :
  containers g !! id = Some c →
  checkContainer db g id = Ok tt →
  incomingLinkCount c <= MAX_CONTAINER_LINKS
  ∧ outgoingLinkCount c <= MAX_CONTAINER_LINKS
  ∧ (egress db g id <= ingress db g id)%Q
  ∧ (isSplit c = true → outgoingLinkCount c <= 1).
Proof.
  intros Hc. unfold checkContainer. rewrite Hc. simpl.
  destruct (incomingLinkCount c >? MAX_CONTAINER_LINKS) eqn:E1; [discriminate|].
  destruct (outgoingLinkCount c >? MAX_CONTAINER_LINKS) eqn:E2; [discriminate|].
  destruct (Qltb (ingress db g id) (egress db g id)) eqn:E3; [discriminate|].
  destruct (isSplit c && (outgoingLinkCount c >? 1)) eqn:E4; [discriminate|].
  intros _. repeat split; try lia.
  - unfold Qltb in E3. apply negb_false_iff in E3. by apply Qle_bool_iff.
  - intros Hs. rewrite Hs in E4. simpl in E4. lia.
Qed.

Lemma checkContainer_cases (db : Recipes) (g : FactoryGraph) (id : nat) :
  id ∈ seq 0 (length (containers g)) →
  checkContainer db g id = Ok tt ∨ ∃ why, checkContainer db g id = Throw (SanityError why).
Proof.
  intros Hid. apply elem_of_seq in Hid.
  destruct (lookup_lt_is_Some_2 (containers g) id) as [c Hc]; [lia|].
  unfold checkContainer. rewrite Hc. simpl.
  repeat (match goal with |- context [if ?b then _ else _] => destruct b end; eauto).
Qed.

Lemma checkIndustry_cases (i : IndustryNode) :
  checkIndustry i = Ok tt ∨ ∃ why, checkIndustry i = Throw (SanityError why).
Proof. unfold checkIndustry. destruct (_ >? _); eauto. Qed.

Lemma sanityCheck_Ok (db : Recipes) (g : FactoryGraph) :
  sanityCheck db g = Ok tt →
  withinLimits db g
  ∧ ∀ id c, containers g !! id = Some c → isSplit c = true → outgoingLinkCount c <= 1.
Proof.
  unfold sanityCheck. intros H. apply bind_Ok in H as ([] & H1 & H2).
  rewrite forEach_checks in H1. rewrite forEach_checks in H2.
  assert (Hc : ∀ id c, containers g !! id = Some c → checkContainer db g id = Ok tt).
  { intros id c Hc. apply H1. apply elem_of_seq. apply lookup_lt_Some in Hc. lia. }
  split; [split|].
  - intros id c Hl. destruct (checkContainer_Ok db g id c Hl (Hc _ _ Hl)) as (?&?&?&?). done.
  - intros id i Hl. apply list_elem_of_lookup_2 in Hl. specialize (H2 _ Hl).
    unfold checkIndustry in H2. destruct (_ >? _) eqn:E; [discriminate|]. lia.
  - intros id c Hl. by destruct (checkContainer_Ok db g id c Hl (Hc _ _ Hl)) as (?&?&?&?).
Qed.

Lemma sanityCheck_cases (db : Recipes) (g : FactoryGraph) :
  sanityCheck db g = Ok tt ∨ ∃ why, sanityCheck db g = Throw (SanityError why).
Proof.
  unfold sanityCheck.
  destruct (forEach_checks_throw (checkContainer db g) (seq 0 (length (containers g))))
    as [H|[why H]]; [intros; by apply checkContainer_cases| |]; rewrite H; simpl.
  - apply forEach_checks_throw. intros; apply checkIndustry_cases.
  - right. by exists why.
Qed.

(** ** Split containers keep a consumer *)

Lemma set_add_nonempty (x : NodeRef) (s : list NodeRef) : set_add x s ≠ [].
Proof.
  unfold set_add. case_bool_decide as H.
  - intros ->. by apply elem_of_nil in H.
  - by destruct s.
Qed.

Lemma elem_of_set_add (x y : NodeRef) (s : list NodeRef) :
  y ∈ set_add x s ↔ y = x ∨ y ∈ s.
Proof.
  unfold set_add. case_bool_decide as H.
  - split; [by right|]. by intros [->|?].
  - rewrite elem_of_app, list_elem_of_singleton. tauto.
Qed.

Lemma pending_containers (g g' : FactoryGraph) (P : list nat) :
  containers g' = containers g → pending g P → pending g' P.
Proof. intros E H id (c & Hc & ?). apply H. exists c. by rewrite <- E. Qed.

Lemma pending_mono (g : FactoryGraph) (P P' : list nat) :
  (∀ id, id ∈ P → id ∈ P') → pending g P → pending g P'.
Proof. intros HP H id Hid. by apply HP, H. Qed.

Lemma pending_createContainer (item : Item) (g g' : FactoryGraph) (id : nat) (P : list nat) :
  createContainer item g = (id, g') → pending g P → pending g' P.
Proof.
  intros [= <- <-] H j (c & Hc & Hs & Hk). apply H. simpl in Hc.
  apply lookup_app_Some in Hc as [Hc|[_ Hc]].
  - by exists c.
  - apply list_lookup_singleton_Some in Hc as [_ <-]. discriminate.
Qed.

Lemma pending_createSplitContainer (item : Item) (fraction : Q) (g g' : FactoryGraph)
    (id : nat) (P : list nat) :
  createSplitContainer item fraction g = (id, g') → pending g P → pending g' (id :: P).
Proof.
  intros [= <- <-] H j (c & Hc & Hs & Hk). simpl in Hc.
  apply lookup_app_Some in Hc as [Hc|[Hle Hc]].
  - right. apply H. by exists c.
  - apply list_lookup_singleton_Some in Hc as [Hid _].
    replace j with (length (containers g)) by lia. by left.
Qed.

Lemma pending_alter (f : ContainerNode -> ContainerNode) (c : nat) (g : FactoryGraph) (P : list nat) :
  (∀ n, isSplit (f n) = isSplit n) →
  (∀ n, consumers (f n) = [] → consumers n = []) →
  pending g P → pending (withContainers (alter f c) g) P.
Proof.
  intros Hs Hk H id (n & Hn & Hsplit & Hnone). apply H. simpl in Hn.
  rewrite list_lookup_alter in Hn. case_decide as E.
  - subst. destruct (containers g !! id) as [n0|] eqn:E0; [|discriminate].
    injection Hn as <-. exists n0. rewrite Hs in Hsplit. eauto.
  - by exists n.
Qed.

Lemma pending_addConsumer (k : NodeRef) (c : nat) (g : FactoryGraph) (P : list nat) :
  pending g (c :: P) → pending (withContainers (alter (addConsumer k) c) g) P.
Proof.
  intros H id (n & Hn & Hsplit & Hnone). simpl in Hn.
  rewrite list_lookup_alter in Hn. case_decide as E.
  - subst. destruct (containers g !! id) as [n0|]; [|discriminate].
    injection Hn as <-. simpl in Hnone. by apply set_add_nonempty in Hnone.
  - assert (Hin : id ∈ c :: P) by (apply H; by exists n).
    apply elem_of_cons in Hin as [->|Hin]; done.
Qed.

Lemma pending_deleteConsumer (k : NodeRef) (c : nat) (g : FactoryGraph) (P : list nat) :
  pending g P → pending (withContainers (alter (deleteConsumer k) c) g) (c :: P).
Proof.
  intros H id (n & Hn & Hsplit & Hnone). simpl in Hn.
  rewrite list_lookup_alter in Hn. case_decide as E.
  - subst. by left.
  - right. apply H. by exists n.
Qed.

Lemma pending_i_outputTo (i : nat) (dst : NodeRef) (g g' : FactoryGraph) (P : list nat) :
  i_outputTo i dst g = Ok g' → pending g P → pending g' P.
Proof.
  unfold i_outputTo. intros H HP.
  apply bind_Ok in H as (? & _ & H). destruct dst; try discriminate.
  - apply bind_Ok in H as (node & _ & H).
    destruct (canAddIncomingLinks node 1); [|discriminate]. injection H as <-.
    eapply pending_containers; [reflexivity|]. by apply pending_alter.
  - apply bind_Ok in H as (? & _ & [= <-]). by eapply pending_containers.
Qed.

Lemma pending_i_takeFrom (i : nat) (src : NodeRef) (g g' : FactoryGraph) (P : list nat) :
  i_takeFrom i src g = Ok g' →
  pending g (match src with ContainerRef c => c :: P | _ => P end) → pending g' P.
Proof.
  unfold i_takeFrom. intros H HP.
  apply bind_Ok in H as (? & _ & H). destruct src; try discriminate.
  - apply bind_Ok in H as (node & _ & H).
    destruct (canAddOutgoingLinks node 1); [|discriminate]. injection H as <-.
    eapply pending_containers; [reflexivity|]. by apply pending_addConsumer.
  - apply bind_Ok in H as (node & _ & H).
    destruct (tc_canAddOutgoingLinks node 1); [|discriminate]. injection H as <-.
    by eapply pending_containers.
Qed.

Lemma pending_t_outputTo (t : nat) (dst : NodeRef) (g g' : FactoryGraph) (P : list nat) :
  t_outputTo t dst g = Ok g' → pending g P → pending g' P.
Proof.
  unfold t_outputTo. intros H HP.
  apply bind_Ok in H as (? & _ & H). destruct dst; try discriminate.
  - apply bind_Ok in H as (node & _ & H).
    destruct (canAddIncomingLinks node 1); [|discriminate]. injection H as <-.
    eapply pending_containers; [reflexivity|]. by apply pending_alter.
  - apply bind_Ok in H as (node & _ & H).
    destruct (tc_canAddIncomingLinks node 1); [|discriminate]. injection H as <-.
    by eapply pending_containers.
Qed.

Lemma pending_t_takeFrom (t c : nat) (g g' : FactoryGraph) (P : list nat) :
  t_takeFrom t (ContainerRef c) g = Ok g' → pending g (c :: P) → pending g' P.
Proof.
  unfold t_takeFrom. intros H HP.
  apply bind_Ok in H as (unit & _ & H).
  apply bind_Ok in H as (node & _ & H).
  destruct (_ && _); [|discriminate]. injection H as <-.
  eapply pending_containers; [reflexivity|]. by apply pending_addConsumer.
Qed.

Lemma pending_takeFromAll (i : nat) (ins : list nat) (g g' : FactoryGraph) (P : list nat) :
  forEach (λ input g2, i_takeFrom i (ContainerRef input) g2) ins g = Ok g' →
  pending g (ins ++ P) → pending g' P.
Proof.
  revert g. induction ins as [|c ins IH]; intros g H HP; simpl in *.
  - by injection H as <-.
  - apply bind_Ok in H as (g1 & H1 & H2).
    eapply IH; [exact H2|].
    eapply (pending_i_takeFrom _ (ContainerRef c)); [exact H1|].
    eapply pending_mono; [|exact HP]. intros id. rewrite !elem_of_cons. tauto.
Qed.

Lemma pending_createSplitContainers (n : nat) (item : Item) (total even : Z) :
  ∀ (remaining : Z) (g g' : FactoryGraph) (outs P : list nat),
  createSplitContainers n item total even remaining g = (outs, g') →
  pending g P → pending g' (outs ++ P).
Proof.
  induction n as [|n IH]; intros remaining g g' outs P H HP;
    cbn [createSplitContainers] in H.
  - by injection H as <- <-.
  - destruct (createSplitContainer _ _ g) as [c g1] eqn:E1.
    destruct (createSplitContainers n _ _ _ _ g1) as [cs g2] eqn:E2.
    injection H as <- <-.
    eapply pending_mono; [|eapply IH; [exact E2|]].
    2:{ eapply pending_createSplitContainer; eauto. }
    intros id. rewrite !elem_of_app, !elem_of_cons. tauto.
Qed.

Lemma pending_newOutputs (item : Item) (rate : Q) (recipe : Recipe)
    (g g' : FactoryGraph) (outs P : list nat) (n : Z) :
  newOutputs item rate recipe g = (outs, n, g') →
  pending g P → pending g' (outs ++ P).
Proof.
  unfold newOutputs. intros H HP. destruct (_ >? _).
  - destruct (createSplitContainers _ _ _ _ _ g) as [cs g1] eqn:E.
    injection H as <- _ <-. eapply pending_createSplitContainers; eauto.
  - destruct (createContainer item g) as [c g1] eqn:E.
    injection H as <- _ <-.
    eapply pending_mono; [|eapply pending_createContainer; eauto].
    intros id ?. by right.
Qed.

Lemma pending_buildIngredients
    (rec : Item -> Q -> FactoryGraph -> Result (list nat * FactoryGraph))
    (i : nat) (recipe : Recipe) (g g' : FactoryGraph) (P : list nat) :
  returnsPending rec →
  buildIngredients rec i recipe g = Ok g' → pending g P → pending g' P.
Proof.
  intros Hrec H HP. unfold buildIngredients in H.
  eapply (forEach_invariant (λ g, pending g P)); [|exact HP|exact H].
  intros ingredient s s' _ Hs Hbody. simpl in Hbody.
  apply bind_Ok in Hbody as ([ins g1] & H1 & H2).
  eapply pending_takeFromAll; [exact H2|]. eapply Hrec; eauto.
Qed.

Lemma pending_addIndustry
    (rec : Item -> Q -> FactoryGraph -> Result (list nat * FactoryGraph))
    (item : Item) (recipe : Recipe) (outs : list nat) (i : nat)
    (g g' : FactoryGraph) (P : list nat) :
  returnsPending rec →
  addIndustry rec item recipe outs i g = Ok g' → pending g P → pending g' P.
Proof.
  intros Hrec H HP. unfold addIndustry in H.
  destruct (createIndustry item g) as [industry g1] eqn:E1.
  apply bind_Ok in H as (out & _ & H).
  apply bind_Ok in H as (g2 & H2 & H3).
  eapply pending_buildIngredients; [exact Hrec|exact H3|].
  eapply pending_i_outputTo; [exact H2|].
  injection E1 as _ <-. by eapply pending_containers.
Qed.

Lemma pending_produce (fuel : nat) (db : Recipes) : returnsPending (produce fuel db).
Proof.
  induction fuel as [|fuel IH]; intros P item rate g g' outs H HP; simpl in H; [discriminate|].
  destruct (isOre item).
  { destruct (find _ _) as [c|].
    - injection H as <- <-. eapply pending_mono; [|exact HP]. intros id ?. by right.
    - destruct (createContainer item g) as [c g1] eqn:E. injection H as <- <-.
      eapply pending_mono; [|eapply pending_createContainer; eauto]. intros id ?. by right. }
  destruct (find _ _) as [c|].
  { injection H as <- <-. eapply pending_mono; [|exact HP]. intros id ?. by right. }
  apply bind_Ok in H as (recipe & _ & H).
  destruct (existingOutput db rate recipe g (getContainers g item)) as [[c n]|] eqn:E.
  - apply bind_Ok in H as (g1 & H1 & [= <- <-]).
    eapply (forEach_invariant (λ g, pending g ([c] ++ P))); [| |exact H1].
    + intros; eapply pending_addIndustry; eauto.
    + eapply pending_mono; [|exact HP]. intros id ?. by right.
  - destruct (newOutputs item rate recipe g) as [[outs0 n] g0] eqn:E0.
    apply bind_Ok in H as (g1 & H1 & [= <- <-]).
    eapply (forEach_invariant (λ g, pending g (outs0 ++ P))); [| |exact H1].
    + intros; eapply pending_addIndustry; eauto.
    + eapply pending_newOutputs; eauto.
Qed.

Lemma pending_synthesize (fuel : nat) (db : Recipes) (requirements : list (Item * Requirement))
    (g : FactoryGraph) :
  synthesize fuel db requirements = Ok g → pending g [].
Proof.
  unfold synthesize. intros H.
  eapply (forEach_invariant (λ g, pending g [])); [| |exact H].
  - intros [item [n m]] s s' _ Hs Hbody. unfold addRequirement in Hbody.
    apply bind_Ok in Hbody as (recipe & _ & Hbody).
    destruct (createOutput _ _ _ s) as [o g1] eqn:E1.
    eapply (forEach_invariant (λ g, pending g [])); [| |exact Hbody].
    + intros k s1 s2 _ Hs1 Hb. simpl in Hb.
      destruct (createIndustry item s1) as [industry g2] eqn:E2.
      apply bind_Ok in Hb as (g3 & H3 & H4).
      eapply pending_buildIngredients; [apply pending_produce|exact H4|].
      eapply pending_i_outputTo; [exact H3|].
      injection E2 as _ <-. by eapply pending_containers.
    + injection E1 as _ <-. by eapply pending_containers.
  - intros id (c & Hc & _). discriminate.
Qed.

Lemma pending_byproductOutput (item : Item) (g g' : FactoryGraph) (o : nat) (P : list nat) :
  byproductOutput item g = (o, g') → pending g P → pending g' P.
Proof.
  unfold byproductOutput. destruct (lastWhere _ _).
  - by intros [= _ <-].
  - apply pending_createContainer.
Qed.

Lemma pending_handleByproduct (c : nat) (b : Quantity) (g g' : FactoryGraph) (P : list nat) :
  handleByproduct c b g = Ok g' → pending g P → pending g' P.
Proof.
  unfold handleByproduct. intros H HP.
  apply bind_Ok in H as (node & _ & H).
  destruct (isConsumed g node (q_item b)); [by injection H as <-|].
  apply bind_Ok in H as ([t g1] & H1 & H2).
  eapply pending_t_takeFrom; [exact H2|].
  eapply pending_mono; [intros id ?; by right|].
  destruct (lastWhere _ _).
  - by injection H1 as _ <-.
  - destruct (createTransferUnit (q_item b) g) as [t0 g0] eqn:E0.
    destruct (byproductOutput (q_item b) g0) as [o g2] eqn:E2.
    apply bind_Ok in H1 as (g3 & H3 & [= _ <-]).
    eapply pending_t_outputTo; [exact H3|].
    eapply pending_byproductOutput; [exact E2|].
    injection E0 as _ <-. by eapply pending_containers.
Qed.

Lemma pending_handleByproducts (fuel : nat) (db : Recipes) (P : list nat) :
  ∀ (idx : nat) (g g' : FactoryGraph),
  handleByproductsFrom fuel db idx g = Ok g' → pending g P → pending g' P.
Proof.
  induction fuel as [|fuel IH]; intros idx g g' H HP; simpl in H;
    destruct (containers g !! idx) as [c|]; try discriminate;
    try (by injection H as <-).
  destruct (isOre (c_item c)); [by eapply IH|].
  apply bind_Ok in H as (recipe & _ & H).
  apply bind_Ok in H as (g1 & H1 & H2).
  eapply IH; [exact H2|].
  eapply (forEach_invariant (λ g, pending g P)); [|exact HP|exact H1].
  intros; by eapply pending_handleByproduct.
Qed.

Lemma pending_chooseTransferContainer (e : Z) (its : list Item) (g g' : FactoryGraph)
    (tc : nat) (P : list nat) :
  chooseTransferContainer e its g = Ok (tc, g') → pending g P → pending g' P.
Proof.
  unfold chooseTransferContainer, newTransferContainer. intros H HP.
  destruct (find _ _); [by injection H as _ <-|].
  destruct (createTransferContainer _ g) as [tc0 g0] eqn:E0.
  apply bind_Ok in H as (g2 & H2 & [= _ <-]).
  eapply (forEach_invariant (λ g, pending g P)); [| |exact H2].
  - intros item s s' _ Hs Hb. simpl in Hb.
    eapply pending_t_outputTo; [exact Hb|]. by eapply pending_containers.
  - injection E0 as _ <-. by eapply pending_containers.
Qed.

Lemma pending_rewire (i : nat) (p : NodeRef) (g g' : FactoryGraph) (P : list nat) :
  rewire i p g = Ok g' → pending g P → pending g' P.
Proof.
  unfold rewire. intros H HP. destruct p; try discriminate.
  apply bind_Ok in H as (unit & _ & H).
  apply bind_Ok in H as (node & _ & H).
  destruct (find _ _) as [[c| | | |]|]; try discriminate.
  eapply pending_t_takeFrom; [exact H|].
  eapply pending_containers; [reflexivity|]. by apply pending_deleteConsumer.
Qed.

Lemma pending_relink (i tc : nat) (g g' : FactoryGraph) (P : list nat) :
  relink i tc g = Ok g' → pending g P → pending g' P.
Proof.
  unfold relink. intros H HP.
  apply bind_Ok in H as (node & _ & H).
  apply bind_Ok in H as (g1 & H1 & H2).
  eapply (pending_i_takeFrom _ (TransferContainerRef tc)); [exact H2|].
  eapply (forEach_invariant (λ g, pending g P)); [|exact HP|exact H1].
  intros; by eapply pending_rewire.
Qed.

Lemma pending_handleIndustry (i : nat) (db db' : Recipes) (g g' : FactoryGraph) (P : list nat) :
  handleIndustry i db g = (db', Ok g') → pending g P → pending g' P.
Proof.
  unfold handleIndustry, resolveLinks. intros H HP.
  destruct (industries g !! i) as [node|]; [|discriminate]. simpl in H.
  destruct (findRecipe db (i_item node)); [|discriminate].
  injection H as _ H.
  destruct (_ >? 0); [|by injection H as <-].
  apply bind_Ok in H as ([tc g1] & H1 & H2).
  eapply pending_relink; [exact H2|].
  eapply pending_chooseTransferContainer; eauto.
Qed.

Lemma pending_handleIndustryLinks (db db' : Recipes) (g g' : FactoryGraph) (P : list nat) :
  handleIndustryLinks db g = (db', Ok g') → pending g P → pending g' P.
Proof.
  unfold handleIndustryLinks. generalize (seq 0 (length (industries g))) as ids.
  intros ids. revert db g.
  induction ids as [|i ids IH]; intros db g H HP; simpl in H.
  - by injection H as _ <-.
  - destruct (handleIndustry i db g) as [db1 [g1|e|]] eqn:E; try discriminate.
    eapply IH; [exact H|]. eapply pending_handleIndustry; eauto.
Qed.

Lemma pending_repair (fuel : nat) (db db' : Recipes) (requirements : list (Item * Requirement))
    (g : FactoryGraph) :
  repair fuel db requirements = (db', Ok g) → pending g [].
Proof.
  unfold repair, handleByproducts. intros H.
  destruct (synthesize fuel db requirements) as [g0|e|] eqn:E0; simpl in H; try discriminate.
  destruct (handleByproductsFrom fuel db 0 g0) as [g1|e|] eqn:E1; try discriminate.
  eapply pending_handleIndustryLinks; [exact H|].
  eapply pending_handleByproducts; [exact E1|].
  by eapply pending_synthesize.
Qed.

(** ** Byproducts *)

Lemma elem_of_indicesWhere {A : Type} (p : A -> bool) (l : list A) (i : nat) :
  i ∈ indicesWhere p l ↔ ∃ x, l !! i = Some x ∧ p x = true.
Proof.
  unfold indicesWhere. rewrite list_elem_of_filter, elem_of_seq. split.
  - intros [Hp _]. destruct (l !! i) as [x|]; simpl in Hp; [|done].
    exists x. split; [done|]. by destruct (p x).
  - intros (x & Hx & Hp). rewrite Hx. simpl. rewrite Hp.
    split; [done|]. apply lookup_lt_Some in Hx. lia.
Qed.

Lemma lastWhere_app {A : Type} (p : A -> bool) (l : list A) (x : A) :
  lastWhere p (l ++ [x]) = if p x then Some x else lastWhere p l.
Proof. unfold lastWhere. by rewrite fold_left_app. Qed.

Lemma lastWhere_Some {A : Type} (p : A -> bool) (l : list A) (x : A) :
  lastWhere p l = Some x → x ∈ l ∧ p x = true.
Proof.
  induction l as [|y l IH] using rev_ind; [discriminate|].
  rewrite lastWhere_app. destruct (p y) eqn:E.
  - intros [= <-]. split; [|done]. apply elem_of_app. right. by left.
  - intros H. destruct (IH H). split; [|done]. apply elem_of_app. by left.
Qed.

Lemma grows_refl (c : ContainerNode) : grows c c.
Proof. by split. Qed.

Lemma extends_refl (g : FactoryGraph) : extends g g.
Proof. split; [|done]. intros id c Hc. exists c. split; [done|apply grows_refl]. Qed.

Lemma extends_trans (g1 g2 g3 : FactoryGraph) :
  extends g1 g2 → extends g2 g3 → extends g1 g3.
Proof.
  intros [H1 I1] [H2 I2]. split; [|by eauto].
  intros id c Hc. destruct (H1 _ _ Hc) as (c' & Hc' & E1 & K1).
  destruct (H2 _ _ Hc') as (c'' & Hc'' & E2 & K2).
  exists c''. split; [done|]. split; [congruence|eauto].
Qed.

Lemma lookup_alter_keeps {A B : Type} (proj : A -> B) (f : A -> A) (l : list A) (i j : nat) :
  (∀ a, proj (f a) = proj a) →
  proj <$> alter f i l !! j = proj <$> l !! j.
Proof.
  intros Hf. rewrite list_lookup_alter. case_decide; [subst|done].
  destruct (l !! j); simpl; by rewrite ?Hf.
Qed.

Lemma lookup_snoc_keeps {A B : Type} (proj : A -> B) (l : list A) (x : A) (j : nat) (b : B) :
  proj <$> l !! j = Some b → proj <$> (l ++ [x]) !! j = Some b.
Proof.
  destruct (l !! j) as [a|] eqn:E; [|discriminate].
  by rewrite (lookup_app_l_Some _ _ _ _ E).
Qed.

Lemma extends_alter (f : ContainerNode -> ContainerNode) (c : nat) (g g' : FactoryGraph) :
  (∀ n, grows n (f n)) →
  containers g' = alter f c (containers g) →
  (∀ k item, itemOf g k = Some item → itemOf g' k = Some item) →
  extends g g'.
Proof.
  intros Hf E Hi. split; [|done]. intros id n Hn. rewrite E, list_lookup_alter.
  case_decide; [subst|]; rewrite Hn; simpl; eauto using grows_refl.
Qed.

Lemma extends_same_containers (g g' : FactoryGraph) :
  containers g' = containers g →
  (∀ k item, itemOf g k = Some item → itemOf g' k = Some item) →
  extends g g'.
Proof.
  intros E Hi. split; [|done]. intros id n Hn. rewrite E. eauto using grows_refl.
Qed.

Lemma extends_createContainer (item : Item) (g g' : FactoryGraph) (id : nat) :
  createContainer item g = (id, g') → extends g g'.
Proof.
  intros [= <- <-]. split.
  - intros j n Hn. exists n. split; [|apply grows_refl].
    simpl. by apply lookup_app_l_Some.
  - intros [j|j|j|j|j] it; simpl; try done. apply lookup_snoc_keeps.
Qed.

Lemma extends_createTransferUnit (item : Item) (g g' : FactoryGraph) (id : nat) :
  createTransferUnit item g = (id, g') →
  extends g g' ∧ itemOf g' (TransferRef id) = Some item.
Proof.
  intros [= <- <-]. split.
  - apply extends_same_containers; [done|].
    intros [j|j|j|j|j] it; simpl; try done. apply lookup_snoc_keeps.
  - simpl. by rewrite list_lookup_middle.
Qed.

Lemma extends_t_outputTo (t : nat) (dst : NodeRef) (g g' : FactoryGraph) :
  t_outputTo t dst g = Ok g' → extends g g'.
Proof.
  unfold t_outputTo. intros H.
  apply bind_Ok in H as (? & _ & H). destruct dst; try discriminate.
  - apply bind_Ok in H as (node & _ & H).
    destruct (canAddIncomingLinks node 1); [|discriminate]. injection H as <-.
    eapply (extends_alter (addProducer (TransferRef t))); [|reflexivity|].
    + intros n. by split.
    + intros [j|j|j|j|j] it; simpl; try done; by rewrite lookup_alter_keeps.
  - apply bind_Ok in H as (node & _ & H).
    destruct (tc_canAddIncomingLinks node 1); [|discriminate]. injection H as <-.
    apply extends_same_containers; [done|].
    intros [j|j|j|j|j] it; simpl; try done; by rewrite lookup_alter_keeps.
Qed.

Lemma extends_t_takeFrom (t c : nat) (g g' : FactoryGraph) :
  t_takeFrom t (ContainerRef c) g = Ok g' →
  extends g g'
  ∧ ∃ n', containers g' !! c = Some n' ∧ TransferRef t ∈ consumers n'.
Proof.
  unfold t_takeFrom. intros H.
  apply bind_Ok in H as (unit & _ & H).
  apply bind_Ok in H as (node & Hnode%orThrow_Ok & H).
  destruct (_ && _); [|discriminate]. injection H as <-. split.
  - eapply (extends_alter (addConsumer (TransferRef t))); [|reflexivity|].
    + intros n. split; [done|]. intros k Hk. simpl. apply elem_of_set_add. by right.
    + intros [j|j|j|j|j] it; simpl; try done; by rewrite lookup_alter_keeps.
  - exists (addConsumer (TransferRef t) node). simpl. split.
    + rewrite list_lookup_alter. case_decide; [|done]. by rewrite Hnode.
    + apply elem_of_set_add. by left.
Qed.

Lemma extends_byproductOutput (item : Item) (g g' : FactoryGraph) (o : nat) :
  byproductOutput item g = (o, g') → extends g g'.
Proof.
  unfold byproductOutput. destruct (lastWhere _ _).
  - intros [= _ <-]. apply extends_refl.
  - apply extends_createContainer.
Qed.

Lemma consumed_extends (g g' : FactoryGraph) (c c' : ContainerNode) (item : Item) :
  (∀ k it, itemOf g k = Some it → itemOf g' k = Some it) →
  grows c c' → consumed g c item → consumed g' c' item.
Proof. intros Hi [_ Hk] (k & Hin & Hit). exists k. eauto. Qed.

Lemma isConsumed_true (g : FactoryGraph) (c : ContainerNode) (item : Item) :
  isConsumed g c item = true ↔ consumed g c item.
Proof.
  unfold isConsumed, consumed. rewrite existsb_exists. split.
  - intros (k & Hin & Hk). exists k. apply list_elem_of_In in Hin.
    by apply bool_decide_eq_true in Hk.
  - intros (k & Hin & Hk). exists k. apply list_elem_of_In in Hin.
    by rewrite bool_decide_eq_true.
Qed.

(** One byproduct: afterwards it is consumed. *)
Lemma handleByproduct_consumed (c : nat) (b : Quantity) (g g' : FactoryGraph) :
  handleByproduct c b g = Ok g' →
  extends g g'
  ∧ ∃ n', containers g' !! c = Some n' ∧ consumed g' n' (q_item b).
Proof.
  unfold handleByproduct. intros H.
  apply bind_Ok in H as (node & Hnode%orThrow_Ok & H).
  destruct (isConsumed g node (q_item b)) eqn:Ec.
  { injection H as <-. split; [apply extends_refl|].
    exists node. split; [done|]. by apply isConsumed_true. }
  apply bind_Ok in H as ([t g1] & H1 & H2).
  apply extends_t_takeFrom in H2 as (Hext2 & n' & Hn' & Hin).
  assert (Hext1 : extends g g1 ∧ itemOf g1 (TransferRef t) = Some (q_item b)).
  { destruct (lastWhere _ _) as [t0|] eqn:El.
    - injection H1 as <- <-. split; [apply extends_refl|].
      apply lastWhere_Some in El as [El _].
      apply elem_of_indicesWhere in El as (u & Hu & Eu).
      simpl. rewrite Hu. simpl. f_equal. by apply bool_decide_eq_true in Eu.
    - destruct (createTransferUnit (q_item b) g) as [t0 g0] eqn:E0.
      destruct (byproductOutput (q_item b) g0) as [o g2] eqn:E2.
      apply bind_Ok in H1 as (g3 & H3 & [= <- <-]).
      apply extends_createTransferUnit in E0 as [X0 I0].
      apply extends_byproductOutput in E2.
      apply extends_t_outputTo in H3.
      split; [eauto using extends_trans|]. apply H3, E2, I0. }
  destruct Hext1 as [Hext1 Hitem]. split; [eauto using extends_trans|].
  exists n'. split; [done|]. exists (TransferRef t). split; [done|]. by apply Hext2.
Qed.

(** All byproducts of a recipe, for one container. *)
Lemma handleByproduct_all (c : nat) (bs : list Quantity) :
  ∀ (g g' : FactoryGraph),
  is_Some (containers g !! c) →
  forEach (handleByproduct c) bs g = Ok g' →
  extends g g'
  ∧ ∃ n', containers g' !! c = Some n' ∧ ∀ b, b ∈ bs → consumed g' n' (q_item b).
Proof.
  induction bs as [|b bs IH]; intros g g' [n Hn] H; simpl in H.
  - injection H as <-. split; [apply extends_refl|]. exists n. split; [done|].
    intros b Hb. by apply elem_of_nil in Hb.
  - apply bind_Ok in H as (g1 & H1 & H2).
    apply handleByproduct_consumed in H1 as (X1 & n1 & Hn1 & C1).
    apply IH in H2 as (X2 & n2 & Hn2 & C2); [|eauto].
    split; [eauto using extends_trans|]. exists n2. split; [done|].
    intros b' [->|Hb']%elem_of_cons; [|eauto].
    destruct X2 as [X2 I2]. destruct (X2 _ _ Hn1) as (n2' & Hn2' & Hg).
    assert (n2' = n2) as -> by congruence.
    eapply consumed_extends; eauto.
Qed.

Lemma handled_extends (db : Recipes) (g g' : FactoryGraph) (id : nat) :
  is_Some (containers g !! id) → extends g g' → handled db g id → handled db g' id.
Proof.
  intros [c Hc] [X I] H c' Hc' Hore.
  destruct (X _ _ Hc) as (c'' & Hc'' & Hg). assert (c'' = c') as -> by congruence.
  destruct Hg as [Eitem Hk]. rewrite Eitem in *.
  destruct (H c Hc Hore) as (r & Hr & Hb). exists r. split; [done|].
  intros b Hin. eapply consumed_extends; [exact I|by split|eauto].
Qed.

Lemma handleByproductsFrom_handled (fuel : nat) (db : Recipes) :
  ∀ (idx : nat) (g g' : FactoryGraph),
  handleByproductsFrom fuel db idx g = Ok g' →
  (∀ j, (j < idx)%nat → handled db g j) →
  (∀ j, handled db g' j) ∧ (length (containers g') <= idx + fuel)%nat.
Proof.
  induction fuel as [|fuel IH]; intros idx g g' H Hinv; simpl in H;
    destruct (containers g !! idx) as [c|] eqn:Ec; try discriminate.
  - injection H as <-. apply lookup_ge_None in Ec. split; [|lia].
    intros j. destruct (decide (j < idx)%nat); [eauto|].
    intros c' Hc'. apply lookup_lt_Some in Hc'. lia.
  - assert (Hstep : ∀ g1, extends g g1 → handled db g1 idx →
                          ∀ j, (j < S idx)%nat → handled db g1 j).
    { intros g1 X Hidx j Hj. destruct (decide (j = idx)) as [->|]; [done|].
      eapply handled_extends; [|exact X|apply Hinv; lia].
      apply lookup_lt_is_Some. apply lookup_lt_Some in Ec. lia. }
    destruct (isOre (c_item c)) eqn:Eore.
    + destruct (IH _ _ _ H) as [? ?]; [|split; [done|lia]].
      apply Hstep; [apply extends_refl|].
      intros c' Hc'. assert (c' = c) as -> by congruence. congruence.
    + apply bind_Ok in H as (recipe & Hr%orThrow_Ok & H).
      apply bind_Ok in H as (g1 & H1 & H2).
      apply handleByproduct_all in H1 as (X & n1 & Hn1 & C1); [|eauto].
      destruct (IH _ _ _ H2) as [? ?]; [|split; [done|lia]].
      apply Hstep; [done|].
      intros c' Hc' _. assert (c' = n1) as -> by congruence.
      destruct X as [X _]. destruct (X _ _ Ec) as (n1' & Hn1' & Eitem & _).
      assert (n1' = n1) as -> by congruence. rewrite Eitem. eauto.
  - injection H as <-. apply lookup_ge_None in Ec. split; [|lia].
    intros j. destruct (decide (j < idx)%nat); [eauto|].
    intros c' Hc'. apply lookup_lt_Some in Hc'. lia.
Qed.

(** On a graph whose byproducts are all consumed the pass changes nothing. *)
Lemma handleByproductsFrom_noop (fuel : nat) (db : Recipes) (g : FactoryGraph) :
  (∀ j, handled db g j) →
  ∀ idx, (length (containers g) <= idx + fuel)%nat →
  handleByproductsFrom fuel db idx g = Ok g.
Proof.
  intros Hall. induction fuel as [|fuel IH]; intros idx Hlen; simpl;
    destruct (containers g !! idx) as [c|] eqn:Ec; try done.
  - apply lookup_lt_Some in Ec. lia.
  - destruct (isOre (c_item c)) eqn:Eore; [apply IH; lia|].
    destruct (Hall idx c Ec Eore) as (r & Hr & Hb). rewrite Hr. simpl.
    assert (Hnoop : ∀ bs, (∀ b, b ∈ bs → consumed g c (q_item b)) →
                          forEach (handleByproduct idx) bs g = Ok g).
    { induction bs as [|b bs IHbs]; intros Hbs; simpl; [done|].
      unfold handleByproduct at 1. rewrite Ec. simpl.
      rewrite (proj2 (isConsumed_true g c (q_item b))) by (apply Hbs; by left).
      simpl. apply IHbs. intros b' Hb'. apply Hbs. by right. }
    rewrite (Hnoop _ Hb). simpl. apply IH. lia.
Qed.

(** ** Which transfer unit and which container the byproduct pass picks *)

Lemma isLastWhere_lastWhere {A : Type} (p : A -> bool) (l : list A) (x : A) :
  isLastWhere p l x → lastWhere p l = Some x.
Proof.
  intros (l1 & l2 & -> & Hp & Hall). induction l2 as [|y l2 IH] using rev_ind.
  - by rewrite lastWhere_app, Hp.
  - apply Forall_app in Hall as [Hall Hy]. rewrite Forall_singleton in Hy.
    replace (l1 ++ x :: l2 ++ [y]) with ((l1 ++ x :: l2) ++ [y])
      by (by rewrite <- app_assoc).
    rewrite lastWhere_app, Hy. by apply IH.
Qed.

Lemma lastWhere_None {A : Type} (p : A -> bool) (l : list A) :
  Forall (λ y, p y = false) l → lastWhere p l = None.
Proof.
  induction l as [|y l IH] using rev_ind; [done|].
  intros [Hall Hy]%Forall_app. rewrite Forall_singleton in Hy.
  rewrite lastWhere_app, Hy. by apply IH.
Qed.

Lemma t_takeFrom_Ok (t c : nat) (g g' : FactoryGraph) :
  t_takeFrom t (ContainerRef c) g = Ok g' →
  g' = withTransferUnits (alter (t_addInput (ContainerRef c)) t)
         (withContainers (alter (addConsumer (TransferRef t)) c) g).
Proof.
  unfold t_takeFrom. intros H.
  apply bind_Ok in H as (unit & _ & H). apply bind_Ok in H as (node & _ & H).
  destruct (_ && _); [|discriminate]. by injection H as <-.
Qed.

Lemma t_outputTo_container_Ok (t c : nat) (g g' : FactoryGraph) :
  t_outputTo t (ContainerRef c) g = Ok g' →
  g' = withTransferUnits (alter (t_setOutput (ContainerRef c)) t)
         (withContainers (alter (addProducer (TransferRef t)) c) g).
Proof.
  unfold t_outputTo. intros H.
  apply bind_Ok in H as (unit & _ & H). apply bind_Ok in H as (node & _ & H).
  destruct (canAddIncomingLinks node 1); [|discriminate]. by injection H as <-.
Qed.

Lemma reusesTransferUnit_last : reusesTransferUnit (@isLastWhere nat).
Proof.
  intros g g' c node b t Hnode Hcons H Hpick. unfold handleByproduct in H.
  rewrite Hnode in H. simpl in H. rewrite Hcons in H.
  rewrite (isLastWhere_lastWhere _ _ _ Hpick) in H. simpl in H.
  destruct (extends_t_takeFrom _ _ _ _ H) as (_ & n' & Hn' & Hin).
  exists n'. repeat split; [done|done|].
  apply t_takeFrom_Ok in H as ->. simpl. apply length_alter.
Qed.

Lemma wiresNewTransferUnit_last : wiresNewTransferUnit (@isLastWhere nat).
Proof.
  intros g g' c node b o Hnode Hcons H Hnone Hpick. unfold handleByproduct in H.
  rewrite Hnode in H. simpl in H. rewrite Hcons in H.
  rewrite (lastWhere_None _ _ Hnone) in H.
  unfold createTransferUnit, byproductOutput in H.
  change (lastWhere _ _) with
    (lastWhere (containerHasHeadroom g) (getContainers g (q_item b))) in H.
  rewrite (isLastWhere_lastWhere _ _ _ Hpick) in H.
  apply bind_Ok in H as ([t g1] & H1 & H2).
  apply bind_Ok in H1 as (g3 & H3 & [= <- <-]).
  apply t_outputTo_container_Ok in H3 as ->.
  apply t_takeFrom_Ok in H2 as ->. simpl.
  eexists. rewrite !list_lookup_alter, !decide_True by done.
  rewrite list_lookup_middle by done. simpl. eauto.
Qed.

(** ** Moving links to a transfer container *)

Lemma find_Some_elem {A : Type} (p : A -> bool) (l : list A) (x : A) :
  find p l = Some x → x ∈ l ∧ p x = true.
Proof. intros H. apply find_some in H as [H ?]. by apply list_elem_of_In in H. Qed.

Lemma find_None_elem {A : Type} (p : A -> bool) (l : list A) :
  find p l = None ↔ ∀ x, x ∈ l → p x = false.
Proof.
  split.
  - intros H x Hx. apply list_elem_of_In in Hx. by eapply find_none in H.
  - intros H. induction l as [|y l IH]; simpl; [done|].
    rewrite (H y) by (by left). apply IH. intros x Hx. apply H. by right.
Qed.




Lemma elem_of_set_delete (x y : NodeRef) (s : list NodeRef) :
  y ∈ set_delete x s ↔ y ≠ x ∧ y ∈ s.
Proof. unfold set_delete. by rewrite list_elem_of_filter. Qed.


Lemma find_ext_eq {A : Type} (p q : A -> bool) (l : list A) :
  (∀ x, p x = q x) → find p l = find q l.
Proof. intros H. induction l as [|y l IH]; simpl; [done|]. by rewrite H, IH. Qed.












(** ** The recursion budget *)

Lemma forEach_refines {A S : Type} (body body' : A -> S -> Result S) (l : list A) :
  (∀ a s s', body a s = Ok s' → body' a s = Ok s') →
  ∀ s s', forEach body l s = Ok s' → forEach body' l s = Ok s'.
Proof.
  intros Hb. induction l as [|a l IH]; intros s s' H; simpl in *; [done|].
  apply bind_Ok in H as (s1 & H1 & H2). rewrite (Hb _ _ _ H1). simpl. by apply IH.
Qed.

Lemma buildIngredients_refines
    (rec rec' : Item -> Q -> FactoryGraph -> Result (list nat * FactoryGraph))
    (i : nat) (recipe : Recipe) (g g' : FactoryGraph) :
  refines rec rec' →
  buildIngredients rec i recipe g = Ok g' → buildIngredients rec' i recipe g = Ok g'.
Proof.
  intros Hrec. unfold buildIngredients. apply forEach_refines.
  intros ingredient s s' H. apply bind_Ok in H as ([ins g1] & H1 & H2).
  by rewrite (Hrec _ _ _ _ H1).
Qed.

Lemma addIndustry_refines
    (rec rec' : Item -> Q -> FactoryGraph -> Result (list nat * FactoryGraph))
    (item : Item) (recipe : Recipe) (outs : list nat) (i : nat) (g g' : FactoryGraph) :
  refines rec rec' →
  addIndustry rec item recipe outs i g = Ok g' →
  addIndustry rec' item recipe outs i g = Ok g'.
Proof.
  intros Hrec. unfold addIndustry.
  destruct (createIndustry item g) as [industry g1]. intros H.
  apply bind_Ok in H as (out & -> & H). cbn [bind].
  apply bind_Ok in H as (g2 & -> & H). cbn [bind].
  by eapply buildIngredients_refines.
Qed.

Lemma produce_more_fuel (db : Recipes) (fuel : nat) :
  ∀ fuel', (fuel <= fuel')%nat → refines (produce fuel db) (produce fuel' db).
Proof.
  induction fuel as [|fuel IH]; intros fuel' Hle item rate g r H; [discriminate|].
  destruct fuel' as [|fuel']; [lia|]. simpl in *.
  destruct (isOre item); [done|].
  destruct (find _ _); [done|].
  apply bind_Ok in H as (recipe & -> & H). simpl.
  destruct (match existingOutput db rate recipe g (getContainers g item) with
            | Some (container, n) => ([container], n, g)
            | None => newOutputs item rate recipe g
            end) as [[outs n] g0].
  apply bind_Ok in H as (g1 & H1 & <-).
  erewrite forEach_refines; [reflexivity| |exact H1].
  intros i s s'. apply addIndustry_refines. apply IH. lia.
Qed.

Lemma synthesize_more_fuel (db : Recipes) (requirements : list (Item * Requirement))
    (fuel fuel' : nat) (g : FactoryGraph) :
  (fuel <= fuel')%nat →
  synthesize fuel db requirements = Ok g → synthesize fuel' db requirements = Ok g.
Proof.
  intros Hle. unfold synthesize. apply forEach_refines.
  intros [item [n m]] s s'. unfold addRequirement. intros H.
  apply bind_Ok in H as (recipe & -> & H). cbn [bind].
  destruct (createOutput _ _ _ s) as [o g1].
  eapply forEach_refines; [|exact H].
  intros k s1 s2 Hb. cbv beta in *.
  destruct (createIndustry item s1) as [industry g2].
  apply bind_Ok in Hb as (g3 & -> & Hb). cbn [bind].
  eapply buildIngredients_refines; [|exact Hb]. by apply produce_more_fuel.
Qed.

Lemma handleByproducts_more_fuel (db : Recipes) (fuel : nat) :
  ∀ fuel' idx g g', (fuel <= fuel')%nat →
  handleByproductsFrom fuel db idx g = Ok g' →
  handleByproductsFrom fuel' db idx g = Ok g'.
Proof.
  induction fuel as [|fuel IH]; intros fuel' idx g g' Hle H.
  - simpl in H. destruct (containers g !! idx) eqn:E; [discriminate|].
    destruct fuel'; simpl; by rewrite E.
  - destruct fuel' as [|fuel']; [lia|]. simpl in *.
    destruct (containers g !! idx) as [c|]; [|done].
    destruct (isOre (c_item c)); [apply IH; [lia|done]|].
    apply bind_Ok in H as (recipe & -> & H). cbn [bind].
    apply bind_Ok in H as (g1 & -> & H). cbn [bind]. apply IH; [lia|done].
Qed.

Lemma repair_more_fuel (db db' : Recipes) (requirements : list (Item * Requirement))
    (fuel fuel' : nat) (g : FactoryGraph) :
  (fuel <= fuel')%nat →
  repair fuel db requirements = (db', Ok g) → repair fuel' db requirements = (db', Ok g).
Proof.
  intros Hle. unfold repair, handleByproducts.
  destruct (synthesize fuel db requirements) as [g0|e|] eqn:E0; simpl; try discriminate.
  rewrite (synthesize_more_fuel _ _ _ _ _ Hle E0). simpl.
  destruct (handleByproductsFrom fuel db 0 g0) as [g1|e|] eqn:E1; try discriminate.
  by rewrite (handleByproducts_more_fuel _ _ _ _ _ _ Hle E1).
Qed.

Lemma buildFactory_more_fuel (db db' : Recipes) (requirements : list (Item * Requirement))
    (fuel fuel' : nat) (g : FactoryGraph) :
  (fuel <= fuel')%nat →
  buildFactory fuel db requirements = (db', Ok g) →
  buildFactory fuel' db requirements = (db', Ok g).
Proof.
  intros Hle. unfold buildFactory.
  destruct (repair fuel db requirements) as [db1 [g1|e|]] eqn:E; simpl; try discriminate.
  rewrite (repair_more_fuel _ _ _ _ _ _ Hle E). simpl.
  destruct (sanityCheck db1 g1) as [[]|e|]; simpl; try discriminate. done.
Qed.

(** ** Split containers: what the loop of lines 75-80 creates *)

Lemma Math_ceil_div (a b : Z) :
  0 < b → Math_ceil (inject_Z a / inject_Z b) = - ((- a) / b).
Proof.
  intros Hb. destruct b as [|p|p]; try lia.
  unfold Math_ceil, Qceiling, Qfloor, Qdiv, Qinv, Qmult, Qopp, inject_Z. simpl.
  by rewrite Z.mul_1_r.
Qed.

Lemma ceil_div_bounds (a b : Z) :
  0 < b → (- ((- a) / b) - 1) * b < a <= - ((- a) / b) * b.
Proof.
  intros Hb. pose proof (Z.div_mod (- a) b ltac:(lia)).
  pose proof (Z.mod_pos_bound (- a) b Hb). nia.
Qed.

Lemma createSplitContainers_shares (n : nat) (item : Item) (total even : Z) :
  ∀ (remaining : Z) (g : FactoryGraph),
  createSplitContainers n item total even remaining g
  = (seq (length (containers g)) n,
     withContainers
       (λ l, l ++ map (λ s, mkContainer item (inject_Z s / inject_Z total)%Q true [] [])
                      (splitShares n even remaining)) g).
Proof.
  induction n as [|n IH]; intros remaining g; cbn [createSplitContainers splitShares].
  - destruct g. unfold withContainers. simpl. by rewrite app_nil_r.
  - unfold createSplitContainer. rewrite IH. destruct g. unfold withContainers. simpl.
    rewrite length_app, Nat.add_1_r. f_equal. f_equal. by rewrite <- app_assoc.
Qed.

Lemma splitShares_sum (n : nat) (even : Z) :
  ∀ remaining,
  0 < even → 0 < remaining →
  (Z.of_nat n - 1) * even < remaining <= Z.of_nat n * even →
  length (splitShares n even remaining) = n
  ∧ Zsum (splitShares n even remaining) = remaining
  ∧ Forall (λ s, 0 < s <= even) (splitShares n even remaining).
Proof.
  induction n as [|n IH]; intros remaining Heven Hpos Hrem.
  - simpl in *. lia.
  - cbn [splitShares]. destruct n as [|n].
    + simpl in *. rewrite Z.min_r by lia. split; [done|]. split; [lia|].
      constructor; [lia|constructor].
    + rewrite Z.min_l by lia.
      destruct (IH (remaining + - even)) as (Hlen & Hsum & Hall); [done|lia|lia|].
      split; [simpl in *; lia|]. split.
      * change (even + Zsum (splitShares (S n) even (remaining + - even)) = remaining).
        rewrite Hsum. lia.
      * constructor; [lia|done].
Qed.

Lemma Qsum_fractions (l : list Z) (total : Q) :
  (Qsum (map (λ s, inject_Z s / total) l) == inject_Z (Zsum l) / total)%Q.
Proof.
  induction l as [|s l IH]; simpl.
  - unfold Qdiv. ring.
  - rewrite IH, inject_Z_plus. unfold Qdiv. ring.
Qed.

(** What holds of the split containers [produce] creates for [n] industries,
    [n] above the limit: there are [ceil(n / MAX_CONTAINER_LINKS)] of them,
    each share is positive and at most the limit, the shares sum to [n], a
    split fraction is a share divided by [n], and the fractions sum to 1. *)
Lemma newOutputs_split_shares (item : Item) (rate : Q) (recipe : Recipe) (g : FactoryGraph) :
  let n := Math_ceil (rate / (quantity (product recipe) / time recipe))%Q in
  0 < MAX_CONTAINER_LINKS →
  MAX_CONTAINER_LINKS < n →
  ∃ shares,
    newOutputs item rate recipe g
    = (seq (length (containers g)) (length shares), n,
       withContainers
         (λ l, l ++ map (λ s, mkContainer item (inject_Z s / inject_Z n)%Q true [] []) shares) g)
    ∧ Z.of_nat (length shares) = Math_ceil (inject_Z n / inject_Z MAX_CONTAINER_LINKS)%Q
    ∧ Forall (λ s, 0 < s <= MAX_CONTAINER_LINKS) shares
    ∧ Zsum shares = n
    ∧ (Qsum (map (λ s, inject_Z s / inject_Z n) shares) == 1)%Q.
Proof.
  intros n Hmax Hn. unfold newOutputs. fold n.
  replace (n >? MAX_CONTAINER_LINKS) with true by (symmetry; apply Z.gtb_lt; lia).
  set (k := Math_ceil (inject_Z n / inject_Z MAX_CONTAINER_LINKS)%Q).
  set (e := Math_ceil (inject_Z n / inject_Z k)%Q).
  assert (Hk : (k - 1) * MAX_CONTAINER_LINKS < n <= k * MAX_CONTAINER_LINKS).
  { unfold k. rewrite Math_ceil_div by done. by apply ceil_div_bounds. }
  assert (Hkpos : 0 < k) by nia.
  assert (He : (e - 1) * k < n <= e * k).
  { unfold e. rewrite Math_ceil_div by done. by apply ceil_div_bounds. }
  assert (Helt : 0 < e <= MAX_CONTAINER_LINKS) by nia.
  destruct (splitShares_sum (Z.to_nat k) e n) as (Hlen & Hsum & Hall); [lia|lia|nia|].
  exists (splitShares (Z.to_nat k) e n).
  rewrite createSplitContainers_shares, Hlen. split; [done|]. split; [lia|].
  split; [|split; [done|]].
  - eapply Forall_impl; [exact Hall|]. simpl. intros s ?. lia.
  - rewrite Qsum_fractions, Hsum. unfold Qdiv. apply Qmult_inv_r.
    intros E. apply (inject_Z_injective n 0) in E. lia.
Qed.



(** ** Steps that keep the graph consistent *)

Lemma lookup_snoc_Some {A : Type} (l : list A) (y x : A) (j : nat) :
  (l ++ [y]) !! j = Some x → l !! j = Some x ∨ x = y.
Proof.
  intros [H|[_ H]]%lookup_app_Some; [by left|].
  apply list_lookup_singleton_Some in H as [_ <-]. by right.
Qed.

Lemma lookup_alter_Some {A : Type} (f : A -> A) (l : list A) (i j : nat) (x' : A) :
  alter f i l !! j = Some x' → ∃ x, l !! j = Some x ∧ (x' = x ∨ x' = f x).
Proof.
  rewrite list_lookup_alter. case_decide; [subst|by eauto].
  destruct (l !! j) as [x|]; [|discriminate]. intros [= <-]. eauto.
Qed.

Ltac kept :=
  let j := fresh "j" in
  let x' := fresh "x'" in
  let Hx := fresh "Hx" in
  intros j x' Hx; simpl in Hx;
  first
    [ right; eexists; split; [exact Hx|done]
    | apply lookup_snoc_Some in Hx as [Hx| ->];
      [right; eexists; split; [exact Hx|done] | by left]
    | let x := fresh "x" in
      apply lookup_alter_Some in Hx as (x & Hx & [-> | ->]);
      right; eexists; (split; [exact Hx|done]) ].

Ltac keeps_items :=
  let j := fresh "j" in
  let it := fresh "it" in
  intros [j|j|j|j|j] it; simpl; try done;
  first [apply lookup_snoc_keeps | by rewrite ?lookup_alter_keeps].

Lemma extends_snoc (g g' : FactoryGraph) (n : ContainerNode) :
  containers g' = containers g ++ [n] →
  (∀ k item, itemOf g k = Some item → itemOf g' k = Some item) →
  extends g g'.
Proof.
  intros E Hi. split; [|done]. intros j c Hc. exists c. split; [|apply grows_refl].
  rewrite E. by apply lookup_app_l_Some.
Qed.

Lemma quiet_createContainer (item : Item) (g g' : FactoryGraph) (id : nat) :
  createContainer item g = (id, g') → quiet g g'.
Proof.
  intros H. split; [by eapply extends_createContainer|].
  injection H as _ <-. repeat split; kept.
Qed.

Lemma quiet_createSplitContainer (item : Item) (fraction : Q) (g g' : FactoryGraph) (id : nat) :
  createSplitContainer item fraction g = (id, g') → quiet g g'.
Proof.
  intros [= _ <-]. split; [|repeat split; kept].
  eapply extends_snoc; [reflexivity|]. keeps_items.
Qed.

Lemma quiet_createIndustry (item : Item) (g g' : FactoryGraph) (id : nat) :
  createIndustry item g = (id, g') → quiet g g'.
Proof.
  intros [= _ <-]. split; [|repeat split; kept].
  apply extends_same_containers; [done|]. keeps_items.
Qed.

Lemma quiet_createTransferUnit (item : Item) (g g' : FactoryGraph) (id : nat) :
  createTransferUnit item g = (id, g') → quiet g g'.
Proof.
  intros H. split; [by eapply extends_createTransferUnit|].
  injection H as _ <-. repeat split; kept.
Qed.

Lemma quiet_createTransferContainer (its : list Item) (g g' : FactoryGraph) (id : nat) :
  createTransferContainer its g = (id, g') → quiet g g'.
Proof.
  intros [= _ <-]. split; [|repeat split; kept].
  apply extends_same_containers; [done|]. keeps_items.
Qed.

Lemma quiet_createOutput (item : Item) (rate m : Q) (g g' : FactoryGraph) (id : nat) :
  createOutput item rate m g = (id, g') → quiet g g'.
Proof.
  intros [= _ <-]. split; [|repeat split; kept].
  apply extends_same_containers; [done|]. keeps_items.
Qed.

Lemma quiet_i_outputTo (i : nat) (dst : NodeRef) (g g' : FactoryGraph) :
  i_outputTo i dst g = Ok g' → quiet g g'.
Proof.
  unfold i_outputTo. intros H.
  apply bind_Ok in H as (? & _ & H). destruct dst; try discriminate.
  - apply bind_Ok in H as (node & _ & H).
    destruct (canAddIncomingLinks node 1); [|discriminate]. injection H as <-.
    split; [|repeat split; kept].
    eapply (extends_alter (addProducer (IndustryRef i))); [|reflexivity|keeps_items].
    intros n. by split.
  - apply bind_Ok in H as (? & _ & [= <-]).
    split; [|repeat split; kept].
    apply extends_same_containers; [done|]. keeps_items.
Qed.

Lemma quiet_t_outputTo (t c : nat) (g g' : FactoryGraph) :
  t_outputTo t (ContainerRef c) g = Ok g' → quiet g g'.
Proof.
  intros H. split; [by eapply extends_t_outputTo|].
  apply t_outputTo_container_Ok in H as ->. repeat split; kept.
Qed.

(** A property that the quiet steps and the two [takeFrom] keep is kept by
    [produce], by the synthesis and by [handleByproducts]. *)
Section Passes.

Variable I : FactoryGraph -> Prop.
Hypothesis I_quiet : ∀ g g', quiet g g' → I g → I g'.
Hypothesis I_i_takeFrom :
  ∀ i c g g', i_takeFrom i (ContainerRef c) g = Ok g' → I g → I g'.
Hypothesis I_t_takeFrom :
  ∀ t c g g', t_takeFrom t (ContainerRef c) g = Ok g' → I g → I g'.

Lemma kept_createSplitContainers (n : nat) (item : Item) (total even : Z) :
  ∀ (remaining : Z) (g g' : FactoryGraph) (outs : list nat),
  createSplitContainers n item total even remaining g = (outs, g') → I g → I g'.
Proof.
  induction n as [|n IH]; intros remaining g g' outs H Hg;
    cbn [createSplitContainers] in H.
  - by injection H as _ <-.
  - destruct (createSplitContainer _ _ g) as [c g1] eqn:E1.
    destruct (createSplitContainers n _ _ _ _ g1) as [cs g2] eqn:E2.
    injection H as _ <-. eapply IH; [exact E2|].
    eapply I_quiet; [|exact Hg]. by eapply quiet_createSplitContainer.
Qed.

Lemma kept_newOutputs (item : Item) (rate : Q) (recipe : Recipe)
    (g g' : FactoryGraph) (outs : list nat) (n : Z) :
  newOutputs item rate recipe g = (outs, n, g') → I g → I g'.
Proof.
  unfold newOutputs. intros H Hg. destruct (_ >? _).
  - destruct (createSplitContainers _ _ _ _ _ g) as [cs g1] eqn:E.
    injection H as _ _ <-. by eapply kept_createSplitContainers.
  - destruct (createContainer item g) as [c g1] eqn:E.
    injection H as _ _ <-. eapply I_quiet; [|exact Hg]. by eapply quiet_createContainer.
Qed.

Lemma kept_buildIngredients
    (rec : Item -> Q -> FactoryGraph -> Result (list nat * FactoryGraph))
    (i : nat) (recipe : Recipe) (g g' : FactoryGraph) :
  (∀ item rate s s' outs, rec item rate s = Ok (outs, s') → I s → I s') →
  buildIngredients rec i recipe g = Ok g' → I g → I g'.
Proof.
  intros Hrec H Hg. unfold buildIngredients in H.
  eapply (forEach_invariant I); [|exact Hg|exact H].
  intros ingredient s s' _ Hs Hbody. simpl in Hbody.
  apply bind_Ok in Hbody as ([ins g1] & H1 & H2).
  eapply (forEach_invariant I); [| |exact H2]; [|by eapply Hrec].
  intros c s1 s2 _ Hs1 Hb. cbv beta in Hb. by eapply I_i_takeFrom.
Qed.

Lemma kept_addIndustry
    (rec : Item -> Q -> FactoryGraph -> Result (list nat * FactoryGraph))
    (item : Item) (recipe : Recipe) (outs : list nat) (i : nat) (g g' : FactoryGraph) :
  (∀ item rate s s' outs, rec item rate s = Ok (outs, s') → I s → I s') →
  addIndustry rec item recipe outs i g = Ok g' → I g → I g'.
Proof.
  intros Hrec H Hg. unfold addIndustry in H.
  destruct (createIndustry item g) as [industry g1] eqn:E1.
  apply bind_Ok in H as (out & _ & H).
  apply bind_Ok in H as (g2 & H2 & H3).
  eapply kept_buildIngredients; [exact Hrec|exact H3|].
  eapply I_quiet; [by eapply quiet_i_outputTo|].
  eapply I_quiet; [by eapply quiet_createIndustry|done].
Qed.

Lemma kept_produce (fuel : nat) (db : Recipes) :
  ∀ item rate g g' outs, produce fuel db item rate g = Ok (outs, g') → I g → I g'.
Proof.
  induction fuel as [|fuel IH]; intros item rate g g' outs H Hg; simpl in H; [discriminate|].
  destruct (isOre item).
  { destruct (find _ _) as [c|].
    - by injection H as _ <-.
    - destruct (createContainer item g) as [c g1] eqn:E. injection H as _ <-.
      eapply I_quiet; [by eapply quiet_createContainer|done]. }
  destruct (find _ _) as [c|]; [by injection H as _ <-|].
  apply bind_Ok in H as (recipe & _ & H).
  destruct (existingOutput db rate recipe g (getContainers g item)) as [[c n]|] eqn:E.
  - apply bind_Ok in H as (g1 & H1 & [= _ <-]).
    eapply (forEach_invariant I); [|exact Hg|exact H1].
    intros; eapply kept_addIndustry; eauto.
  - destruct (newOutputs item rate recipe g) as [[outs0 n] g0] eqn:E0.
    apply bind_Ok in H as (g1 & H1 & [= _ <-]).
    eapply (forEach_invariant I); [| |exact H1].
    + intros; eapply kept_addIndustry; eauto.
    + by eapply kept_newOutputs.
Qed.

Lemma kept_synthesize (fuel : nat) (db : Recipes) (requirements : list (Item * Requirement))
    (g : FactoryGraph) :
  I emptyFactory → synthesize fuel db requirements = Ok g → I g.
Proof.
  unfold synthesize. intros H0 H.
  eapply (forEach_invariant I); [|exact H0|exact H].
  intros [item [n m]] s s' _ Hs Hbody. unfold addRequirement in Hbody.
  apply bind_Ok in Hbody as (recipe & _ & Hbody).
  destruct (createOutput _ _ _ s) as [o g1] eqn:E1.
  eapply (forEach_invariant I); [| |exact Hbody].
  - intros k s1 s2 _ Hs1 Hb. cbv beta in Hb.
    destruct (createIndustry item s1) as [industry g2] eqn:E2.
    apply bind_Ok in Hb as (g3 & H3 & H4).
    eapply kept_buildIngredients; [apply kept_produce|exact H4|].
    eapply I_quiet; [by eapply quiet_i_outputTo|].
    eapply I_quiet; [by eapply quiet_createIndustry|done].
  - eapply I_quiet; [by eapply quiet_createOutput|done].
Qed.

Lemma kept_handleByproduct (c : nat) (b : Quantity) (g g' : FactoryGraph) :
  handleByproduct c b g = Ok g' → I g → I g'.
Proof.
  unfold handleByproduct. intros H Hg.
  apply bind_Ok in H as (node & _ & H).
  destruct (isConsumed g node (q_item b)); [by injection H as <-|].
  apply bind_Ok in H as ([t g1] & H1 & H2).
  eapply I_t_takeFrom; [exact H2|].
  destruct (lastWhere _ _).
  - by injection H1 as _ <-.
  - destruct (createTransferUnit (q_item b) g) as [t0 g0] eqn:E0.
    destruct (byproductOutput (q_item b) g0) as [o g2] eqn:E2.
    apply bind_Ok in H1 as (g3 & H3 & [= _ <-]).
    eapply I_quiet; [by eapply quiet_t_outputTo|].
    assert (I g0) by (eapply I_quiet; [by eapply quiet_createTransferUnit|done]).
    unfold byproductOutput in E2. destruct (lastWhere _ _).
    + by injection E2 as _ <-.
    + eapply I_quiet; [by eapply quiet_createContainer|done].
Qed.

Lemma kept_handleByproducts (fuel : nat) (db : Recipes) :
  ∀ (idx : nat) (g g' : FactoryGraph),
  handleByproductsFrom fuel db idx g = Ok g' → I g → I g'.
Proof.
  induction fuel as [|fuel IH]; intros idx g g' H Hg; simpl in H;
    destruct (containers g !! idx) as [c|]; try discriminate;
    try (by injection H as <-).
  destruct (isOre (c_item c)); [by eapply IH|].
  apply bind_Ok in H as (recipe & _ & H).
  apply bind_Ok in H as (g1 & H1 & H2).
  eapply IH; [exact H2|].
  eapply (forEach_invariant I); [|exact Hg|exact H1].
  intros; by eapply kept_handleByproduct.
Qed.

End Passes.

(** [consistent] is kept by every step of the passes. *)
Lemma NoDup_set_add (x : NodeRef) (s : list NodeRef) : NoDup s → NoDup (set_add x s).
Proof.
  intros H. unfold set_add. case_bool_decide as E; [done|].
  apply NoDup_app. split; [done|]. split; [|apply NoDup_singleton].
  intros y Hy ->%list_elem_of_singleton. done.
Qed.

Lemma length_set_add (x : NodeRef) (s : list NodeRef) :
  (length (set_add x s) <= S (length s))%nat.
Proof. unfold set_add. case_bool_decide; rewrite ?length_app; simpl; lia. Qed.

Lemma NoDup_set_delete (x : NodeRef) (s : list NodeRef) : NoDup s → NoDup (set_delete x s).
Proof. apply NoDup_filter. Qed.

Lemma length_set_delete (x : NodeRef) (s : list NodeRef) :
  (length (set_delete x s) <= length s)%nat.
Proof. apply length_filter. Qed.

Lemma canAddOutgoingLinks_fewer (n n' : ContainerNode) (k k' : Z) :
  isSplit n' = isSplit n →
  outgoingLinkCount n' + k' <= outgoingLinkCount n + k →
  canAddOutgoingLinks n k = true → canAddOutgoingLinks n' k' = true.
Proof.
  unfold canAddOutgoingLinks. intros -> Hle. destruct (isSplit n);
    rewrite !Z.leb_le; lia.
Qed.

Lemma distinctUnits_kept (g g' : FactoryGraph) :
  (∀ id tc', transferContainers g' !! id = Some tc' →
     tc_producers tc' = []
     ∨ ∃ tc, transferContainers g !! id = Some tc ∧ tc_producers tc' = tc_producers tc) →
  (∀ k item, itemOf g k = Some item → itemOf g' k = Some item) →
  distinctUnits g → distinctUnits g'.
Proof.
  intros Htc I D id tc' Htc'. destruct (Htc _ _ Htc') as [E|(tc & Htc0 & E)]; rewrite E.
  { split; [constructor|]. intros p Hp. by apply elem_of_nil in Hp. }
  destruct (D _ _ Htc0) as [Hnd Hvalid].
  assert (Hitems : ∀ p, p ∈ tc_producers tc →
                        itemOf g' p = itemOf g p ∧ is_Some (itemOf g' p)).
  { intros p Hp. destruct (Hvalid p Hp) as (t & -> & [u Hu]).
    assert (itemOf g (TransferRef t) = Some (t_item u)) as Eg by (simpl; by rewrite Hu).
    rewrite Eg, (I _ _ Eg). eauto. }
  split.
  - replace (itemOf g' <$> tc_producers tc) with (itemOf g <$> tc_producers tc); [done|].
    apply list_fmap_ext. intros j p Hj. symmetry. apply Hitems.
    by eapply list_elem_of_lookup_2.
  - intros p Hp. destruct (Hvalid p Hp) as (t & -> & _). exists t. split; [done|].
    destruct (Hitems _ Hp) as [_ [it Hit]]. simpl in Hit.
    destruct (transferUnits g' !! t); [eauto|discriminate].
Qed.

Lemma capacitiesKept_kept (g g' : FactoryGraph) :
  0 <= MAX_CONTAINER_LINKS →
  (∀ c n', containers g' !! c = Some n' →
     consumers n' = []
     ∨ ∃ n, containers g !! c = Some n ∧ isSplit n' = isSplit n
            ∧ NoDup (consumers n')
            ∧ (canAddOutgoingLinks n 0 = true → canAddOutgoingLinks n' 0 = true)) →
  capacitiesKept g → capacitiesKept g'.
Proof.
  intros Hmax Hc C c n' Hn'. destruct (Hc _ _ Hn') as [E|(n & Hn & Es & Hnd & Hcap)].
  - rewrite E. split; [constructor|].
    unfold canAddOutgoingLinks, outgoingLinkCount. rewrite E. simpl.
    destruct (isSplit n'); apply Z.leb_le; lia.
  - split; [done|]. apply Hcap. by destruct (C _ _ Hn).
Qed.

Lemma consistent_quiet (g g' : FactoryGraph) :
  0 <= MAX_CONTAINER_LINKS → quiet g g' → consistent g → consistent g'.
Proof.
  intros Hmax ([X I] & Hin & Hc & Htc) (L & C & D). split; [|split].
  - intros i node' c Hn Hcin. destruct (Hin _ _ Hn) as [E|(node & Hnode & E)];
      rewrite E in Hcin; [by apply elem_of_nil in Hcin|].
    destruct (L _ _ _ Hnode Hcin) as (n & Hn0 & Hk).
    destruct (X _ _ Hn0) as (n' & Hn' & _ & Hgrow). exists n'. eauto.
  - eapply capacitiesKept_kept; [done| |exact C].
    intros c n' Hn'. destruct (Hc _ _ Hn') as [E|(n & Hn & E & Es)]; [by left|].
    right. exists n. split; [done|]. split; [done|]. rewrite E.
    split; [by destruct (C _ _ Hn)|].
    apply canAddOutgoingLinks_fewer; [done|]. unfold outgoingLinkCount. rewrite E. lia.
  - by eapply distinctUnits_kept.
Qed.

Lemma extends_i_takeFrom (i : nat) (src : NodeRef) (g g' : FactoryGraph) :
  i_takeFrom i src g = Ok g' → extends g g'.
Proof.
  unfold i_takeFrom. intros H.
  apply bind_Ok in H as (? & _ & H). destruct src; try discriminate.
  - apply bind_Ok in H as (node & _ & H).
    destruct (canAddOutgoingLinks node 1); [|discriminate]. injection H as <-.
    eapply (extends_alter (addConsumer (IndustryRef i))); [|reflexivity|keeps_items].
    intros n. split; [done|]. intros k Hk. simpl. apply elem_of_set_add. by right.
  - apply bind_Ok in H as (node & _ & H).
    destruct (tc_canAddOutgoingLinks node 1); [|discriminate]. injection H as <-.
    apply extends_same_containers; [done|]. keeps_items.
Qed.

Lemma capacitiesKept_addConsumer (k : NodeRef) (c : nat) (g g' : FactoryGraph)
    (node : ContainerNode) :
  0 <= MAX_CONTAINER_LINKS →
  containers g !! c = Some node →
  canAddOutgoingLinks node 1 = true →
  containers g' = alter (addConsumer k) c (containers g) →
  capacitiesKept g → capacitiesKept g'.
Proof.
  intros Hmax Hnode Hcap E C. eapply capacitiesKept_kept; [done| |exact C].
  intros c0 n' Hn'. right. rewrite E, list_lookup_alter in Hn'. case_decide as Ec.
  - subst. rewrite Hnode in Hn'. injection Hn' as <-. exists node.
    split; [done|]. split; [done|]. split.
    + simpl. apply NoDup_set_add. by destruct (C _ _ Hnode).
    + intros _. eapply canAddOutgoingLinks_fewer; [| |exact Hcap]; [done|].
      unfold outgoingLinkCount. simpl. pose proof (length_set_add k (consumers node)). lia.
  - exists n'. split; [done|]. split; [done|]. split; [|done]. by destruct (C _ _ Hn').
Qed.

Lemma consistent_i_takeFrom (i c : nat) (g g' : FactoryGraph) :
  0 <= MAX_CONTAINER_LINKS →
  i_takeFrom i (ContainerRef c) g = Ok g' → consistent g → consistent g'.
Proof.
  intros Hmax H (L & C & D).
  pose proof (extends_i_takeFrom _ _ _ _ H) as [X I].
  unfold i_takeFrom in H.
  apply bind_Ok in H as (node0 & Hnode0%orThrow_Ok & H).
  apply bind_Ok in H as (node & Hnode%orThrow_Ok & H).
  destruct (canAddOutgoingLinks node 1) eqn:Hcap; [|discriminate]. injection H as <-.
  split; [|split].
  - intros i0 node' c0 Hn Hin. simpl in Hn. rewrite list_lookup_alter in Hn.
    assert (Hold : ∀ nd, industries g !! i0 = Some nd → ContainerRef c0 ∈ inputs nd →
                         ∃ n, containers
                                (withIndustries (alter (addInput (ContainerRef c)) i)
                                   (withContainers (alter (addConsumer (IndustryRef i)) c) g))
                              !! c0 = Some n ∧ IndustryRef i0 ∈ consumers n).
    { intros nd Hnd Hc0. destruct (L _ _ _ Hnd Hc0) as (n & Hn0 & Hk).
      destruct (X _ _ Hn0) as (n' & Hn' & _ & Hgrow). exists n'. eauto. }
    case_decide as Ei; [subst i0|by eauto].
    rewrite Hnode0 in Hn. injection Hn as <-. simpl in Hin.
    apply elem_of_set_add in Hin as [[= ->]|Hin]; [|by eauto].
    exists (addConsumer (IndustryRef i) node). split.
    + simpl. by rewrite list_lookup_alter, decide_True, Hnode.
    + simpl. apply elem_of_set_add. by left.
  - by eapply (capacitiesKept_addConsumer (IndustryRef i) c g).
  - eapply distinctUnits_kept; [|exact I|exact D]. intros id tc' Htc'. right. by exists tc'.
Qed.

Lemma consistent_t_takeFrom (t c : nat) (g g' : FactoryGraph) :
  0 <= MAX_CONTAINER_LINKS →
  t_takeFrom t (ContainerRef c) g = Ok g' → consistent g → consistent g'.
Proof.
  intros Hmax H (L & C & D).
  pose proof (extends_t_takeFrom _ _ _ _ H) as [[X I] _].
  unfold t_takeFrom in H.
  apply bind_Ok in H as (unit & Hunit%orThrow_Ok & H).
  apply bind_Ok in H as (node & Hnode%orThrow_Ok & H).
  destruct (canAddOutgoingLinks node 1) eqn:Hcap; [|discriminate].
  destruct (t_canAddIncomingLinks unit 1); [|discriminate]. injection H as <-.
  split; [|split].
  - intros i0 node' c0 Hn Hin. simpl in Hn.
    destruct (L _ _ _ Hn Hin) as (n & Hn0 & Hk).
    destruct (X _ _ Hn0) as (n' & Hn' & _ & Hgrow). exists n'. eauto.
  - by eapply (capacitiesKept_addConsumer (TransferRef t) c g).
  - eapply distinctUnits_kept; [|exact I|exact D]. intros id tc' Htc'. right. by exists tc'.
Qed.

Lemma consistent_empty : consistent emptyFactory.
Proof.
  split; [|split].
  - intros i node c H. discriminate.
  - intros c n H. discriminate.
  - intros id tc H. discriminate.
Qed.

Lemma length_set_delete_elem (x : NodeRef) (s : list NodeRef) :
  x ∈ s → (length (set_delete x s) < length s)%nat.
Proof.
  unfold set_delete. induction s as [|y s IH]; intros Hx; [by apply elem_of_nil in Hx|].
  rewrite filter_cons. case_decide as E; simpl.
  - apply elem_of_cons in Hx as [->|Hx]; [done|]. specialize (IH Hx). lia.
  - pose proof (length_filter (λ z, z ≠ x) s). lia.
Qed.


(** Lines 219-220: the link is removed in both directions. *)
Lemma consistent_detach (i c : nat) (g : FactoryGraph) :
  0 <= MAX_CONTAINER_LINKS →
  consistent g →
  consistent (withIndustries (alter (deleteInput (ContainerRef c)) i)
                (withContainers (alter (deleteConsumer (IndustryRef i)) c) g)).
Proof.
  intros Hmax (L & C & D). split; [|split].
  - intros i0 node' c0 Hn Hin. simpl in Hn. simpl.
    assert (Hold : ∀ nd, industries g !! i0 = Some nd → ContainerRef c0 ∈ inputs nd →
                         (i0 = i → c0 ≠ c) →
                         ∃ n, alter (deleteConsumer (IndustryRef i)) c (containers g) !! c0 = Some n
                              ∧ IndustryRef i0 ∈ consumers n).
    { intros nd Hnd Hc0 Hne. destruct (L _ _ _ Hnd Hc0) as (n & Hn0 & Hk).
      rewrite list_lookup_alter. case_decide as Ec; [subst c0|by eauto].
      rewrite Hn0. simpl. eexists. split; [done|]. simpl.
      apply elem_of_set_delete. split; [|done]. intros [= ->]. by apply Hne. }
    rewrite list_lookup_alter in Hn. case_decide as Ei.
    + subst i0. destruct (industries g !! i) as [nd|] eqn:End; [|discriminate].
      injection Hn as <-. simpl in Hin. apply elem_of_set_delete in Hin as [Hne Hin].
      eapply Hold; [done|done|]. intros _ ->. done.
    + eapply Hold; [done|done|]. intros ->. done.
  - eapply capacitiesKept_kept; [done| |exact C].
    intros c0 n' Hn'. right. simpl in Hn'. rewrite list_lookup_alter in Hn'.
    case_decide as Ec.
    + subst. destruct (containers g !! c0) as [n|] eqn:En; [|discriminate].
      injection Hn' as <-. exists n. split; [done|]. split; [done|]. split.
      * simpl. apply NoDup_set_delete. by destruct (C _ _ En).
      * apply canAddOutgoingLinks_fewer; [done|]. unfold outgoingLinkCount. simpl.
        pose proof (length_set_delete (IndustryRef i) (consumers n)). lia.
    + exists n'. split; [done|]. split; [done|]. split; [|done]. by destruct (C _ _ Hn').
  - eapply distinctUnits_kept; [| |exact D].
    + intros id tc' Htc'. right. by exists tc'.
    + keeps_items.
Qed.

Lemma consistent_rewire (i : nat) (p : NodeRef) (g g' : FactoryGraph) :
  0 <= MAX_CONTAINER_LINKS →
  rewire i p g = Ok g' → consistent g → consistent g'.
Proof.
  unfold rewire. intros Hmax H Hg. destruct p; try discriminate.
  apply bind_Ok in H as (unit & _ & H).
  apply bind_Ok in H as (node & _ & H).
  destruct (find _ _) as [[c| | | |]|]; try discriminate.
  eapply consistent_t_takeFrom; [done|exact H|]. by apply consistent_detach.
Qed.

Lemma consistent_i_takeFrom_transferContainer (i tc : nat) (g g' : FactoryGraph) :
  i_takeFrom i (TransferContainerRef tc) g = Ok g' → consistent g → consistent g'.
Proof.
  intros H (L & C & D).
  pose proof (extends_i_takeFrom _ _ _ _ H) as [X I].
  unfold i_takeFrom in H.
  apply bind_Ok in H as (node0 & Hnode0%orThrow_Ok & H).
  apply bind_Ok in H as (node & Hnode%orThrow_Ok & H).
  destruct (tc_canAddOutgoingLinks node 1); [|discriminate]. injection H as <-.
  split; [|split].
  - intros i0 node' c0 Hn Hin. simpl in Hn. simpl.
    apply lookup_alter_Some in Hn as (nd & Hnd & [-> | ->]); [by eauto|].
    simpl in Hin. apply elem_of_set_add in Hin as [[=]|Hin]. by eauto.
  - intros c n Hn. simpl in Hn. by apply (C c n).
  - eapply distinctUnits_kept; [|exact I|exact D]. kept.
Qed.

(** Lines 204-207: one more transfer unit for the transfer container that
    is being built; [seen] are the items of the units it has already. *)
Lemma newTransferUnit_distinct (id : nat) (item : Item) (seen : list Item)
    (g g' : FactoryGraph) :
  (let '(transferUnit, g1) := createTransferUnit item g in
   t_outputTo transferUnit (TransferContainerRef id) g1) = Ok g' →
  item ∉ seen →
  consistent g →
  (∃ tc, transferContainers g !! id = Some tc
         ∧ itemOf g <$> tc_producers tc = Some <$> seen) →
  consistent g'
  ∧ ∃ tc', transferContainers g' !! id = Some tc'
           ∧ itemOf g' <$> tc_producers tc' = Some <$> (seen ++ [item]).
Proof.
  unfold createTransferUnit, t_outputTo. intros H Hnew (L & C & D) (tc & Htc & Hseen).
  apply bind_Ok in H as (unit & Hunit%orThrow_Ok & H).
  apply bind_Ok in H as (tc0 & Htc0%orThrow_Ok & H).
  destruct (tc_canAddIncomingLinks tc0 1); [|discriminate]. injection H as <-.
  simpl in Htc0. assert (tc0 = tc) as -> by congruence.
  set (t := length (transferUnits g)) in *.
  set (g' := withTransferUnits _ _).
  assert (Hitems : ∀ k it, itemOf g k = Some it → itemOf g' k = Some it).
  { intros [j|j|j|j|j] it; simpl; try done.
    rewrite lookup_alter_keeps by done. apply lookup_snoc_keeps. }
  assert (Hold : ∀ p, p ∈ tc_producers tc → p ≠ TransferRef t).
  { intros p Hp ->. destruct (D _ _ Htc) as [_ Hvalid].
    destruct (Hvalid _ Hp) as (t0 & [= <-] & [u Hu]).
    apply lookup_lt_Some in Hu. unfold t in Hu. lia. }
  assert (Hunit' : itemOf g' (TransferRef t) = Some item).
  { simpl. rewrite lookup_alter_keeps by done. unfold t. by rewrite list_lookup_middle. }
  assert (Hsame : ∀ tc1, (∀ p, p ∈ tc_producers tc1 →
                                ∃ t0, p = TransferRef t0 ∧ is_Some (transferUnits g !! t0)) →
                         itemOf g' <$> tc_producers tc1 = itemOf g <$> tc_producers tc1).
  { intros tc1 Hvalid. apply list_fmap_ext. intros j p Hj.
    destruct (Hvalid p) as (t0 & -> & [u Hu]); [by eapply list_elem_of_lookup_2|].
    assert (itemOf g (TransferRef t0) = Some (t_item u)) as E by (simpl; by rewrite Hu).
    by rewrite E, (Hitems _ _ E). }
  assert (Hadd : tc_producers (tc_addProducer (TransferRef t) tc)
                 = tc_producers tc ++ [TransferRef t]).
  { simpl. unfold set_add. rewrite bool_decide_eq_false_2; [done|].
    intros Hin. by apply (Hold _ Hin). }
  assert (Hnow : itemOf g' <$> tc_producers (tc_addProducer (TransferRef t) tc)
                 = Some <$> (seen ++ [item])).
  { rewrite Hadd, !fmap_app. f_equal.
    - rewrite <- Hseen. apply Hsame. by destruct (D _ _ Htc).
    - change ([itemOf g' (TransferRef t)] = [Some item]). by rewrite Hunit'. }
  assert (Hvalid' : ∀ t0, is_Some (transferUnits g !! t0) →
                          is_Some (transferUnits g' !! t0)).
  { intros t0 [u Hu]. specialize (Hitems (TransferRef t0) (t_item u)). simpl in Hitems.
    rewrite Hu in Hitems. specialize (Hitems eq_refl).
    simpl. destruct (alter _ _ _ !! t0); [eauto|discriminate]. }
  split; [split; [|split]|].
  - intros i0 node' c0 Hn Hin. simpl in *. by eapply L.
  - intros c n Hn. simpl in Hn. by apply (C c n).
  - intros id0 tc' Htc'. simpl in Htc'. rewrite list_lookup_alter in Htc'.
    case_decide as Eid.
    + subst id0. rewrite Htc in Htc'. injection Htc' as <-. split.
      * rewrite Hnow. apply NoDup_fmap_2; [apply _|].
        apply NoDup_app. split; [|split; [|apply NoDup_singleton]].
        -- destruct (D _ _ Htc) as [Hnd _]. rewrite Hseen in Hnd.
           by apply NoDup_fmap_1 in Hnd.
        -- intros x Hx ->%list_elem_of_singleton. done.
      * intros p Hp. rewrite Hadd in Hp. apply elem_of_app in Hp as [Hp|Hp].
        -- destruct (D _ _ Htc) as [_ Hvalid]. destruct (Hvalid p Hp) as (t0 & -> & Hs).
           exists t0. eauto.
        -- apply list_elem_of_singleton in Hp as ->. exists t. split; [done|].
           simpl in Hunit' |- *. destruct (alter _ _ _ !! t); [eauto|discriminate].
    + destruct (D _ _ Htc') as [Hnd Hvalid]. split.
      * by rewrite Hsame.
      * intros p Hp. destruct (Hvalid p Hp) as (t0 & -> & Hs). exists t0. eauto.
  - exists (tc_addProducer (TransferRef t) tc). split; [|done].
    simpl. by rewrite list_lookup_alter, decide_True, Htc.
Qed.

Lemma newTransferUnits_distinct (id : nat) (its : list Item) :
  ∀ (seen : list Item) (g g' : FactoryGraph),
  forEach (λ item s,
             let '(transferUnit, s1) := createTransferUnit item s in
             t_outputTo transferUnit (TransferContainerRef id) s1) its g = Ok g' →
  NoDup (seen ++ its) →
  consistent g →
  (∃ tc, transferContainers g !! id = Some tc
         ∧ itemOf g <$> tc_producers tc = Some <$> seen) →
  consistent g'.
Proof.
  induction its as [|item its IH]; intros seen g g' H Hnd Hg Htc; simpl in H.
  - by injection H as <-.
  - apply bind_Ok in H as (g1 & H1 & H2).
    apply NoDup_app in Hnd as Hnd'. destruct Hnd' as (_ & Hdisj & _).
    destruct (newTransferUnit_distinct id item seen g g1 H1) as [Hg1 Htc1]; [|done|done|].
    { intros Hin. apply (Hdisj _ Hin). by left. }
    eapply (IH (seen ++ [item])); [exact H2| |done|done].
    by rewrite <- app_assoc.
Qed.

Lemma NoDup_firstn {A : Type} (n : nat) (l : list A) : NoDup l → NoDup (firstn n l).
Proof.
  intros H. rewrite <- (take_drop n l) in H. by apply NoDup_app in H as (? & _).
Qed.

Lemma chooseTransferContainer_consistent (e : Z) (its : list Item) (g g1 : FactoryGraph)
    (id : nat) :
  0 <= MAX_CONTAINER_LINKS →
  NoDup its →
  chooseTransferContainer e its g = Ok (id, g1) → consistent g → consistent g1.
Proof.
  intros Hmax Hnd. unfold chooseTransferContainer. destruct (find _ _).
  { by intros [= _ <-]. }
  unfold newTransferContainer. intros H Hg.
  destruct (createTransferContainer _ g) as [id0 g0] eqn:E0.
  apply bind_Ok in H as (g2 & H2 & [= <- <-]).
  eapply (newTransferUnits_distinct id0 _ []); [exact H2| | |].
  - by apply NoDup_firstn.
  - eapply consistent_quiet; [done| |exact Hg]. by eapply quiet_createTransferContainer.
  - injection E0 as <- <-. eexists. simpl. by rewrite list_lookup_middle.
Qed.

(** Lines 163-164: the sort reorders the ingredients and drops none. *)
Lemma insertByQuantity_Permutation (x : Quantity) (l : list Quantity) :
  insertByQuantity x l ≡ₚ x :: l.
Proof.
  induction l as [|y l IH]; simpl; [done|].
  destruct (Qle_bool _ _); [done|]. rewrite IH. apply Permutation_swap.
Qed.

Lemma sortByQuantity_Permutation (l : list Quantity) : sortByQuantity l ≡ₚ l.
Proof.
  induction l as [|x l IH]; simpl; [done|].
  by rewrite insertByQuantity_Permutation, IH.
Qed.

Lemma sortByQuantity_distinct (l : list Quantity) :
  NoDup (q_item <$> l) → NoDup (q_item <$> sortByQuantity l).
Proof. by rewrite sortByQuantity_Permutation. Qed.

Lemma distinctIngredients_setIngredients (item : Item) (recipe : Recipe) (db : Recipes) :
  findRecipe db item = Some recipe →
  distinctIngredients db →
  distinctIngredients (setIngredients item (sortByQuantity (ingredients recipe)) db).
Proof.
  unfold findRecipe, distinctIngredients.
  induction db as [|r db IH]; simpl; intros Hfind Hdb r' Hr'; [by apply elem_of_nil in Hr'|].
  destruct (makes item r) eqn:E.
  - injection Hfind as <-. apply elem_of_cons in Hr' as [->|Hr'].
    + simpl. apply sortByQuantity_distinct, Hdb. by left.
    + apply Hdb. by right.
  - apply elem_of_cons in Hr' as [->|Hr'].
    + apply Hdb. by left.
    + apply IH; [done| |done]. intros r0 Hr0. apply Hdb. by right.
Qed.

Lemma findRecipe_elem (db : Recipes) (item : Item) (recipe : Recipe) :
  findRecipe db item = Some recipe → recipe ∈ db.
Proof. intros H. by apply find_Some_elem in H as [? _]. Qed.

(** The link resolver keeps the graph consistent. *)
Lemma consistent_relink (i transferContainer : nat) (g g' : FactoryGraph) :
  0 <= MAX_CONTAINER_LINKS →
  relink i transferContainer g = Ok g' → consistent g → consistent g'.
Proof.
  intros Hmax H Hg. unfold relink in H.
  apply bind_Ok in H as (tc & _ & H). apply bind_Ok in H as (g1 & Hloop & H).
  eapply consistent_i_takeFrom_transferContainer; [exact H|].
  eapply (forEach_invariant consistent); [|exact Hg|exact Hloop].
  intros p s s' _ Hs Hstep. by eapply consistent_rewire.
Qed.

Lemma consistent_resolveLinks (i : nat) (ingredientItems : list Item) (g g' : FactoryGraph) :
  0 <= MAX_CONTAINER_LINKS →
  NoDup ingredientItems →
  resolveLinks i ingredientItems g = Ok g' → consistent g → consistent g'.
Proof.
  intros Hmax Hnd H Hg. unfold resolveLinks in H.
  apply bind_Ok in H as (node & _ & H).
  destruct (_ >? 0); [|by injection H as <-].
  apply bind_Ok in H as ([id g1] & Hchoose & H).
  eapply consistent_relink; [done|exact H|].
  by eapply chooseTransferContainer_consistent.
Qed.

Lemma consistent_handleIndustry (i : nat) (db db' : Recipes) (g g' : FactoryGraph) :
  0 <= MAX_CONTAINER_LINKS →
  distinctIngredients db → consistent g →
  handleIndustry i db g = (db', Ok g') →
  distinctIngredients db' ∧ consistent g'.
Proof.
  intros Hmax Hdb Hg. unfold handleIndustry.
  destruct (industries g !! i) as [node|]; [|discriminate].
  destruct (findRecipe db (i_item node)) as [recipe|] eqn:Hrecipe; [|discriminate].
  intros [= <- H]. split.
  - by apply distinctIngredients_setIngredients.
  - eapply consistent_resolveLinks; [done| |exact H|done].
    apply sortByQuantity_distinct, Hdb. by eapply findRecipe_elem.
Qed.

Lemma consistent_handleIndustryLinksOver (ids : list nat) :
  ∀ (db db' : Recipes) (g g' : FactoryGraph),
  0 <= MAX_CONTAINER_LINKS →
  distinctIngredients db → consistent g →
  handleIndustryLinksOver ids db g = (db', Ok g') →
  distinctIngredients db' ∧ consistent g'.
Proof.
  induction ids as [|i ids IH]; intros db db' g g' Hmax Hdb Hg H; simpl in H.
  - by injection H as <- <-.
  - destruct (handleIndustry i db g) as [db1 [g1|e|]] eqn:E; [|discriminate..].
    destruct (consistent_handleIndustry _ _ _ _ _ Hmax Hdb Hg E) as [Hdb1 Hg1].
    by eapply IH.
Qed.

(** The graph that the link resolver starts from is consistent, and so is
    every graph it visits. *)
Lemma consistent_synthesize (fuel : nat) (db : Recipes)
    (requirements : list (Item * Requirement)) (g : FactoryGraph) :
  0 <= MAX_CONTAINER_LINKS → synthesize fuel db requirements = Ok g → consistent g.
Proof.
  intros Hmax H. eapply (kept_synthesize consistent); [..|exact H];
    first [ apply consistent_empty
          | intros ? ?; by apply consistent_quiet
          | intros ? ? ? ?; by apply consistent_i_takeFrom
          | intros ? ? ? ?; by apply consistent_t_takeFrom ].
Qed.

Lemma consistent_handleByproducts (fuel : nat) (db : Recipes) (g g' : FactoryGraph) :
  0 <= MAX_CONTAINER_LINKS →
  handleByproducts fuel db g = Ok g' → consistent g → consistent g'.
Proof.
  intros Hmax H. eapply (kept_handleByproducts consistent); [..|exact H];
    first [ intros ? ?; by apply consistent_quiet
          | intros ? ? ? ?; by apply consistent_i_takeFrom
          | intros ? ? ? ?; by apply consistent_t_takeFrom ].
Qed.

Lemma consistent_repair (fuel : nat) (db db' : Recipes)
    (requirements : list (Item * Requirement)) (g : FactoryGraph) :
  0 <= MAX_CONTAINER_LINKS →
  distinctIngredients db →
  repair fuel db requirements = (db', Ok g) →
  distinctIngredients db' ∧ consistent g.
Proof.
  intros Hmax Hdb. unfold repair.
  destruct (synthesize fuel db requirements) as [g0| |] eqn:E0; cbn [bind]; [|discriminate..].
  destruct (handleByproducts fuel db g0) as [g1| |] eqn:E1; [|discriminate..].
  apply consistent_handleIndustryLinksOver; [done..|].
  eapply consistent_handleByproducts; [done|exact E1|].
  by eapply consistent_synthesize.
Qed.

(** C1.  A graph that [buildFactory] returns is within the limits: every
    container has at most [MAX_CONTAINER_LINKS] incoming and outgoing links
    and an egress that does not exceed its ingress, every industry has at
    most [MAX_INDUSTRY_LINKS] incoming links.  When the graph handed to
    [sanityCheck] breaks one of these, [buildFactory] throws the error of
    [sanityCheck] and returns nothing. *)
Theorem buildFactory_validated (fuel : nat) (db : Recipes) (requirements : list (Item * Requirement)) :
  (∀ db' g, buildFactory fuel db requirements = (db', Ok g) → withinLimits db' g)
  ∧ (∀ db' g, repair fuel db requirements = (db', Ok g) →
       ¬ withinLimits db' g →
       ∃ why, buildFactory fuel db requirements = (db', Throw (SanityError why))).
Proof.
  unfold buildFactory. split; intros db' g.
  - destruct (repair fuel db requirements) as [db1 [g1|e|]]; simpl; try discriminate.
    destruct (sanityCheck db1 g1) as [[]|e|] eqn:Hs; simpl; try discriminate.
    intros [= <- <-]. by apply sanityCheck_Ok.
  - intros -> Hbad. simpl.
    destruct (sanityCheck_cases db' g) as [H|[why H]]; rewrite H; simpl.
    + by apply sanityCheck_Ok in H as [H _].
    + by exists why.
Qed.

(** C10.  In a graph that [buildFactory] returns, a container marked split
    has exactly one outgoing link: neither none nor more than one. *)
Theorem buildFactory_split_one_consumer (fuel : nat) (db db' : Recipes)
    (requirements : list (Item * Requirement)) (g : FactoryGraph) (id : nat) (c : ContainerNode) :
  buildFactory fuel db requirements = (db', Ok g) →
  containers g !! id = Some c →
  isSplit c = true →
  outgoingLinkCount c = 1.
Proof.
  unfold buildFactory. intros H Hc Hs.
  destruct (repair fuel db requirements) as [db1 [g1|e|]] eqn:E; simpl in H; try discriminate.
  destruct (sanityCheck db1 g1) as [[]|e|] eqn:Hcheck; simpl in H; try discriminate.
  injection H as <- <-.
  apply sanityCheck_Ok in Hcheck as [_ Hle]. specialize (Hle id c Hc Hs).
  apply pending_repair in E.
  assert (Hk : consumers c ≠ []).
  { intros Hk. assert (Hin : id ∈ @nil nat) by (apply E; by exists c).
    by apply elem_of_nil in Hin. }
  unfold outgoingLinkCount in *. destruct (consumers c); [done|]. simpl in *. lia.
Qed.

(** C6.  When [handleByproducts] has run, every byproduct of the recipe of
    every container that does not hold an ore is carried by some consumer
    of that container. *)
Theorem handleByproducts_consumes (fuel : nat) (db : Recipes) (g g' : FactoryGraph)
    (id : nat) (c : ContainerNode) (r : Recipe) (b : Quantity) :
  handleByproducts fuel db g = Ok g' →
  containers g' !! id = Some c →
  isOre (c_item c) = false →
  findRecipe db (c_item c) = Some r →
  b ∈ byproducts r →
  ∃ consumer, consumer ∈ consumers c ∧ itemOf g' consumer = Some (q_item b).
Proof.
  intros H Hc Hore Hr Hb.
  apply handleByproductsFrom_handled in H as [H _]; [|intros j Hj; lia].
  destruct (H id c Hc Hore) as (r' & Hr' & Hall).
  assert (r' = r) as -> by congruence. by apply Hall.
Qed.

(** C7.  [handleByproducts] run on a graph it has produced returns that
    graph as it is: no node and no link is added, and no ingress or egress
    changes. *)
Theorem handleByproducts_idempotent (fuel : nat) (db : Recipes) (g g' : FactoryGraph) :
  handleByproducts fuel db g = Ok g' →
  ∃ g'', handleByproducts fuel db g' = Ok g''
         ∧ g'' = g'
         ∧ nodeCounts g'' = nodeCounts g'
         ∧ linkTopology g'' = linkTopology g'
         ∧ ∀ id, ingress db g'' id = ingress db g' id ∧ egress db g'' id = egress db g' id.
Proof.
  intros H. exists g'.
  apply handleByproductsFrom_handled in H as [Hall Hlen]; [|intros j Hj; lia].
  split; [by apply handleByproductsFrom_noop|done].
Qed.


(** * Further properties of the passes *)

(** ** What each pass is made of

    A property of the graph that every graph operation a pass performs
    keeps is kept by the pass.  Each lemma below asks for the operations
    its pass performs, and for no other. *)

Section Steps.

Variable I : FactoryGraph -> Prop.

Hypothesis I_createContainer :
  ∀ item g id g', createContainer item g = (id, g') → I g → I g'.
Hypothesis I_createSplitContainer :
  ∀ item fraction g id g', createSplitContainer item fraction g = (id, g') → I g → I g'.
(** Lines 87-88 and 290-291: an industry is created and given its output. *)
Hypothesis I_newIndustry_container :
  ∀ item c g g',
  (let '(industry, g1) := createIndustry item g in
   i_outputTo industry (ContainerRef c) g1) = Ok g' →
  I g → I g'.
Hypothesis I_newIndustry_output :
  ∀ item o g g',
  (let '(industry, g1) := createIndustry item g in
   i_outputTo industry (OutputRef o) g1) = Ok g' →
  I g → I g'.
Hypothesis I_createOutput :
  ∀ item rate m g id g', createOutput item rate m g = (id, g') → I g → I g'.
Hypothesis I_createTransferUnit :
  ∀ item g id g', createTransferUnit item g = (id, g') → I g → I g'.
Hypothesis I_createTransferContainer :
  ∀ its g id g', createTransferContainer its g = (id, g') → I g → I g'.
Hypothesis I_i_takeFrom_container :
  ∀ i c g g', i_takeFrom i (ContainerRef c) g = Ok g' → I g → I g'.
Hypothesis I_i_takeFrom_transferContainer :
  ∀ i tc g g', i_takeFrom i (TransferContainerRef tc) g = Ok g' → I g → I g'.
Hypothesis I_t_outputTo_container :
  ∀ t c g g', t_outputTo t (ContainerRef c) g = Ok g' → I g → I g'.
Hypothesis I_t_outputTo_transferContainer :
  ∀ t tc g g', t_outputTo t (TransferContainerRef tc) g = Ok g' → I g → I g'.
Hypothesis I_t_takeFrom_container :
  ∀ t c g g', t_takeFrom t (ContainerRef c) g = Ok g' → I g → I g'.
(** Lines 219-220 *)
Hypothesis I_detach :
  ∀ i c g, I g →
  I (withIndustries (alter (deleteInput (ContainerRef c)) i)
       (withContainers (alter (deleteConsumer (IndustryRef i)) c) g)).

Lemma stable_createSplitContainers (n : nat) (item : Item) (total even : Z) :
  ∀ (remaining : Z) (g g' : FactoryGraph) (outs : list nat),
  createSplitContainers n item total even remaining g = (outs, g') → I g → I g'.
Proof.
  induction n as [|n IH]; intros remaining g g' outs H Hg;
    cbn [createSplitContainers] in H.
  - by injection H as _ <-.
  - destruct (createSplitContainer _ _ g) as [c g1] eqn:E1.
    destruct (createSplitContainers n _ _ _ _ g1) as [cs g2] eqn:E2.
    injection H as _ <-. eapply IH; [exact E2|]. by eapply I_createSplitContainer.
Qed.

Lemma stable_newOutputs (item : Item) (rate : Q) (recipe : Recipe)
    (g g' : FactoryGraph) (outs : list nat) (n : Z) :
  newOutputs item rate recipe g = (outs, n, g') → I g → I g'.
Proof.
  unfold newOutputs. intros H Hg. destruct (_ >? _).
  - destruct (createSplitContainers _ _ _ _ _ g) as [cs g1] eqn:E.
    injection H as _ _ <-. by eapply stable_createSplitContainers.
  - destruct (createContainer item g) as [c g1] eqn:E.
    injection H as _ _ <-. by eapply I_createContainer.
Qed.

Lemma stable_buildIngredients
    (rec : Item -> Q -> FactoryGraph -> Result (list nat * FactoryGraph))
    (i : nat) (recipe : Recipe) (g g' : FactoryGraph) :
  (∀ item rate s s' outs, rec item rate s = Ok (outs, s') → I s → I s') →
  buildIngredients rec i recipe g = Ok g' → I g → I g'.
Proof.
  intros Hrec H Hg. unfold buildIngredients in H.
  eapply (forEach_invariant I); [|exact Hg|exact H].
  intros ingredient s s' _ Hs Hbody. simpl in Hbody.
  apply bind_Ok in Hbody as ([ins g1] & H1 & H2).
  eapply (forEach_invariant I); [| |exact H2]; [|by eapply Hrec].
  intros c s1 s2 _ Hs1 Hb. cbv beta in Hb. by eapply I_i_takeFrom_container.
Qed.

Lemma stable_addIndustry
    (rec : Item -> Q -> FactoryGraph -> Result (list nat * FactoryGraph))
    (item : Item) (recipe : Recipe) (outs : list nat) (i : nat) (g g' : FactoryGraph) :
  (∀ item rate s s' outs, rec item rate s = Ok (outs, s') → I s → I s') →
  addIndustry rec item recipe outs i g = Ok g' → I g → I g'.
Proof.
  intros Hrec H Hg. unfold addIndustry in H.
  destruct (createIndustry item g) as [industry g1] eqn:E1.
  apply bind_Ok in H as (out & _ & H).
  apply bind_Ok in H as (g2 & H2 & H3).
  eapply stable_buildIngredients; [exact Hrec|exact H3|].
  eapply (I_newIndustry_container item out g); [by rewrite E1|done].
Qed.

Lemma stable_produce (fuel : nat) (db : Recipes) :
  ∀ item rate g g' outs, produce fuel db item rate g = Ok (outs, g') → I g → I g'.
Proof.
  induction fuel as [|fuel IH]; intros item rate g g' outs H Hg; simpl in H; [discriminate|].
  destruct (isOre item).
  { destruct (find _ _) as [c|].
    - by injection H as _ <-.
    - destruct (createContainer item g) as [c g1] eqn:E. injection H as _ <-.
      by eapply I_createContainer. }
  destruct (find _ _) as [c|]; [by injection H as _ <-|].
  apply bind_Ok in H as (recipe & _ & H).
  destruct (existingOutput db rate recipe g (getContainers g item)) as [[c n]|] eqn:E.
  - apply bind_Ok in H as (g1 & H1 & [= _ <-]).
    eapply (forEach_invariant I); [|exact Hg|exact H1].
    intros; eapply stable_addIndustry; eauto.
  - destruct (newOutputs item rate recipe g) as [[outs0 n] g0] eqn:E0.
    apply bind_Ok in H as (g1 & H1 & [= _ <-]).
    eapply (forEach_invariant I); [| |exact H1].
    + intros; eapply stable_addIndustry; eauto.
    + by eapply stable_newOutputs.
Qed.

Lemma stable_addRequirement (fuel : nat) (db : Recipes) (requirement : Item * Requirement)
    (g g' : FactoryGraph) :
  addRequirement fuel db requirement g = Ok g' → I g → I g'.
Proof.
  destruct requirement as [item [n m]]. unfold addRequirement. intros H Hg.
  apply bind_Ok in H as (recipe & _ & H).
  destruct (createOutput _ _ _ g) as [o g1] eqn:E1.
  eapply (forEach_invariant I); [| |exact H].
  - intros k s1 s2 _ Hs1 Hb. cbv beta in Hb.
    destruct (createIndustry item s1) as [industry g2] eqn:E2.
    apply bind_Ok in Hb as (g3 & H3 & H4).
    eapply stable_buildIngredients; [apply stable_produce|exact H4|].
    eapply (I_newIndustry_output item o s1); [by rewrite E2|done].
  - by eapply I_createOutput.
Qed.

Lemma stable_synthesize (fuel : nat) (db : Recipes) (requirements : list (Item * Requirement))
    (g : FactoryGraph) :
  I emptyFactory → synthesize fuel db requirements = Ok g → I g.
Proof.
  unfold synthesize. intros H0 H.
  eapply (forEach_invariant I); [|exact H0|exact H].
  intros; by eapply stable_addRequirement.
Qed.

Lemma stable_handleByproduct (c : nat) (b : Quantity) (g g' : FactoryGraph) :
  handleByproduct c b g = Ok g' → I g → I g'.
Proof.
  unfold handleByproduct. intros H Hg.
  apply bind_Ok in H as (node & _ & H).
  destruct (isConsumed g node (q_item b)); [by injection H as <-|].
  apply bind_Ok in H as ([t g1] & H1 & H2).
  eapply I_t_takeFrom_container; [exact H2|].
  destruct (lastWhere _ _).
  - by injection H1 as _ <-.
  - destruct (createTransferUnit (q_item b) g) as [t0 g0] eqn:E0.
    destruct (byproductOutput (q_item b) g0) as [o g2] eqn:E2.
    apply bind_Ok in H1 as (g3 & H3 & [= _ <-]).
    eapply I_t_outputTo_container; [exact H3|].
    assert (I g0) by (by eapply I_createTransferUnit).
    unfold byproductOutput in E2. destruct (lastWhere _ _).
    + by injection E2 as _ <-.
    + by eapply I_createContainer.
Qed.

Lemma stable_handleByproducts (fuel : nat) (db : Recipes) :
  ∀ (idx : nat) (g g' : FactoryGraph),
  handleByproductsFrom fuel db idx g = Ok g' → I g → I g'.
Proof.
  induction fuel as [|fuel IH]; intros idx g g' H Hg; simpl in H;
    destruct (containers g !! idx) as [c|]; try discriminate;
    try (by injection H as <-).
  destruct (isOre (c_item c)); [by eapply IH|].
  apply bind_Ok in H as (recipe & _ & H).
  apply bind_Ok in H as (g1 & H1 & H2).
  eapply IH; [exact H2|].
  eapply (forEach_invariant I); [|exact Hg|exact H1].
  intros; by eapply stable_handleByproduct.
Qed.

Lemma stable_chooseTransferContainer (e : Z) (its : list Item) (g g' : FactoryGraph)
    (id : nat) :
  chooseTransferContainer e its g = Ok (id, g') → I g → I g'.
Proof.
  unfold chooseTransferContainer. destruct (find _ _); [by intros [= _ <-]|].
  unfold newTransferContainer. intros H Hg.
  destruct (createTransferContainer _ g) as [id0 g0] eqn:E0.
  apply bind_Ok in H as (g2 & H2 & [= _ <-]).
  eapply (forEach_invariant I); [| |exact H2]; [|by eapply I_createTransferContainer].
  intros item s s' _ Hs Hb. cbv beta in Hb.
  destruct (createTransferUnit item s) as [t s1] eqn:E1.
  eapply I_t_outputTo_transferContainer; [exact Hb|]. by eapply I_createTransferUnit.
Qed.

Lemma stable_rewire (i : nat) (p : NodeRef) (g g' : FactoryGraph) :
  rewire i p g = Ok g' → I g → I g'.
Proof.
  unfold rewire. intros H Hg. destruct p as [|?|t|?|?]; try discriminate.
  apply bind_Ok in H as (unit & _ & H). apply bind_Ok in H as (node & _ & H).
  destruct (find _ _) as [[c| | | |]|]; try discriminate.
  eapply I_t_takeFrom_container; [exact H|]. by apply I_detach.
Qed.

Lemma stable_resolveLinks (i : nat) (its : list Item) (g g' : FactoryGraph) :
  resolveLinks i its g = Ok g' → I g → I g'.
Proof.
  unfold resolveLinks. intros H Hg.
  apply bind_Ok in H as (node & _ & H).
  destruct (_ >? 0); [|by injection H as <-].
  apply bind_Ok in H as ([id g1] & Hchoose & H). unfold relink in H.
  apply bind_Ok in H as (tc & _ & H). apply bind_Ok in H as (g2 & Hloop & H).
  eapply I_i_takeFrom_transferContainer; [exact H|].
  eapply (forEach_invariant I); [| |exact Hloop].
  - intros; by eapply stable_rewire.
  - by eapply stable_chooseTransferContainer.
Qed.

Lemma stable_handleIndustryLinksOver (ids : list nat) :
  ∀ (db db' : Recipes) (g g' : FactoryGraph),
  handleIndustryLinksOver ids db g = (db', Ok g') → I g → I g'.
Proof.
  induction ids as [|i ids IH]; intros db db' g g' H Hg; simpl in H.
  - by injection H as _ <-.
  - destruct (handleIndustry i db g) as [db1 [g1|e|]] eqn:E; [|discriminate..].
    eapply IH; [exact H|]. unfold handleIndustry in E.
    destruct (industries g !! i) as [node|]; [|discriminate].
    destruct (findRecipe db (i_item node)) as [recipe|]; [|discriminate].
    injection E as _ E. by eapply stable_resolveLinks.
Qed.

End Steps.

(** ** Frames *)

Lemma fmap_alter_keeps {A B : Type} (proj : A -> B) (f : A -> A) (l : list A) (i : nat) :
  (∀ a, proj (f a) = proj a) → proj <$> alter f i l = proj <$> l.
Proof.
  intros H. apply list_eq. intros j. rewrite !list_lookup_fmap.
  by apply lookup_alter_keeps.
Qed.

(** Runs the graph operation of the hypothesis [H]. *)
Ltac run_op H :=
  unfold createContainer, createSplitContainer, createIndustry, createOutput,
         createTransferUnit, createTransferContainer,
         i_outputTo, i_takeFrom, t_outputTo, t_takeFrom in H;
  cbv beta iota in H;
  repeat (let x := fresh "x" in apply bind_Ok in H as (x & _ & H));
  repeat match type of H with
         | (if ?b then _ else _) = _ => destruct b; [|discriminate]
         end;
  simplify_eq.

Ltac frame :=
  intros;
  try match goal with
      | H : createContainer _ _ = _ |- _ => run_op H
      | H : createSplitContainer _ _ _ = _ |- _ => run_op H
      | H : (let '(_, _) := createIndustry _ _ in _) = _ |- _ => run_op H
      | H : createOutput _ _ _ _ = _ |- _ => run_op H
      | H : createTransferUnit _ _ = _ |- _ => run_op H
      | H : createTransferContainer _ _ = _ |- _ => run_op H
      | H : i_outputTo _ _ _ = _ |- _ => run_op H
      | H : i_takeFrom _ _ _ = _ |- _ => run_op H
      | H : t_outputTo _ _ _ = _ |- _ => run_op H
      | H : t_takeFrom _ _ _ = _ |- _ => run_op H
      end;
  simpl; rewrite ?fmap_alter_keeps by done; congruence.

(** X1.  [produce] returns with the transfer units, the transfer containers
    and the output nodes of the graph as they were: it creates containers
    and industries only. *)
Theorem produce_frame (fuel : nat) (db : Recipes) (item : Item) (rate : Q)
    (g g' : FactoryGraph) (outs : list nat) :
  produce fuel db item rate g = Ok (outs, g') →
  transferUnits g' = transferUnits g
  ∧ transferContainers g' = transferContainers g
  ∧ outputNodes g' = outputNodes g.
Proof.
  intros H.
  assert (Hk : (transferUnits g', transferContainers g', outputNodes g')
               = (transferUnits g, transferContainers g, outputNodes g)).
  { eapply (stable_produce
              (λ s, (transferUnits s, transferContainers s, outputNodes s)
                    = (transferUnits g, transferContainers g, outputNodes g)));
      [..|exact H|done]; frame. }
  by injection Hk.
Qed.

(** X2.  [handleByproducts] returns with the industries, the transfer
    containers and the output nodes of the graph as they were: it creates
    transfer units and containers only, and links nothing to an industry. *)
Theorem handleByproducts_frame (fuel : nat) (db : Recipes) (g g' : FactoryGraph) :
  handleByproducts fuel db g = Ok g' →
  industries g' = industries g
  ∧ transferContainers g' = transferContainers g
  ∧ outputNodes g' = outputNodes g.
Proof.
  intros H.
  assert (Hk : (industries g', transferContainers g', outputNodes g')
               = (industries g, transferContainers g, outputNodes g)).
  { eapply (stable_handleByproducts
              (λ s, (industries s, transferContainers s, outputNodes s)
                    = (industries g, transferContainers g, outputNodes g)));
      [..|exact H|done]; frame. }
  by injection Hk.
Qed.

(** X3.  [handleIndustryLinks] creates transfer units and transfer
    containers only: the graph it returns has the containers of the graph it
    was given, with their items, split fractions and producers, its
    industries, with their items and outputs, and its output nodes. *)
Theorem handleIndustryLinks_frame (db db' : Recipes) (g g' : FactoryGraph) :
  handleIndustryLinks db g = (db', Ok g') →
  containerShape <$> containers g' = containerShape <$> containers g
  ∧ industryShape <$> industries g' = industryShape <$> industries g
  ∧ outputNodes g' = outputNodes g.
Proof.
  intros H.
  assert (Hk : (containerShape <$> containers g', industryShape <$> industries g',
                outputNodes g')
               = (containerShape <$> containers g, industryShape <$> industries g,
                  outputNodes g)).
  { eapply (stable_handleIndustryLinksOver
              (λ s, (containerShape <$> containers s, industryShape <$> industries s,
                     outputNodes s)
                    = (containerShape <$> containers g, industryShape <$> industries g,
                       outputNodes g)));
      [..|exact H|done]; frame. }
  by injection Hk.
Qed.

(** ** The recipe table *)

Lemma reordered_refl (r : Recipe) : reordered r r.
Proof. by repeat split. Qed.

Lemma reordered_trans (r1 r2 r3 : Recipe) :
  reordered r1 r2 → reordered r2 r3 → reordered r1 r3.
Proof.
  intros (P1 & B1 & T1 & I1) (P2 & B2 & T2 & I2).
  repeat split; try congruence. by rewrite I2.
Qed.

Lemma reorderedTable_refl (db : Recipes) : Forall2 reordered db db.
Proof. induction db; constructor; [apply reordered_refl|done]. Qed.

Lemma reorderedTable_trans (db1 db2 db3 : Recipes) :
  Forall2 reordered db1 db2 → Forall2 reordered db2 db3 → Forall2 reordered db1 db3.
Proof.
  intros H. revert db3. induction H as [|r1 r2 l1 l2 Hr Hl IH]; intros db3 H3.
  - by inversion H3.
  - inversion H3 as [|? r3 ? l3 Hr3 Hl3]; subst. constructor.
    + by eapply reordered_trans.
    + by apply IH.
Qed.

Lemma setIngredients_reordered (item : Item) (recipe : Recipe) (db : Recipes) :
  findRecipe db item = Some recipe →
  Forall2 reordered db (setIngredients item (sortByQuantity (ingredients recipe)) db).
Proof.
  unfold findRecipe. induction db as [|r db IH]; simpl; [done|].
  destruct (makes item r).
  - intros [= <-]. constructor; [|apply reorderedTable_refl].
    repeat split. simpl. apply sortByQuantity_Permutation.
  - intros H. constructor; [apply reordered_refl|by apply IH].
Qed.

Lemma handleIndustry_reordered (i : nat) (db : Recipes) (g : FactoryGraph) :
  Forall2 reordered db (handleIndustry i db g).1.
Proof.
  unfold handleIndustry. destruct (industries g !! i) as [node|]; [|apply reorderedTable_refl].
  destruct (findRecipe db (i_item node)) as [recipe|] eqn:E; [|apply reorderedTable_refl].
  by apply setIngredients_reordered.
Qed.

Lemma handleIndustryLinksOver_reordered (ids : list nat) :
  ∀ (db : Recipes) (g : FactoryGraph),
  Forall2 reordered db (handleIndustryLinksOver ids db g).1.
Proof.
  induction ids as [|i ids IH]; intros db g; simpl; [apply reorderedTable_refl|].
  pose proof (handleIndustry_reordered i db g) as H1.
  destruct (handleIndustry i db g) as [db1 [g1|e|]]; simpl in *; [|done..].
  eapply reorderedTable_trans; [exact H1|apply IH].
Qed.

(** X4.  Whatever the outcome of [buildFactory], the recipe table it leaves
    holds the recipes of the table it was given, in the same places, each
    with the product, the byproducts and the time it had and with the
    ingredients it had in some order: the sort of line 164 is the only
    write to the table. *)
Theorem buildFactory_reorders_table (fuel : nat) (db : Recipes)
    (requirements : list (Item * Requirement)) :
  Forall2 reordered db (buildFactory fuel db requirements).1.
Proof.
  unfold buildFactory.
  assert (H : Forall2 reordered db (repair fuel db requirements).1).
  { unfold repair. destruct (do g <- _; _); try apply reorderedTable_refl.
    apply handleIndustryLinksOver_reordered. }
  by destruct (repair fuel db requirements).
Qed.

Lemma findRecipe_reordered (db db' : Recipes) (item : Item) (r : Recipe) :
  Forall2 reordered db db' →
  findRecipe db item = Some r →
  ∃ r', findRecipe db' item = Some r' ∧ reordered r r'.
Proof.
  unfold findRecipe. induction 1 as [|r1 r2 l1 l2 Hr Hl IH]; simpl; [done|].
  assert (makes item r2 = makes item r1) as ->.
  { unfold makes. destruct Hr as (-> & _). done. }
  destruct (makes item r1); [|done]. intros [= <-]. eauto.
Qed.

(** ** The link resolver on a graph within the limit *)

Lemma handleIndustryLinksOver_within (g : FactoryGraph) (ids : list nat) :
  ∀ db : Recipes,
  (∀ i, i ∈ ids →
     ∃ node, industries g !! i = Some node
             ∧ i_incomingLinkCount node <= MAX_INDUSTRY_LINKS
             ∧ is_Some (findRecipe db (i_item node))) →
  (handleIndustryLinksOver ids db g).2 = Ok g.
Proof.
  induction ids as [|i ids IH]; intros db Hids; simpl; [done|].
  destruct (Hids i) as (node & Hnode & Hle & [recipe Hrecipe]); [by left|].
  pose proof (handleIndustry_reordered i db g) as Hdb.
  unfold handleIndustry in *. rewrite Hnode, Hrecipe in *.
  unfold resolveLinks. rewrite Hnode. cbn [orThrow bind].
  replace (_ >? 0) with false by (symmetry; rewrite Z.gtb_ltb; apply Z.ltb_ge; lia).
  simpl in Hdb |- *. apply IH. intros j Hj. destruct (Hids j) as (nj & Hnj & Hlej & [rj Hrj]); [by right|].
  exists nj. split; [done|]. split; [done|].
  destruct (findRecipe_reordered _ _ _ _ Hdb Hrj) as (r' & Hr' & _). by exists r'.
Qed.

(** X5.  When no industry of the graph has more than [MAX_INDUSTRY_LINKS]
    incoming links, and each has a recipe, [handleIndustryLinks] returns the
    graph it was given: no transfer container is created for an industry
    within the limit. *)
Theorem handleIndustryLinks_within_limit (db : Recipes) (g : FactoryGraph) :
  (∀ i node, industries g !! i = Some node →
     i_incomingLinkCount node <= MAX_INDUSTRY_LINKS
     ∧ is_Some (findRecipe db (i_item node))) →
  (handleIndustryLinks db g).2 = Ok g.
Proof.
  intros H. apply handleIndustryLinksOver_within. intros i Hi.
  apply elem_of_seq in Hi.
  assert (is_Some (industries g !! i)) as [node Hnode]
    by (apply lookup_lt_is_Some_2; lia).
  exists node. split; [done|]. by apply (H i).
Qed.

(** ** The error of [sanityCheck] *)

Lemma forEach_first_throw {A : Type} (check : A -> Result unit) (l : list A) (e : Error) :
  forEach (λ a _, check a) l tt = Throw e →
  ∃ l1 a l2, l = l1 ++ a :: l2 ∧ (∀ x, x ∈ l1 → check x = Ok tt) ∧ check a = Throw e.
Proof.
  induction l as [|a l IH]; simpl; [discriminate|].
  destruct (check a) as [[]|e'|] eqn:E; simpl; [|intros [= ->]|discriminate].
  - intros H. destruct (IH H) as (l1 & b & l2 & -> & Hl1 & Hb).
    exists (a :: l1), b, l2. split; [done|]. split; [|done].
    intros x [->|Hx]%elem_of_cons; [done|by apply Hl1].
  - exists [], a, l. split; [done|]. split; [|done]. by intros x Hx%elem_of_nil.
Qed.

Lemma checkContainer_Throw (db : Recipes) (g : FactoryGraph) (id : nat)
    (c : ContainerNode) (e : Error) :
  containers g !! id = Some c →
  checkContainer db g id = Throw e →
  ∃ why, e = SanityError why ∧ containerFault db g id c why.
Proof.
  intros Hc. unfold checkContainer. rewrite Hc. simpl.
  destruct (incomingLinkCount c >? MAX_CONTAINER_LINKS) eqn:E1.
  { intros [= <-]. exists IncomingLimit. split; [done|]. simpl. lia. }
  destruct (outgoingLinkCount c >? MAX_CONTAINER_LINKS) eqn:E2.
  { intros [= <-]. exists OutgoingLimit. split; [done|]. simpl. lia. }
  destruct (Qltb (ingress db g id) (egress db g id)) eqn:E3.
  { intros [= <-]. exists EgressExceedsIngress. split; [done|]. simpl.
    repeat split; try lia. unfold Qltb in E3. apply negb_true_iff in E3.
    apply Qnot_le_lt. intros Hle. apply Qle_bool_iff in Hle. congruence. }
  destruct (isSplit c && (outgoingLinkCount c >? 1)) eqn:E4; [|discriminate].
  intros [= <-]. exists SplitOutgoing. split; [done|]. simpl.
  apply andb_true_iff in E4 as [Hs Hout]. repeat split; try lia; [|done].
  unfold Qltb in E3. apply negb_false_iff in E3. by apply Qle_bool_iff.
Qed.

(** X6.  [sanityCheck] throws nothing but its own five errors, and the one
    it throws is that of the first container, in creation order, that fails
    a check, the checks being made in the order incoming limit, outgoing
    limit, egress above ingress, split container with more than one
    outgoing link; an industry is reported only when every container passes
    every check. *)
Theorem sanityCheck_reports_first (db : Recipes) (g : FactoryGraph) (e : Error) :
  sanityCheck db g = Throw e → reportsFirst db g e.
Proof.
  unfold sanityCheck. intros H.
  destruct (forEach _ (seq 0 (length (containers g))) tt) as [[]|e'|] eqn:E1;
    simpl in H; [|injection H as ->|discriminate].
  - apply forEach_first_throw in H as (l1 & node & l2 & Hl & Hl1 & Hnode).
    unfold checkIndustry in Hnode.
    destruct (i_incomingLinkCount node >? MAX_INDUSTRY_LINKS) eqn:E; [|discriminate].
    injection Hnode as <-. exists IndustryLimit. split; [done|]. right.
    split; [done|]. split.
    + rewrite forEach_checks in E1. intros id c Hc.
      apply (checkContainer_Ok db g id c Hc). apply E1.
      apply elem_of_seq. apply lookup_lt_Some in Hc. lia.
    + exists (length l1), node. split; [by rewrite Hl, list_lookup_middle|].
      split; [lia|]. intros j nj Hj Hnj.
      rewrite Hl, lookup_app_l in Hnj by done.
      apply list_elem_of_lookup_2, Hl1 in Hnj. unfold checkIndustry in Hnj.
      destruct (i_incomingLinkCount nj >? MAX_INDUSTRY_LINKS) eqn:Ej; [discriminate|]. lia.
  - apply forEach_first_throw in E1 as (l1 & id & l2 & Hl & Hl1 & Hid).
    assert (Hlen : id = length l1).
    { assert (Hlook : seq 0 (length (containers g)) !! length l1 = Some id)
        by (by rewrite Hl, list_lookup_middle).
      apply lookup_seq in Hlook. lia. }
    assert (Hin : (id < length (containers g))%nat).
    { assert (Hmem : id ∈ seq 0 (length (containers g)))
        by (rewrite Hl; apply elem_of_app; right; by left).
      apply elem_of_seq in Hmem. lia. }
    destruct (lookup_lt_is_Some_2 (containers g) id Hin) as [c Hc].
    destruct (checkContainer_Throw db g id c e Hc Hid) as (why & -> & Hfault).
    exists why. split; [done|]. left. exists id, c. split; [done|]. split; [done|].
    intros j cj Hj Hcj. apply (checkContainer_Ok db g j cj Hcj). apply Hl1.
    assert (Hlook : seq 0 (length (containers g)) !! j = Some j).
    { apply lookup_seq. apply lookup_lt_Some in Hcj. lia. }
    rewrite Hl, lookup_app_l in Hlook by lia. by eapply list_elem_of_lookup_2.
Qed.

(** ** What [produce] returns *)

Lemma extends_produce (fuel : nat) (db : Recipes) (g0 : FactoryGraph) :
  ∀ item rate g g' outs,
  produce fuel db item rate g = Ok (outs, g') → extends g0 g → extends g0 g'.
Proof.
  apply (kept_produce (extends g0)).
  - intros g g' (He & _) Hg. by eapply extends_trans.
  - intros i c g g' H Hg. eapply extends_trans; [exact Hg|]. by eapply extends_i_takeFrom.
Qed.

Lemma extends_addIndustries (fuel : nat) (db : Recipes) (item : Item) (recipe : Recipe)
    (outs : list nat) (ks : list nat) (g g' : FactoryGraph) :
  forEach (addIndustry (produce fuel db) item recipe outs) ks g = Ok g' → extends g g'.
Proof.
  intros H. eapply (forEach_invariant (extends g)); [|apply extends_refl|exact H].
  intros k s s' _ Hs Hstep.
  eapply (kept_addIndustry (extends g)); [| |apply extends_produce|exact Hstep|exact Hs].
  - intros s1 s2 (He & _) H1. by eapply extends_trans.
  - intros i c s1 s2 H1 H2. eapply extends_trans; [exact H2|]. by eapply extends_i_takeFrom.
Qed.

Lemma getContainers_item (g : FactoryGraph) (item : Item) (c : nat) :
  c ∈ getContainers g item → ∃ n, containers g !! c = Some n ∧ c_item n = item.
Proof.
  unfold getContainers. rewrite elem_of_indicesWhere. intros (n & Hn & Hp).
  exists n. split; [done|]. by apply bool_decide_eq_true in Hp.
Qed.

Lemma existingOutput_elem (db : Recipes) (rate : Q) (recipe : Recipe) (g : FactoryGraph)
    (cs : list nat) (c : nat) (n : Z) :
  existingOutput db rate recipe g cs = Some (c, n) → c ∈ cs.
Proof.
  induction cs as [|c0 cs IH]; simpl; [discriminate|].
  destruct (_ && _).
  - intros [= -> _]. by left.
  - intros H. right. by apply IH.
Qed.

Lemma newOutputs_items (item : Item) (rate : Q) (recipe : Recipe)
    (g g' : FactoryGraph) (outs : list nat) (n : Z) :
  1 <= MAX_CONTAINER_LINKS →
  newOutputs item rate recipe g = (outs, n, g') →
  outs ≠ []
  ∧ ∀ c, c ∈ outs → ∃ node, containers g' !! c = Some node ∧ c_item node = item.
Proof.
  intros Hmax H.
  destruct (decide (MAX_CONTAINER_LINKS
                    < Math_ceil (rate / (quantity (product recipe) / time recipe))%Q))
    as [Hsplit|Hone].
  - destruct (newOutputs_split_shares item rate recipe g ltac:(lia) Hsplit)
      as (shares & E & _ & _ & Hsum & _).
    rewrite E in H. injection H as <- <- <-. split.
    + destruct shares; [simpl in Hsum; lia|done].
    + intros c Hc. apply elem_of_seq in Hc. simpl.
      rewrite lookup_app_r by lia. rewrite list_lookup_fmap.
      destruct (shares !! (c - length (containers g))%nat) as [share|] eqn:Es.
      * eexists. split; [reflexivity|done].
      * apply lookup_ge_None in Es. lia.
  - unfold newOutputs in H.
    replace (_ >? MAX_CONTAINER_LINKS) with false in H
      by (symmetry; rewrite Z.gtb_ltb; apply Z.ltb_ge; lia).
    injection H as <- <- <-. split; [done|].
    intros c ->%list_elem_of_singleton. simpl. rewrite list_lookup_middle by done.
    eexists. split; [reflexivity|done].
Qed.

Lemma produce_items (fuel : nat) (db : Recipes) (item : Item)
    (rate : Q) (g g' : FactoryGraph) (outs : list nat) :
  1 <= MAX_CONTAINER_LINKS →
  produce fuel db item rate g = Ok (outs, g') →
  outs ≠ []
  ∧ (∀ c, c ∈ outs → ∃ node, containers g' !! c = Some node ∧ c_item node = item).
Proof.
  intros Hmax H.
  assert (Hext : extends g g') by (eapply extends_produce; [exact H|apply extends_refl]).
  split.
  - destruct fuel as [|fuel]; simpl in H; [discriminate|].
    destruct (isOre item).
    { destruct (find _ _); [by injection H as <- _|].
      destruct (createContainer item g). by injection H as <- _. }
    destruct (find _ _); [by injection H as <- _|].
    apply bind_Ok in H as (recipe & _ & H).
    destruct (existingOutput _ _ _ _ _) as [[c n]|].
    + apply bind_Ok in H as (g1 & _ & [= <- _]). done.
    + destruct (newOutputs item rate recipe g) as [[outs0 n] g0] eqn:E0.
      apply bind_Ok in H as (g1 & _ & [= <- _]).
      by destruct (newOutputs_items _ _ _ _ _ _ _ Hmax E0).
  - assert (Hold : ∀ s c, c ∈ getContainers s item → extends s g' →
                     ∃ node, containers g' !! c = Some node ∧ c_item node = item).
    { intros s c (n & Hn & Hitem)%getContainers_item [Hs _].
      destruct (Hs _ _ Hn) as (n' & Hn' & Hgrow & _). exists n'. split; [done|congruence]. }
    destruct fuel as [|fuel]; simpl in H; [discriminate|].
    destruct (isOre item).
    { destruct (find _ _) as [c0|] eqn:Ef.
      - injection H as <- <-. intros c ->%list_elem_of_singleton.
        apply find_Some_elem in Ef as [Ef _]. by eapply Hold.
      - injection H as <- <-. intros c ->%list_elem_of_singleton. simpl.
        rewrite list_lookup_middle by done. eexists. split; [reflexivity|done]. }
    destruct (find _ _) as [c0|] eqn:Ef.
    { injection H as <- <-. intros c ->%list_elem_of_singleton.
      apply find_Some_elem in Ef as [Ef _]. by eapply Hold. }
    apply bind_Ok in H as (recipe & _ & H).
    destruct (existingOutput _ _ _ _ _) as [[c0 n]|] eqn:Ee.
    + apply bind_Ok in H as (g1 & _ & [= <- <-]).
      intros c ->%list_elem_of_singleton.
      apply existingOutput_elem in Ee. by eapply Hold.
    + destruct (newOutputs item rate recipe g) as [[outs0 n] g0] eqn:E0.
      apply bind_Ok in H as (g1 & Hloop & [= <- <-]).
      destruct (newOutputs_items _ _ _ _ _ _ _ Hmax E0) as [_ Hitems].
      intros c Hc. destruct (Hitems c Hc) as (node & Hnode & Hitem).
      apply extends_addIndustries in Hloop as [Hs _].
      destruct (Hs _ _ Hnode) as (n' & Hn' & Hgrow & _). exists n'. split; [done|congruence].
Qed.

(** X7.  The containers that [produce] returns are containers of the graph
    it leaves, they hold the item asked for, and there is at least one; the
    graph it leaves has every node of the graph it was given, with its
    item, and every consumer of every container. *)
Theorem produce_returns_item_containers (fuel : nat) (db : Recipes) (item : Item)
    (rate : Q) (g g' : FactoryGraph) (outs : list nat) :
  1 <= MAX_CONTAINER_LINKS →
  produce fuel db item rate g = Ok (outs, g') →
  outs ≠ []
  ∧ (∀ c, c ∈ outs → ∃ node, containers g' !! c = Some node ∧ c_item node = item)
  ∧ extends g g'.
Proof.
  intros Hmax H. destruct (produce_items _ _ _ _ _ _ _ Hmax H) as [Hne Hitems].
  split; [done|]. split; [done|].
  eapply extends_produce; [exact H|apply extends_refl].
Qed.

Lemma find_isFirstWhere {A : Type} (p : A -> bool) (l : list A) (x : A) :
  find p l = Some x → isFirstWhere p l x.
Proof.
  induction l as [|y l IH]; simpl; [discriminate|].
  destruct (p y) eqn:E.
  - intros [= <-]. by exists [], l.
  - intros H. destruct (IH H) as (l1 & l2 & -> & Hx & Hl1).
    exists (y :: l1), l2. split; [done|]. split; [done|]. by constructor.
Qed.

(** X8.  For an ore, [produce] never fails and creates no industry: it
    returns the first container of the ore, in creation order, that has
    room for an outgoing link, leaving the graph as it is, and when there
    is none it creates one container of the ore and returns it.  The
    container returned has room for the link the caller adds. *)
Theorem produce_ore (fuel : nat) (db : Recipes) (item : Item) (rate : Q)
    (g : FactoryGraph) :
  isOre item = true →
  1 <= MAX_CONTAINER_LINKS →
  let room := λ c, withContainer g c (λ n, canAddOutgoingLinks n 1) in
  ∃ c g' node,
    produce (S fuel) db item rate g = Ok ([c], g')
    ∧ containers g' !! c = Some node
    ∧ c_item node = item
    ∧ canAddOutgoingLinks node 1 = true
    ∧ ((g' = g ∧ isFirstWhere room (getContainers g item) c)
       ∨ (g' = withContainers (λ l, l ++ [mkContainer item 1%Q false [] []]) g
          ∧ c = length (containers g)
          ∧ Forall (λ c, room c = false) (getContainers g item))).
Proof.
  intros Hore Hmax room. simpl. rewrite Hore.
  destruct (find _ (getContainers g item)) as [c|] eqn:Ef.
  - pose proof (find_Some_elem _ _ _ Ef) as [Hin Hroom].
    apply getContainers_item in Hin as (node & Hnode & Hitem).
    exists c, g, node. split; [done|]. split; [done|]. split; [done|]. split.
    + unfold withContainer in Hroom. by rewrite Hnode in Hroom.
    + left. split; [done|]. by apply find_isFirstWhere.
  - exists (length (containers g)), (withContainers (λ l, l ++ [mkContainer item 1%Q false [] []]) g),
           (mkContainer item 1%Q false [] []).
    split; [done|]. split; [simpl; by rewrite list_lookup_middle|]. split; [done|]. split.
    + unfold canAddOutgoingLinks, outgoingLinkCount. simpl. apply Z.leb_le. lia.
    + right. split; [done|]. split; [done|].
      apply Forall_forall. intros c Hc. by apply (proj1 (find_None_elem _ _) Ef).
Qed.

(** ** The output nodes and their industries *)

Lemma keepsIndustries_refl (g : FactoryGraph) : keepsIndustries g g.
Proof. intros i node H. by exists node. Qed.

Lemma keepsIndustries_trans (g1 g2 g3 : FactoryGraph) :
  keepsIndustries g1 g2 → keepsIndustries g2 g3 → keepsIndustries g1 g3.
Proof.
  intros H12 H23 i node H. destruct (H12 i node H) as (n2 & H2 & E2).
  destruct (H23 i n2 H2) as (n3 & H3 & E3). exists n3. split; [done|congruence].
Qed.

Lemma keepsIndustries_alter (f : IndustryNode -> IndustryNode) (j : nat) (g g' : FactoryGraph) :
  (∀ n, industryShape (f n) = industryShape n) →
  industries g' = alter f j (industries g) →
  keepsIndustries g g'.
Proof.
  intros Hf E i node H. rewrite E, list_lookup_alter. case_decide; subst.
  - rewrite H. simpl. eexists. split; [reflexivity|apply Hf].
  - by exists node.
Qed.

Lemma keepsIndustries_newIndustry (item : Item) (dst : NodeRef) (g g' : FactoryGraph) :
  industries g' = alter (setOutput dst) (length (industries g))
                    (industries g ++ [mkIndustry item [] None]) →
  keepsIndustries g g'.
Proof.
  intros E i node H. exists node. split; [|done].
  pose proof (lookup_lt_Some _ _ _ H).
  rewrite E, list_lookup_alter_ne by lia. by apply lookup_app_l_Some.
Qed.

Lemma keepsIndustries_same (g g' : FactoryGraph) :
  industries g' = industries g → keepsIndustries g g'.
Proof. intros E i node H. exists node. by rewrite E. Qed.

Lemma settled_step (g s s' : FactoryGraph) :
  outputNodes s' = outputNodes s → keepsIndustries s s' → settled g s → settled g s'.
Proof.
  intros Ho Hk [Ho' Hk']. split; [congruence|]. by eapply keepsIndustries_trans.
Qed.

(** Discharges the steps that leave the output nodes and the industries. *)
Ltac settle :=
  intros;
  match goal with
  | H : createContainer _ _ = _ |- _ => run_op H
  | H : createSplitContainer _ _ _ = _ |- _ => run_op H
  | H : (let '(_, _) := createIndustry _ _ in _) = _ |- _ => run_op H
  | H : createTransferUnit _ _ = _ |- _ => run_op H
  | H : createTransferContainer _ _ = _ |- _ => run_op H
  | H : i_takeFrom _ _ _ = _ |- _ => run_op H
  | H : t_outputTo _ _ _ = _ |- _ => run_op H
  | H : t_takeFrom _ _ _ = _ |- _ => run_op H
  | |- _ => idtac
  end;
  (eapply settled_step; [| |eassumption]); [done|];
  first [ by apply keepsIndustries_same
        | by eapply keepsIndustries_newIndustry
        | by eapply (keepsIndustries_alter (addInput _))
        | by eapply (keepsIndustries_alter (deleteInput _)) ].

Lemma settled_produce (fuel : nat) (db : Recipes) (g0 : FactoryGraph) :
  ∀ item rate g g' outs,
  produce fuel db item rate g = Ok (outs, g') → settled g0 g → settled g0 g'.
Proof. apply (stable_produce (settled g0)); settle. Qed.

Lemma settled_buildIngredients (fuel : nat) (db : Recipes) (i : nat) (recipe : Recipe)
    (g g' : FactoryGraph) :
  buildIngredients (produce fuel db) i recipe g = Ok g' → settled g g'.
Proof.
  intros H.
  eapply (stable_buildIngredients (settled g));
    [|apply settled_produce|exact H|split; [done|apply keepsIndustries_refl]].
  settle.
Qed.

Lemma settled_handleByproducts (fuel : nat) (db : Recipes) (g g' : FactoryGraph) :
  handleByproducts fuel db g = Ok g' → settled g g'.
Proof.
  intros H.
  eapply (stable_handleByproducts (settled g));
    [..|exact H|split; [done|apply keepsIndustries_refl]]; settle.
Qed.

Lemma settled_handleIndustryLinks (db db' : Recipes) (g g' : FactoryGraph) :
  handleIndustryLinks db g = (db', Ok g') → settled g g'.
Proof.
  intros H.
  eapply (stable_handleIndustryLinksOver (settled g));
    [..|exact H|split; [done|apply keepsIndustries_refl]]; settle.
Qed.

Lemma assembles_keeps (g g' : FactoryGraph) (item : Item) (k : nat) (o : OutputNode) :
  keepsIndustries g g' → assembles g item k o → assembles g' item k o.
Proof.
  intros Hk Ha p Hin. destruct (Ha p Hin) as (i & node & -> & Hnode & Hitem & Hout).
  destruct (Hk i node Hnode) as (node' & Hn' & Hs).
  unfold industryShape in Hs. injection Hs as Hs1 Hs2.
  exists i, node'. repeat split; congruence.
Qed.

Lemma delivers_keeps (db : Recipes) (g g' : FactoryGraph) (k : nat)
    (requirement : Item * Requirement) :
  outputNodes g' !! k = outputNodes g !! k →
  keepsIndustries g g' →
  delivers db g k requirement → delivers db g' k requirement.
Proof.
  intros Ho Hk (o & recipe & Hlook & Hrec & Hi & Hr & Hm & Hlen & Hp).
  exists o, recipe. rewrite Ho. repeat split; try done. by eapply assembles_keeps.
Qed.

(** Lines 290-291: one more industry for the output node with index [k]. *)
Lemma newAssembler (item : Item) (k i : nat) (s s2 s3 : FactoryGraph) (o : OutputNode) :
  createIndustry item s = (i, s2) →
  i_outputTo i (OutputRef k) s2 = Ok s3 →
  outputNodes s !! k = Some o →
  assembles s item k o →
  outputNodes s3 = alter (o_addProducer (IndustryRef i)) k (outputNodes s)
  ∧ o_producers (o_addProducer (IndustryRef i) o) = o_producers o ++ [IndustryRef i]
  ∧ assembles s3 item k (o_addProducer (IndustryRef i) o)
  ∧ keepsIndustries s s3.
Proof.
  intros [= <- <-] H Ho Ha. unfold i_outputTo in H.
  apply bind_Ok in H as (x & _ & H). apply bind_Ok in H as (y & _ & H).
  injection H as <-. simpl.
  assert (Hfresh : IndustryRef (length (industries s)) ∉ o_producers o).
  { intros Hin. destruct (Ha _ Hin) as (i & node & [= <-] & Hnode & _).
    apply lookup_lt_Some in Hnode. lia. }
  assert (Hadd : set_add (IndustryRef (length (industries s))) (o_producers o)
                 = o_producers o ++ [IndustryRef (length (industries s))]).
  { unfold set_add. by rewrite bool_decide_eq_false_2. }
  split; [done|]. split; [done|]. split.
  - intros p Hp. simpl in Hp. rewrite Hadd in Hp. apply elem_of_app in Hp as [Hp|Hp].
    + destruct (Ha p Hp) as (i & node & -> & Hnode & Hitem & Hout).
      exists i, node. split; [done|]. split; [|done]. simpl.
      pose proof (lookup_lt_Some _ _ _ Hnode).
      rewrite list_lookup_alter_ne by lia. by apply lookup_app_l_Some.
    + apply list_elem_of_singleton in Hp as ->.
      exists (length (industries s)), (setOutput (OutputRef k) (mkIndustry item [] None)).
      split; [done|]. split; [|done]. simpl.
      by rewrite list_lookup_alter, decide_True, list_lookup_middle.
  - by eapply keepsIndustries_newIndustry.
Qed.

(** Lines 288-299: the loop over the count of one requirement. *)
Lemma assemblers_loop (fuel : nat) (db : Recipes) (item : Item) (recipe : Recipe)
    (k : nat) (ks : list nat) :
  ∀ (s s' : FactoryGraph) (o : OutputNode),
  forEach
    (λ _ g,
       let '(industry, g2) := createIndustry item g in
       do g3 <- i_outputTo industry (OutputRef k) g2;
       buildIngredients (produce fuel db) industry recipe g3) ks s = Ok s' →
  outputNodes s !! k = Some o →
  assembles s item k o →
  ∃ o', outputNodes s' !! k = Some o'
        ∧ (o_item o', o_rate o', maintain o') = (o_item o, o_rate o, maintain o)
        ∧ length (o_producers o') = (length (o_producers o) + length ks)%nat
        ∧ assembles s' item k o'
        ∧ length (outputNodes s') = length (outputNodes s)
        ∧ (∀ j, j ≠ k → outputNodes s' !! j = outputNodes s !! j)
        ∧ keepsIndustries s s'.
Proof.
  induction ks as [|x ks IH]; intros s s' o H Ho Ha; cbn [forEach] in H.
  - injection H as <-. exists o. rewrite Nat.add_0_r.
    repeat split; try done. apply keepsIndustries_refl.
  - apply bind_Ok in H as (s4 & Hbody & Hrest).
    destruct (createIndustry item s) as [i s2] eqn:E.
    apply bind_Ok in Hbody as (s3 & H3 & H4).
    destruct (newAssembler _ _ _ _ _ _ _ E H3 Ho Ha) as (Hout3 & Hprod & Ha3 & Hk3).
    apply settled_buildIngredients in H4 as [Hout4 Hk4].
    set (o1 := o_addProducer (IndustryRef i) o) in *.
    assert (Ho1 : outputNodes s4 !! k = Some o1).
    { by rewrite Hout4, Hout3, list_lookup_alter, decide_True, Ho. }
    destruct (IH s4 s' o1 Hrest Ho1 (assembles_keeps _ _ _ _ _ Hk4 Ha3))
      as (o' & Ho' & Hfields & Hlen & Ha' & Hlens & Hothers & Hk').
    exists o'. split; [done|]. split; [done|]. split.
    { rewrite Hlen, Hprod, length_app. simpl. lia. }
    split; [done|]. split.
    { by rewrite Hlens, Hout4, Hout3, length_alter. }
    split.
    { intros j Hj. by rewrite Hothers, Hout4, Hout3, list_lookup_alter_ne. }
    eapply keepsIndustries_trans; [exact Hk3|].
    by eapply keepsIndustries_trans.
Qed.

Lemma addRequirement_delivers (fuel : nat) (db : Recipes) (requirement : Item * Requirement)
    (g g' : FactoryGraph) :
  addRequirement fuel db requirement g = Ok g' →
  delivers db g' (length (outputNodes g)) requirement
  ∧ length (outputNodes g') = S (length (outputNodes g))
  ∧ (∀ j, (j < length (outputNodes g))%nat → outputNodes g' !! j = outputNodes g !! j)
  ∧ keepsIndustries g g'.
Proof.
  destruct requirement as [item [n m]]. unfold addRequirement. intros H.
  apply bind_Ok in H as (recipe & Hrecipe%orThrow_Ok & H).
  unfold createOutput in H.
  set (rate := (quantity (product recipe) / time recipe * inject_Z n)%Q) in *.
  set (g1 := withOutputs (λ l, l ++ [mkOutput item rate m []]) g) in *.
  destruct (assemblers_loop _ _ _ _ _ _ g1 g' (mkOutput item rate m []) H)
    as (o' & Ho' & [= Hitem Hrate Hm] & Hlen & Ha' & Hlens & Hothers & Hk').
  { simpl. by rewrite list_lookup_middle. }
  { intros p Hp. by apply elem_of_nil in Hp. }
  split; [|split; [|split]].
  - exists o', recipe. simpl in *. rewrite length_seq in Hlen. by repeat split.
  - rewrite Hlens. simpl. rewrite length_app. simpl. lia.
  - intros j Hj. rewrite Hothers by lia. simpl. by rewrite lookup_app_l.
  - eapply keepsIndustries_trans; [|exact Hk']. by apply keepsIndustries_same.
Qed.

Lemma synthesize_delivers (fuel : nat) (db : Recipes) (todo : list (Item * Requirement)) :
  ∀ (done : list (Item * Requirement)) (g g' : FactoryGraph),
  forEach (addRequirement fuel db) todo g = Ok g' →
  length (outputNodes g) = length done →
  (∀ k r, done !! k = Some r → delivers db g k r) →
  length (outputNodes g') = length (done ++ todo)
  ∧ ∀ k r, (done ++ todo) !! k = Some r → delivers db g' k r.
Proof.
  induction todo as [|r todo IH]; intros done g g' H Hlen Hdone; simpl in H.
  - injection H as <-. by rewrite app_nil_r.
  - apply bind_Ok in H as (g1 & H1 & H2).
    destruct (addRequirement_delivers _ _ _ _ _ H1) as (Hnew & Hlen1 & Hold & Hk).
    replace (done ++ r :: todo) with ((done ++ [r]) ++ todo) by (by rewrite <- app_assoc).
    eapply IH; [exact H2| |].
    + rewrite Hlen1, length_app. simpl. lia.
    + intros k r0 Hk0. apply lookup_app_Some in Hk0 as [Hk0|[Hge Hk0]].
      * eapply delivers_keeps; [|exact Hk|by apply Hdone].
        apply Hold. apply lookup_lt_Some in Hk0. lia.
      * apply list_lookup_singleton_Some in Hk0 as [Hz <-].
        replace k with (length (outputNodes g)) by lia. done.
Qed.

(** X9.  In a graph that [buildFactory] returns there is one output node
    for each requirement, in the order of the requirements: it has the item
    of the requirement, the rate of one industry of the item times the
    count, the quantity to maintain, and as many producers as the count,
    each an industry of the item whose output is this output node. *)
Theorem buildFactory_outputs (fuel : nat) (db db' : Recipes)
    (requirements : list (Item * Requirement)) (g : FactoryGraph) :
  buildFactory fuel db requirements = (db', Ok g) →
  length (outputNodes g) = length requirements
  ∧ ∀ k requirement, requirements !! k = Some requirement → delivers db g k requirement.
Proof.
  unfold buildFactory. destruct (repair fuel db requirements) as [db1 r] eqn:E.
  intros [= -> H]. apply bind_Ok in H as (g2 & -> & H).
  apply bind_Ok in H as (u & _ & [= ->]).
  unfold repair in E.
  destruct (synthesize fuel db requirements) as [g0| |] eqn:E0; cbn [bind] in E;
    [|discriminate..].
  destruct (handleByproducts fuel db g0) as [g1| |] eqn:E1; [|discriminate..].
  apply settled_handleByproducts in E1 as [Ho1 Hk1].
  apply settled_handleIndustryLinks in E as [Ho2 Hk2].
  destruct (synthesize_delivers fuel db requirements [] emptyFactory g0 E0)
    as [Hlen Hall]; [done|by intros k r Hr|].
  split; [by rewrite Ho2, Ho1|].
  intros k r Hr. eapply delivers_keeps; [by rewrite Ho2|exact Hk2|].
  eapply delivers_keeps; [by rewrite Ho1|exact Hk1|]. by apply Hall.
Qed.

(** ** The ingredients a new transfer container takes over *)

Lemma insertByQuantity_sorted (x : Quantity) (l : list Quantity) :
  StronglySorted byQuantity l → StronglySorted byQuantity (insertByQuantity x l).
Proof.
  induction l as [|y l IH]; simpl; intros Hl.
  - by repeat constructor.
  - apply StronglySorted_inv in Hl as [Hl Hy].
    destruct (Qle_bool (quantity x) (quantity y)) eqn:E.
    + apply Qle_bool_iff in E. constructor; [by constructor|].
      constructor; [done|]. eapply Forall_impl; [exact Hy|].
      intros z Hz. unfold byQuantity in *. by eapply Qle_trans.
    + constructor; [by apply IH|]. rewrite insertByQuantity_Permutation.
      constructor; [|done]. unfold byQuantity. apply Qlt_le_weak, Qnot_le_lt.
      intros Hle. apply Qle_bool_iff in Hle. congruence.
Qed.

Lemma sortByQuantity_sorted (l : list Quantity) :
  StronglySorted byQuantity (sortByQuantity l).
Proof.
  induction l as [|x l IH]; simpl; [constructor|]. by apply insertByQuantity_sorted.
Qed.

(** X10.  A transfer container that [handleIndustryLinks] creates holds the
    first [exceedingLinks + 1] ingredient items of the sorted list, and no
    ingredient it leaves out has a smaller quantity than one it holds. *)
Theorem chooseTransferContainer_least_quantity (e : Z) (l : list Quantity)
    (g g' : FactoryGraph) (id : nat) :
  let sorted := sortByQuantity l in
  let n := Z.to_nat (e + 1) in
  chooseTransferContainer e (q_item <$> sorted) g = Ok (id, g') →
  id = length (transferContainers g) →
  ∃ tc, transferContainers g' !! id = Some tc
        ∧ items tc = q_item <$> take n sorted
        ∧ ∀ x y, x ∈ take n sorted → y ∈ drop n sorted → (quantity x <= quantity y)%Q.
Proof.
  intros sorted n H Hid. unfold chooseTransferContainer in H.
  destruct (find _ _) as [id0|] eqn:Ef.
  { injection H as -> _. apply find_Some_elem in Ef as [Hin _].
    unfold getTransferContainers in Hin. apply elem_of_indicesWhere in Hin as (tc & Htc & _).
    apply lookup_lt_Some in Htc. lia. }
  unfold newTransferContainer, createTransferContainer in H.
  apply bind_Ok in H as (g2 & H2 & [= <- <-]).
  assert (Hitems : ∃ tc, transferContainers g2 !! length (transferContainers g) = Some tc
                         ∧ items tc = q_item <$> take n sorted).
  { eapply (forEach_invariant
              (λ s, ∃ tc, transferContainers s !! length (transferContainers g) = Some tc
                          ∧ items tc = q_item <$> take n sorted)); [| |exact H2].
    - intros item s s' _ (tc & Htc & Hits) Hb. run_op Hb. simpl.
      rewrite list_lookup_alter. case_decide; subst.
      + rewrite Htc. simpl. eexists. split; [reflexivity|done].
      + by exists tc.
    - simpl. rewrite list_lookup_middle by done. eexists. split; [reflexivity|].
      simpl. by rewrite fmap_take. }
  destruct Hitems as (tc & Htc & Hits). exists tc. split; [done|]. split; [done|].
  intros x y Hx Hy.
  eapply (StronglySorted_app_1_elem_of byQuantity (take n sorted) (drop n sorted)); [|done..].
  rewrite take_drop. apply sortByQuantity_sorted.
Qed.

(** ** Byproducts that are taken already *)

(** X11.  On a graph in which every byproduct of the recipe of every
    container is carried by a consumer of the container, which is so when
    the recipes have no byproducts, [handleByproducts] returns the graph as
    it is: the test of lines 114-120 skips the rest of the loop. *)
Theorem handleByproducts_skips_handled (fuel : nat) (db : Recipes) (g : FactoryGraph) :
  (∀ id, handled db g id) →
  (length (containers g) <= fuel)%nat →
  handleByproducts fuel db g = Ok g.
Proof.
  intros Hall Hfuel. unfold handleByproducts.
  apply handleByproductsFrom_noop; [done|lia].
Qed.

(** ** Byproducts are stored *)

Lemma stored_step (g g' : FactoryGraph) :
  extends g g' →
  (∀ t u', transferUnits g' !! t = Some u' →
     ∃ u, transferUnits g !! t = Some u
          ∧ t_item u' = t_item u ∧ t_output u' = t_output u) →
  stored g → stored g'.
Proof.
  intros [Hc _] Hu Hs t u' Hu'.
  destruct (Hu t u' Hu') as (u & Hlook & Hitem & Hout).
  destruct (Hs t u Hlook) as (c & n & Ho & Hn & Hi).
  destruct (Hc c n Hn) as (n' & Hn' & Hgrow & _).
  exists c, n'. split; [congruence|]. split; [done|congruence].
Qed.

Lemma stored_t_takeFrom (t c : nat) (g g' : FactoryGraph) :
  t_takeFrom t (ContainerRef c) g = Ok g' → stored g → stored g'.
Proof.
  intros H. pose proof (extends_t_takeFrom _ _ _ _ H) as [Hext _].
  apply t_takeFrom_Ok in H as ->. apply stored_step; [done|].
  intros t0 u' Hu'. simpl in Hu'.
  apply lookup_alter_Some in Hu' as (u & Hu & [->| ->]); by exists u.
Qed.

Lemma byproductOutput_item (item : Item) (g g' : FactoryGraph) (o : nat) :
  byproductOutput item g = (o, g') →
  transferUnits g' = transferUnits g
  ∧ ∃ n, containers g' !! o = Some n ∧ c_item n = item.
Proof.
  unfold byproductOutput. destruct (lastWhere _ _) as [o0|] eqn:E.
  - intros [= <- <-]. split; [done|].
    apply lastWhere_Some in E as [Hin _]. by apply getContainers_item.
  - intros [= <- <-]. split; [done|]. simpl. rewrite list_lookup_middle by done.
    eexists. split; [reflexivity|done].
Qed.

Lemma stored_handleByproduct (c : nat) (b : Quantity) (g g' : FactoryGraph) :
  handleByproduct c b g = Ok g' → stored g → stored g'.
Proof.
  unfold handleByproduct. intros H Hs.
  apply bind_Ok in H as (node & _ & H).
  destruct (isConsumed g node (q_item b)); [by injection H as <-|].
  apply bind_Ok in H as ([t g1] & H1 & H2).
  eapply stored_t_takeFrom; [exact H2|].
  destruct (lastWhere _ _); [by injection H1 as _ <-|].
  destruct (createTransferUnit (q_item b) g) as [t0 g0] eqn:E0.
  destruct (byproductOutput (q_item b) g0) as [o g2] eqn:E2.
  apply bind_Ok in H1 as (g3 & H3 & [= <- <-]).
  pose proof (extends_createTransferUnit _ _ _ _ E0) as [Hext0 _].
  pose proof (extends_byproductOutput _ _ _ _ E2) as Hext2.
  pose proof (extends_t_outputTo _ _ _ _ H3) as Hext3.
  assert (Hext : extends g g3) by (do 2 (eapply extends_trans; [|eassumption]); done).
  destruct (byproductOutput_item _ _ _ _ E2) as (Hunits & n & Hn & Hitem).
  injection E0 as <- <-. simpl in Hunits.
  destruct Hext3 as [Hc3 _]. destruct (Hc3 _ _ Hn) as (n3 & Hn3 & Hgrow3 & _).
  apply t_outputTo_container_Ok in H3 as ->.
  intros t u' Hu'. simpl in Hu'. rewrite Hunits in Hu'.
  rewrite list_lookup_alter in Hu'. case_decide as Et.
  - subst t. rewrite list_lookup_middle in Hu' by done. injection Hu' as <-.
    exists o, n3. simpl. split; [done|]. split; [done|congruence].
  - apply lookup_app_Some in Hu' as [Hu'|[Hge Hu']].
    + destruct (Hs t u' Hu') as (c0 & n0 & Ho & Hn0 & Hi).
      destruct Hext as [Hc _]. destruct (Hc _ _ Hn0) as (n0' & Hn0' & Hgrow & _).
      exists c0, n0'. split; [done|]. split; [done|congruence].
    + apply list_lookup_singleton_Some in Hu' as [Hz _]. lia.
Qed.

(** X12.  [handleByproducts] keeps the transfer units stored: when every
    transfer unit of the graph outputs to a container that holds its item,
    so does every transfer unit of the graph returned, those created for
    the byproducts included. *)
Theorem handleByproducts_stores (fuel : nat) (db : Recipes) (g g' : FactoryGraph) :
  handleByproducts fuel db g = Ok g' → stored g → stored g'.
Proof.
  unfold handleByproducts. generalize 0%nat as idx. revert g g'.
  induction fuel as [|fuel IH]; intros g g' idx H Hs; simpl in H;
    destruct (containers g !! idx) as [c|]; try discriminate;
    try (by injection H as <-).
  destruct (isOre (c_item c)); [by eapply IH|].
  apply bind_Ok in H as (recipe & _ & H).
  apply bind_Ok in H as (g1 & H1 & H2).
  eapply IH; [exact H2|].
  eapply (forEach_invariant stored); [|exact Hs|exact H1].
  intros; by eapply stored_handleByproduct.
Qed.

(** ** The link resolver brings an industry within the limit *)

Lemma rewire_shrinks (i : nat) (p : NodeRef) (g g' : FactoryGraph) (node : IndustryNode) :
  rewire i p g = Ok g' →
  industries g !! i = Some node →
  ∃ node', industries g' !! i = Some node'
           ∧ (length (inputs node') < length (inputs node))%nat
           ∧ (∀ j, j ≠ i → industries g' !! j = industries g !! j)
           ∧ transferContainers g' = transferContainers g.
Proof.
  unfold rewire. intros H Hnode. destruct p as [|?|t|?|?]; try discriminate.
  apply bind_Ok in H as (unit & _ & H). apply bind_Ok in H as (node0 & Hn0%orThrow_Ok & H).
  assert (node0 = node) as -> by congruence.
  destruct (find _ _) as [[c| | | |]|] eqn:Ef; try discriminate.
  apply find_Some_elem in Ef as [Hin _].
  apply t_takeFrom_Ok in H as ->. simpl.
  exists (deleteInput (ContainerRef c) node). split.
  { by rewrite list_lookup_alter, decide_True, Hnode. }
  split; [by apply length_set_delete_elem|]. split; [|done].
  intros j Hj. by rewrite list_lookup_alter_ne.
Qed.

Lemma rewire_loop_shrinks (i : nat) (us : list NodeRef) :
  ∀ (g g' : FactoryGraph) (node : IndustryNode),
  forEach (rewire i) us g = Ok g' →
  industries g !! i = Some node →
  ∃ node', industries g' !! i = Some node'
           ∧ (length (inputs node') + length us <= length (inputs node))%nat
           ∧ (∀ j, j ≠ i → industries g' !! j = industries g !! j)
           ∧ transferContainers g' = transferContainers g.
Proof.
  induction us as [|p us IH]; intros g g' node H Hnode; simpl in H.
  - injection H as <-. exists node. split; [done|]. split; [simpl; lia|]. by split.
  - apply bind_Ok in H as (g1 & H1 & H2).
    destruct (rewire_shrinks _ _ _ _ _ H1 Hnode) as (n1 & Hn1 & Hlt & Ho1 & Ht1).
    destruct (IH _ _ _ H2 Hn1) as (n2 & Hn2 & Hle & Ho2 & Ht2).
    exists n2. split; [done|]. split; [simpl; lia|]. split; [|congruence].
    intros j Hj. by rewrite Ho2, Ho1.
Qed.

(** Lines 204-207, [seen] being the number of units created so far. *)
Lemma newTransferUnits_count (id : nat) (its : list Item) :
  ∀ (g g' : FactoryGraph) (tc : TransferContainerNode),
  forEach (λ item s,
             let '(transferUnit, s1) := createTransferUnit item s in
             t_outputTo transferUnit (TransferContainerRef id) s1) its g = Ok g' →
  transferContainers g !! id = Some tc →
  (∀ p, p ∈ tc_producers tc → ∃ t, p = TransferRef t ∧ (t < length (transferUnits g))%nat) →
  ∃ tc', transferContainers g' !! id = Some tc'
         ∧ items tc' = items tc
         ∧ length (tc_producers tc') = (length (tc_producers tc) + length its)%nat
         ∧ industries g' = industries g
         ∧ length (transferContainers g') = length (transferContainers g)
         ∧ ∀ j, j ≠ id → transferContainers g' !! j = transferContainers g !! j.
Proof.
  induction its as [|item its IH]; intros g g' tc H Htc Hold; simpl in H.
  - injection H as <-. exists tc. rewrite Nat.add_0_r. by split_and!.
  - apply bind_Ok in H as (g0 & H1 & H2).
    unfold createTransferUnit, t_outputTo in H1. cbv beta iota in H1.
    apply bind_Ok in H1 as (u & _ & H1).
    apply bind_Ok in H1 as (tc0 & Htc0%orThrow_Ok & H1).
    destruct (tc_canAddIncomingLinks tc0 1); [|discriminate]. injection H1 as <-.
    simpl in Htc0. assert (tc0 = tc) as -> by congruence.
    set (t := length (transferUnits g)) in *.
    set (g1 := withTransferUnits _ _) in *.
    assert (Hadd : tc_producers (tc_addProducer (TransferRef t) tc)
                   = tc_producers tc ++ [TransferRef t]).
    { simpl. unfold set_add. rewrite bool_decide_eq_false_2; [done|].
      intros Hin. destruct (Hold _ Hin) as (t0 & [= <-] & Hlt). unfold t in Hlt. lia. }
    destruct (IH g1 g' (tc_addProducer (TransferRef t) tc) H2) as
      (tc' & Htc' & Hits & Hlen & Hind & Hlens & Hothers).
    { simpl. by rewrite list_lookup_alter, decide_True, Htc. }
    { intros p Hp. rewrite Hadd in Hp. simpl.
      rewrite length_alter, length_app. simpl.
      apply elem_of_app in Hp as [Hp|Hp].
      - destruct (Hold _ Hp) as (t0 & -> & Hlt). exists t0. split; [done|]. unfold t. lia.
      - apply list_elem_of_singleton in Hp as ->. exists t. split; [done|]. unfold t. lia. }
    exists tc'. split; [done|]. split; [done|]. split.
    { rewrite Hlen, Hadd, length_app. simpl. lia. }
    split; [done|]. split.
    { rewrite Hlens. simpl. by rewrite length_alter. }
    intros j Hj. rewrite Hothers by done. simpl. by rewrite list_lookup_alter_ne.
Qed.

Lemma chooseTransferContainer_units (e : Z) (its : list Item) (g g1 : FactoryGraph)
    (id : nat) :
  unitPerItem g →
  0 <= e →
  e + 1 <= Z.of_nat (length its) →
  chooseTransferContainer e its g = Ok (id, g1) →
  (∃ tc, transferContainers g1 !! id = Some tc
         ∧ e + 1 <= Z.of_nat (length (tc_producers tc)))
  ∧ industries g1 = industries g
  ∧ unitPerItem g1.
Proof.
  intros Hunits He Hlen. unfold chooseTransferContainer.
  destruct (find _ _) as [id0|] eqn:Ef.
  - intros [= <- <-]. split; [|done].
    apply find_Some_elem in Ef as [_ Huse]. unfold usableTransferContainer in Huse.
    destruct (transferContainers g !! id0) as [tc|] eqn:Htc; [|discriminate].
    simpl in Huse. apply andb_true_iff in Huse as [Huse _].
    apply andb_true_iff in Huse as [Huse _]. apply negb_true_iff, Z.ltb_ge in Huse.
    exists tc. split; [done|]. rewrite (Hunits _ _ Htc). lia.
  - unfold newTransferContainer, createTransferContainer. intros H.
    apply bind_Ok in H as (g2 & H2 & [= <- <-]).
    set (taken := firstn (Z.to_nat (e + 1)) its) in *.
    destruct (newTransferUnits_count _ _ _ _ (mkTransferContainer taken [] []) H2)
      as (tc' & Htc' & Hits & Hcount & Hind & Hlens & Hothers).
    { simpl. by rewrite list_lookup_middle. }
    { intros p Hp. by apply elem_of_nil in Hp. }
    simpl in *. split; [|split; [done|]].
    + exists tc'. split; [done|]. rewrite Hcount. unfold taken.
      rewrite length_take. lia.
    + intros j tc Hj. destruct (decide (j = length (transferContainers g))) as [->|Hne].
      * assert (tc = tc') as -> by congruence. by rewrite Hcount, Hits.
      * rewrite Hothers in Hj by done. apply lookup_app_Some in Hj as [Hj|[Hge Hj]].
        -- by eapply Hunits.
        -- apply list_lookup_singleton_Some in Hj as [Hz _]. lia.
Qed.

(** Lines 168-235 for one industry that has enough ingredients: one more
    than the links in excess. *)
Lemma resolveLinks_limit (i : nat) (its : list Item) (g g' : FactoryGraph)
    (node : IndustryNode) :
  unitPerItem g →
  industries g !! i = Some node →
  i_incomingLinkCount node - MAX_INDUSTRY_LINKS + 1 <= Z.of_nat (length its) →
  resolveLinks i its g = Ok g' →
  (∃ node', industries g' !! i = Some node'
            ∧ i_incomingLinkCount node' <= MAX_INDUSTRY_LINKS)
  ∧ (∀ j, j ≠ i → industries g' !! j = industries g !! j)
  ∧ unitPerItem g'.
Proof.
  intros Hunits Hnode Hlen. unfold resolveLinks. rewrite Hnode. cbn [orThrow bind].
  destruct (_ >? 0) eqn:He.
  2: { intros [= <-]. split; [|done]. exists node. split; [done|]. lia. }
  intros H. apply bind_Ok in H as ([id g1] & Hchoose & H).
  assert (Hpos : 0 <= i_incomingLinkCount node - MAX_INDUSTRY_LINKS) by lia.
  destruct (chooseTransferContainer_units _ _ _ _ _ Hunits Hpos Hlen Hchoose)
    as ((tc & Htc & Hcount) & Hind & Hunits1).
  unfold relink in H. rewrite Htc in H. cbn [orThrow bind] in H.
  apply bind_Ok in H as (g2 & Hloop & H).
  assert (Hnode1 : industries g1 !! i = Some node) by (by rewrite Hind).
  destruct (rewire_loop_shrinks _ _ _ _ _ Hloop Hnode1) as (n2 & Hn2 & Hle & Hothers & Htcs).
  run_op H. simpl. split; [|split].
  - exists (addInput (TransferContainerRef id) n2). split.
    { by rewrite list_lookup_alter, decide_True, Hn2. }
    unfold i_incomingLinkCount in *. simpl.
    pose proof (length_set_add (TransferContainerRef id) (inputs n2)). lia.
  - intros j Hj. rewrite list_lookup_alter_ne by done. rewrite Hothers by done.
    by rewrite Hind.
  - intros j tcj Hj. simpl in Hj. rewrite Htcs in Hj.
    apply lookup_alter_Some in Hj as (tc0 & Htc0 & [->| ->]); [by eapply Hunits1|].
    simpl. by eapply Hunits1.
Qed.

Lemma findRecipe_reordered_back (db db' : Recipes) (item : Item) (r' : Recipe) :
  Forall2 reordered db db' →
  findRecipe db' item = Some r' →
  ∃ r, findRecipe db item = Some r ∧ reordered r r'.
Proof.
  unfold findRecipe. induction 1 as [|r1 r2 l1 l2 Hr Hl IH]; simpl; [done|].
  assert (makes item r2 = makes item r1) as ->.
  { unfold makes. destruct Hr as (-> & _). done. }
  destruct (makes item r1); [|done]. intros [= <-]. eauto.
Qed.

Lemma handleIndustryLinksOver_limit (ids : list nat) :
  ∀ (db db' : Recipes) (g g' : FactoryGraph),
  NoDup ids →
  unitPerItem g →
  enoughIngredients db g ids →
  handleIndustryLinksOver ids db g = (db', Ok g') →
  (∀ i, i ∈ ids → ∃ node', industries g' !! i = Some node'
                           ∧ i_incomingLinkCount node' <= MAX_INDUSTRY_LINKS)
  ∧ (∀ j, j ∉ ids → industries g' !! j = industries g !! j)
  ∧ unitPerItem g'.
Proof.
  induction ids as [|i ids IH]; intros db db' g g' Hnd Hunits Henough H; simpl in H.
  - injection H as _ <-. split; [|done]. by intros i Hi%elem_of_nil.
  - apply NoDup_cons in Hnd as [Hi Hnd].
    pose proof (handleIndustry_reordered i db g) as Hdb.
    destruct (handleIndustry i db g) as [db1 [g1|e|]] eqn:E; [|discriminate..].
    simpl in Hdb. unfold handleIndustry in E.
    destruct (industries g !! i) as [node|] eqn:Hnode; [|discriminate].
    destruct (findRecipe db (i_item node)) as [recipe|] eqn:Hrecipe; [|discriminate].
    injection E as _ E.
    destruct (resolveLinks_limit i (map q_item (sortByQuantity (ingredients recipe)))
                g g1 node Hunits Hnode)
      as ((n1 & Hn1 & Hle1) & Hothers1 & Hunits1); [|exact E|].
    { rewrite length_map, (Permutation_length (sortByQuantity_Permutation _)).
      eapply Henough; [by left|done..]. }
    destruct (IH db1 db' g1 g' Hnd Hunits1) as (Hin & Hout & Hunits'); [|exact H|].
    { intros j nj rj Hj Hnj Hrj.
      assert (j ≠ i) by (by intros ->).
      rewrite Hothers1 in Hnj by done.
      destruct (findRecipe_reordered_back _ _ _ _ Hdb Hrj) as (r & Hr & _ & _ & _ & Hperm).
      rewrite (Permutation_length Hperm). eapply Henough; [by right|done..]. }
    split; [|split; [|done]].
    + intros j [->|Hj]%elem_of_cons; [|by apply Hin].
      exists n1. rewrite Hout by done. done.
    + intros j Hj. apply not_elem_of_cons in Hj as [Hne Hj].
      rewrite Hout by done. by apply Hothers1.
Qed.

(** X13.  When every industry has enough ingredients for the link resolver
    (one more than its incoming links in excess of the limit) and every
    transfer container has one transfer unit for each of its items, every
    industry of the graph that [handleIndustryLinks] returns has at most
    [MAX_INDUSTRY_LINKS] incoming links. *)
Theorem handleIndustryLinks_resolves (db db' : Recipes) (g g' : FactoryGraph) :
  unitPerItem g →
  enoughIngredients db g (seq 0 (length (industries g))) →
  handleIndustryLinks db g = (db', Ok g') →
  ∀ i node', industries g' !! i = Some node' →
  i_incomingLinkCount node' <= MAX_INDUSTRY_LINKS.
Proof.
  intros Hunits Henough H i node' Hnode'.
  destruct (handleIndustryLinksOver_limit _ _ _ _ _ (NoDup_seq _ _) Hunits Henough H)
    as (Hin & Hout & _).
  destruct (decide (i ∈ seq 0 (length (industries g)))) as [Hi|Hi].
  - destruct (Hin i Hi) as (n & Hn & Hle). by assert (n = node') as -> by congruence.
  - rewrite Hout in Hnode' by done. apply lookup_lt_Some in Hnode'.
    exfalso. apply Hi, elem_of_seq. lia.
Qed.

(** ** The graph handed over is consistent *)

(** X14.  In a graph that [buildFactory] returns, the recipes listing no
    item twice among their ingredients: a container that an industry takes
    from has the industry among its consumers; the consumers of a container
    are distinct and within its capacity; the transfer units of a transfer
    container carry distinct items. *)
Theorem buildFactory_consistent (fuel : nat) (db db' : Recipes)
    (requirements : list (Item * Requirement)) (g : FactoryGraph) :
  0 <= MAX_CONTAINER_LINKS →
  distinctIngredients db →
  buildFactory fuel db requirements = (db', Ok g) →
  consistent g.
Proof.
  intros Hmax Hdb. unfold buildFactory.
  destruct (repair fuel db requirements) as [db1 r] eqn:E.
  intros [= -> H]. apply bind_Ok in H as (g2 & -> & H).
  apply bind_Ok in H as (u & _ & [= ->]).
  by destruct (consistent_repair _ _ _ _ _ Hmax Hdb E).
Qed.

(** ** The link resolver touches the industries above the limit only *)

Lemma chooseTransferContainer_industries (e : Z) (its : list Item) (g g' : FactoryGraph)
    (id : nat) :
  chooseTransferContainer e its g = Ok (id, g') → industries g' = industries g.
Proof.
  intros H.
  eapply (stable_chooseTransferContainer (λ s, industries s = industries g));
    [..|exact H|done]; frame.
Qed.

Lemma resolveLinks_others (i : nat) (its : list Item) (g g' : FactoryGraph) :
  resolveLinks i its g = Ok g' →
  (∀ j, j ≠ i → industries g' !! j = industries g !! j)
  ∧ (∀ node, industries g !! i = Some node →
       i_incomingLinkCount node <= MAX_INDUSTRY_LINKS → g' = g).
Proof.
  unfold resolveLinks. intros H. apply bind_Ok in H as (node & Hnode%orThrow_Ok & H).
  destruct (_ >? 0) eqn:He.
  2: { injection H as <-. split; [done|]. done. }
  split.
  2: { intros node0 Hn0 Hle. assert (node0 = node) as -> by congruence. lia. }
  apply bind_Ok in H as ([id g1] & Hchoose & H).
  apply chooseTransferContainer_industries in Hchoose as Hind.
  unfold relink in H. apply bind_Ok in H as (tc & _ & H).
  apply bind_Ok in H as (g2 & Hloop & H).
  assert (Hnode1 : industries g1 !! i = Some node) by (by rewrite Hind).
  destruct (rewire_loop_shrinks _ _ _ _ _ Hloop Hnode1) as (n2 & _ & _ & Hothers & _).
  run_op H. simpl. intros j Hj.
  rewrite list_lookup_alter_ne by done. rewrite Hothers by done. by rewrite Hind.
Qed.

Lemma handleIndustryLinksOver_untouched (ids : list nat) :
  ∀ (db db' : Recipes) (g g' : FactoryGraph) (i : nat) (node : IndustryNode),
  handleIndustryLinksOver ids db g = (db', Ok g') →
  industries g !! i = Some node →
  i_incomingLinkCount node <= MAX_INDUSTRY_LINKS →
  industries g' !! i = Some node.
Proof.
  induction ids as [|k ids IH]; intros db db' g g' i node H Hnode Hle; simpl in H.
  - by injection H as _ <-.
  - destruct (handleIndustry k db g) as [db1 [g1|e|]] eqn:E; [|discriminate..].
    unfold handleIndustry in E.
    destruct (industries g !! k) as [nk|] eqn:Hk; [|discriminate].
    destruct (findRecipe db (i_item nk)) as [recipe|]; [|discriminate].
    injection E as _ E. destruct (resolveLinks_others _ _ _ _ E) as [Hothers Hsame].
    eapply IH; [exact H| |exact Hle].
    destruct (decide (i = k)) as [->|Hne].
    + assert (nk = node) as -> by congruence. by rewrite (Hsame node Hk Hle).
    + by rewrite Hothers.
Qed.

(** X15.  [handleIndustryLinks] leaves an industry that has at most
    [MAX_INDUSTRY_LINKS] incoming links as it is, whatever it does for the
    other industries. *)
Theorem handleIndustryLinks_untouched (db db' : Recipes) (g g' : FactoryGraph)
    (i : nat) (node : IndustryNode) :
  handleIndustryLinks db g = (db', Ok g') →
  industries g !! i = Some node →
  i_incomingLinkCount node <= MAX_INDUSTRY_LINKS →
  industries g' !! i = Some node.
Proof. intros H. by eapply handleIndustryLinksOver_untouched. Qed.

(** ** The production chain *)

Lemma wired_keeps (db : Recipes) (g g' : FactoryGraph) :
  keepsWiring db g g' → wired db g → wired db g'.
Proof.
  intros [Hitems Hind] Hw i node' Hnode'.
  destruct (Hind i node' Hnode') as [[Hfeeds Hnone]|(node & Hnode & Hshape & Hsub)].
  { split; [done|]. intros c Hc. rewrite Hnone in Hc. by apply elem_of_nil in Hc. }
  destruct (Hw i node Hnode) as [(dst & Hout & Hdst) Hin].
  unfold industryShape in Hshape. injection Hshape as Hi Ho. split.
  - exists dst. split; [congruence|]. rewrite Hi. by apply Hitems.
  - intros c Hc. destruct (Hsub c Hc) as [Hold|Hnew]; [|done].
    destruct (Hin c Hold) as (recipe & q & Hr & Hq & Hc').
    exists recipe, q. rewrite Hi. split; [done|]. split; [done|]. by apply Hitems.
Qed.

(** The steps that create no industry and add no container to the inputs
    of one. *)
Ltac wires :=
  intros;
  match goal with
  | H : createContainer _ _ = _ |- _ => run_op H
  | H : createSplitContainer _ _ _ = _ |- _ => run_op H
  | H : createTransferUnit _ _ = _ |- _ => run_op H
  | H : createTransferContainer _ _ = _ |- _ => run_op H
  | H : i_takeFrom _ (TransferContainerRef _) _ = _ |- _ => run_op H
  | H : t_outputTo _ _ _ = _ |- _ => run_op H
  | H : t_takeFrom _ _ _ = _ |- _ => run_op H
  | |- _ => idtac
  end;
  (eapply wired_keeps; [|eassumption]); split;
  [ keeps_items
  | let i0 := fresh "i" in
    let node' := fresh "node'" in
    let Hn := fresh "Hn" in
    let x := fresh "x" in
    let c := fresh "c" in
    let Hc := fresh "Hc" in
    intros i0 node' Hn; right; simpl in Hn;
    first
      [ by exists node'; split_and!; [done..|by left]
      | apply lookup_alter_Some in Hn as (x & Hn & [->| ->]);
        exists x; (split; [done|]); (split; [done|]);
        intros c Hc; left; simpl in Hc;
        first [ done
              | by apply elem_of_set_delete in Hc as [_ ?]
              | by apply elem_of_set_add in Hc as [?|?] ] ] ].

Lemma wired_handleByproducts (fuel : nat) (db : Recipes) (g g' : FactoryGraph) :
  handleByproducts fuel db g = Ok g' → wired db g → wired db g'.
Proof.
  intros H. eapply (stable_handleByproducts (wired db)); [..|exact H]; wires.
Qed.

Lemma wired_handleIndustryLinks (db0 db db' : Recipes) (g g' : FactoryGraph) :
  handleIndustryLinks db g = (db', Ok g') → wired db0 g → wired db0 g'.
Proof.
  intros H. eapply (stable_handleIndustryLinksOver (wired db0)); [..|exact H]; wires.
Qed.

Lemma keepsWiring_newIndustry (db : Recipes) (item : Item) (dst : NodeRef)
    (g g' : FactoryGraph) :
  (let '(industry, g1) := createIndustry item g in i_outputTo industry dst g1) = Ok g' →
  itemOf g dst = Some item →
  keepsWiring db g g'
  ∧ ∃ node, industries g' !! length (industries g) = Some node ∧ i_item node = item.
Proof.
  intros H Hdst. unfold createIndustry, i_outputTo in H. cbv beta iota in H.
  apply bind_Ok in H as (x & _ & H).
  assert (Hg' : ∃ g2, industries g2 = industries g ++ [mkIndustry item [] None]
                      ∧ g' = withIndustries (alter (setOutput dst) (length (industries g))) g2
                      ∧ ∀ k it, itemOf g k = Some it → itemOf g2 k = Some it).
  { destruct dst as [c| | | |o]; try discriminate;
      apply bind_Ok in H as (y & _ & H);
      [destruct (canAddIncomingLinks y 1); [|discriminate]|];
      injection H as <-; eexists; (split; [|split; [reflexivity|]]); try done;
      intros [j|j|j|j|j] it; simpl; try done;
      first [apply lookup_snoc_keeps | by rewrite ?lookup_alter_keeps]. }
  destruct Hg' as (g2 & Hind & -> & Hitems2).
  assert (Hitems : ∀ k it, itemOf g k = Some it
                           → itemOf (withIndustries (alter (setOutput dst)
                                                      (length (industries g))) g2) k = Some it).
  { intros k it Hk. apply Hitems2 in Hk. destruct k as [j|j|j|j|j]; simpl in *; try done.
    by rewrite lookup_alter_keeps. }
  split; [split; [done|]|].
  - intros j node' Hj. simpl in Hj. rewrite Hind, list_lookup_alter in Hj.
    case_decide as E.
    + subst j. rewrite list_lookup_middle in Hj by done. injection Hj as <-.
      left. split; [|done]. exists dst. split; [done|]. by apply Hitems.
    + right. apply lookup_app_Some in Hj as [Hj|[Hge Hj]].
      * exists node'. split; [done|]. split; [done|]. by left.
      * apply list_lookup_singleton_Some in Hj as [Hz _]. lia.
  - simpl. rewrite Hind, list_lookup_alter, decide_True, list_lookup_middle by done.
    eexists. split; [reflexivity|done].
Qed.

Lemma keepsWiring_i_takeFrom (db : Recipes) (i c : nat) (g g' : FactoryGraph)
    (node : IndustryNode) (recipe : Recipe) (q : Quantity) :
  i_takeFrom i (ContainerRef c) g = Ok g' →
  industries g !! i = Some node →
  findRecipe db (i_item node) = Some recipe →
  q ∈ ingredients recipe →
  itemOf g (ContainerRef c) = Some (q_item q) →
  keepsWiring db g g'.
Proof.
  intros H Hnode Hrecipe Hq Hc.
  pose proof (extends_i_takeFrom _ _ _ _ H) as [_ Hitems].
  run_op H. split; [done|]. intros j node' Hj. right. simpl in Hj.
  rewrite list_lookup_alter in Hj. case_decide as E.
  - subst j. rewrite Hnode in Hj. injection Hj as <-. exists node.
    split; [done|]. split; [done|]. intros c0 Hc0. simpl in Hc0.
    apply elem_of_set_add in Hc0 as [[= ->]|Hc0]; [|by left].
    right. exists recipe, q. split; [done|]. split; [done|]. by apply Hitems.
  - exists node'. split; [done|]. split; [done|]. by left.
Qed.

Lemma keepsIndustries_i_takeFrom (i : nat) (src : NodeRef) (g g' : FactoryGraph) :
  i_takeFrom i src g = Ok g' → keepsIndustries g g'.
Proof.
  intros H. unfold i_takeFrom in H. apply bind_Ok in H as (x & _ & H).
  destruct src; try discriminate; apply bind_Ok in H as (y & _ & H);
    match type of H with (if ?b then _ else _) = _ => destruct b; [|discriminate] end;
    injection H as <-; by eapply (keepsIndustries_alter (addInput _)).
Qed.

Lemma industry_persists (g g' : FactoryGraph) (i : nat) (item : Item) :
  keepsIndustries g g' →
  (∃ node, industries g !! i = Some node ∧ i_item node = item) →
  ∃ node, industries g' !! i = Some node ∧ i_item node = item.
Proof.
  intros Hk (node & Hnode & Hitem). destruct (Hk i node Hnode) as (node' & Hn' & Hs).
  unfold industryShape in Hs. injection Hs as Hs _. exists node'. split; [done|congruence].
Qed.

(** Lines 92-94 and 295-297 *)
Lemma wired_takeFromAll (db : Recipes) (i : nat) (item : Item) (recipe : Recipe)
    (q : Quantity) (ins : list nat) :
  ∀ g g' : FactoryGraph,
  forEach (λ input g2, i_takeFrom i (ContainerRef input) g2) ins g = Ok g' →
  findRecipe db item = Some recipe →
  q ∈ ingredients recipe →
  (∀ c, c ∈ ins → itemOf g (ContainerRef c) = Some (q_item q)) →
  (∃ node, industries g !! i = Some node ∧ i_item node = item) →
  wired db g →
  wired db g' ∧ ∃ node, industries g' !! i = Some node ∧ i_item node = item.
Proof.
  induction ins as [|c ins IH]; intros g g' H Hrecipe Hq Hins Hi Hw; simpl in H.
  - by injection H as <-.
  - apply bind_Ok in H as (g1 & H1 & H2).
    destruct Hi as (node & Hnode & Hitem).
    assert (Hk : keepsWiring db g g1).
    { eapply keepsWiring_i_takeFrom; [exact H1|exact Hnode|by rewrite Hitem|exact Hq|].
      apply Hins. by left. }
    eapply IH; [exact H2|done|done| | |by eapply wired_keeps].
    + intros c0 Hc0. destruct Hk as [Hitems _]. apply Hitems, Hins. by right.
    + eapply industry_persists; [by eapply keepsIndustries_i_takeFrom|eauto].
Qed.

Lemma wired_buildIngredients (db : Recipes)
    (rec : Item -> Q -> FactoryGraph -> Result (list nat * FactoryGraph))
    (i : nat) (item : Item) (recipe : Recipe) (g g' : FactoryGraph) :
  (∀ it rate s s' outs, rec it rate s = Ok (outs, s') →
     (wired db s → wired db s')
     ∧ (∀ c, c ∈ outs → itemOf s' (ContainerRef c) = Some it)
     ∧ keepsIndustries s s') →
  findRecipe db item = Some recipe →
  (∃ node, industries g !! i = Some node ∧ i_item node = item) →
  buildIngredients rec i recipe g = Ok g' →
  wired db g → wired db g'.
Proof.
  intros Hrec Hrecipe Hi H Hw. unfold buildIngredients in H.
  eapply proj1.
  eapply (forEach_invariant
            (λ s, wired db s ∧ ∃ node, industries s !! i = Some node ∧ i_item node = item));
    [|split; [exact Hw|exact Hi]|exact H].
  intros q s s' Hq [Hs Hsi] Hbody. simpl in Hbody.
  apply bind_Ok in Hbody as ([ins s1] & H1 & H2).
  destruct (Hrec _ _ _ _ _ H1) as (Hw1 & Hins & Hk1).
  eapply wired_takeFromAll; [exact H2|exact Hrecipe|exact Hq|exact Hins| |by apply Hw1].
  by eapply industry_persists.
Qed.

Lemma produce_contract (fuel : nat) (db : Recipes) (item : Item) (rate : Q)
    (g g' : FactoryGraph) (outs : list nat) :
  1 <= MAX_CONTAINER_LINKS →
  produce fuel db item rate g = Ok (outs, g') →
  (∀ c, c ∈ outs → itemOf g' (ContainerRef c) = Some item) ∧ keepsIndustries g g'.
Proof.
  intros Hmax H. split.
  - destruct (produce_items _ _ _ _ _ _ _ Hmax H) as [_ Hitems].
    intros c Hc. destruct (Hitems c Hc) as (node & Hnode & Hitem). simpl.
    rewrite Hnode. simpl. congruence.
  - eapply settled_produce; [exact H|]. split; [done|apply keepsIndustries_refl].
Qed.

Lemma wired_addIndustry (fuel : nat) (db : Recipes) (item : Item) (recipe : Recipe)
    (outs : list nat) (k : nat) (g g' : FactoryGraph) :
  1 <= MAX_CONTAINER_LINKS →
  (∀ it rate s s' outs, produce fuel db it rate s = Ok (outs, s') →
     wired db s → wired db s') →
  findRecipe db item = Some recipe →
  (∀ c, c ∈ outs → itemOf g (ContainerRef c) = Some item) →
  addIndustry (produce fuel db) item recipe outs k g = Ok g' →
  wired db g → wired db g'.
Proof.
  intros Hmax IH Hrecipe Houts H Hw. unfold addIndustry in H.
  destruct (createIndustry item g) as [industry g1] eqn:E1.
  apply bind_Ok in H as (out & Hout%orThrow_Ok & H).
  apply bind_Ok in H as (g2 & H2 & H3).
  destruct (keepsWiring_newIndustry db item (ContainerRef out) g g2) as [Hk Hnew].
  { by rewrite E1. }
  { apply Houts. by eapply list_elem_of_lookup_2. }
  injection E1 as <- _.
  eapply wired_buildIngredients; [|exact Hrecipe|exact Hnew|exact H3|by eapply wired_keeps].
  intros it rate s s' os Hrun. split; [by eapply IH|by eapply produce_contract].
Qed.

Lemma wired_produce (fuel : nat) (db : Recipes) :
  1 <= MAX_CONTAINER_LINKS →
  ∀ item rate g g' outs,
  produce fuel db item rate g = Ok (outs, g') → wired db g → wired db g'.
Proof.
  intros Hmax.
  induction fuel as [|fuel IH]; intros item rate g g' outs H Hw; simpl in H; [discriminate|].
  destruct (isOre item).
  { destruct (find _ _) as [c|]; [by injection H as _ <-|].
    destruct (createContainer item g) as [c g1] eqn:E. injection H as _ <-.
    revert E Hw. wires. }
  destruct (find _ _) as [c|]; [by injection H as _ <-|].
  apply bind_Ok in H as (recipe & Hrecipe%orThrow_Ok & H).
  assert (Hloop : ∀ outs0 ks s s',
            forEach (addIndustry (produce fuel db) item recipe outs0) ks s = Ok s' →
            (∀ c, c ∈ outs0 → itemOf s (ContainerRef c) = Some item) →
            wired db s → wired db s').
  { intros outs0 ks. induction ks as [|k ks IHks]; intros s s' Hrun Houts Hs; simpl in Hrun.
    - by injection Hrun as <-.
    - apply bind_Ok in Hrun as (s1 & H1 & H2).
      eapply IHks; [exact H2| |by eapply wired_addIndustry].
      assert (Hext : extends s s1).
      { eapply (extends_addIndustries fuel db item recipe outs0 [k]). simpl. by rewrite H1. }
      intros c0 Hc0. destruct Hext as [_ Hitems]. by apply Hitems, Houts. }
  destruct (existingOutput db rate recipe g (getContainers g item)) as [[c n]|] eqn:E.
  - apply bind_Ok in H as (g1 & H1 & [= _ <-]).
    eapply Hloop; [exact H1| |done].
    intros c0 ->%list_elem_of_singleton. apply existingOutput_elem in E.
    apply getContainers_item in E as (node & Hnode & Hitem). simpl.
    rewrite Hnode. simpl. congruence.
  - destruct (newOutputs item rate recipe g) as [[outs0 n] g0] eqn:E0.
    apply bind_Ok in H as (g1 & H1 & [= _ <-]).
    eapply Hloop; [exact H1| |].
    + destruct (newOutputs_items _ _ _ _ _ _ _ Hmax E0) as [_ Hitems].
      intros c0 Hc0. destruct (Hitems c0 Hc0) as (node & Hnode & Hitem).
      simpl. rewrite Hnode. simpl. congruence.
    + eapply (stable_newOutputs (wired db)); [..|exact E0|exact Hw]; wires.
Qed.

Lemma wired_addRequirement (fuel : nat) (db : Recipes) (requirement : Item * Requirement)
    (g g' : FactoryGraph) :
  1 <= MAX_CONTAINER_LINKS →
  addRequirement fuel db requirement g = Ok g' → wired db g → wired db g'.
Proof.
  intros Hmax. destruct requirement as [item [n m]]. unfold addRequirement. intros H Hw.
  apply bind_Ok in H as (recipe & Hrecipe%orThrow_Ok & H).
  unfold createOutput in H.
  set (k := length (outputNodes g)) in *.
  set (g1 := withOutputs _ g) in *.
  eapply proj1.
  eapply (forEach_invariant
            (λ s, wired db s ∧ itemOf s (OutputRef k) = Some item)); [| |exact H].
  - intros x s s' _ [Hs Hout] Hb. cbv beta in Hb.
    destruct (createIndustry item s) as [industry s1] eqn:E1.
    apply bind_Ok in Hb as (s2 & H2 & H3).
    destruct (keepsWiring_newIndustry db item (OutputRef k) s s2) as [Hk Hnew];
      [by rewrite E1|done|].
    injection E1 as <- _.
    assert (Hext : extends s2 s').
    { eapply (kept_buildIngredients (extends s2)); [..|exact H3|apply extends_refl];
        first [ apply extends_produce
              | intros i c s3 s4 H4 H5; eapply extends_trans; [exact H5|];
                by eapply extends_i_takeFrom ]. }
    split.
    + eapply wired_buildIngredients; [|exact Hrecipe|exact Hnew|exact H3|by eapply wired_keeps].
      intros it rate s3 s4 os Hrun.
      split; [by eapply wired_produce|by eapply produce_contract].
    + destruct Hext as [_ Hitems]. apply Hitems. destruct Hk as [Hitems2 _]. by apply Hitems2.
  - split.
    + eapply wired_keeps; [|exact Hw]. split.
      * intros [j|j|j|j|j] it; simpl; try done. apply lookup_snoc_keeps.
      * intros i node' Hn. right. exists node'. split; [done|]. split; [done|]. by left.
    + simpl. unfold k. by rewrite list_lookup_middle.
Qed.

(** X16.  In a graph that [buildFactory] returns, every industry outputs to
    a node that carries the item it makes, and every container it takes
    from holds an ingredient of the recipe of that item. *)
Theorem buildFactory_wired (fuel : nat) (db db' : Recipes)
    (requirements : list (Item * Requirement)) (g : FactoryGraph) :
  1 <= MAX_CONTAINER_LINKS →
  buildFactory fuel db requirements = (db', Ok g) →
  wired db g.
Proof.
  intros Hmax. unfold buildFactory.
  destruct (repair fuel db requirements) as [db1 r] eqn:E.
  intros [= -> H]. apply bind_Ok in H as (g2 & -> & H).
  apply bind_Ok in H as (u & _ & [= ->]). unfold repair in E.
  destruct (synthesize fuel db requirements) as [g0| |] eqn:E0; cbn [bind] in E;
    [|discriminate..].
  destruct (handleByproducts fuel db g0) as [g1| |] eqn:E1; [|discriminate..].
  eapply wired_handleIndustryLinks; [exact E|].
  eapply wired_handleByproducts; [exact E1|].
  unfold synthesize in E0.
  eapply (forEach_invariant (wired db)); [| |exact E0].
  - intros; by eapply wired_addRequirement.
  - intros i node Hnode. simpl in Hnode. by rewrite lookup_nil in Hnode.
Qed.

(** ** A second pass of the link resolver *)

Lemma sortByQuantity_id (l : list Quantity) :
  StronglySorted byQuantity l → sortByQuantity l = l.
Proof.
  induction l as [|x l IH]; simpl; [done|]. intros Hl.
  apply StronglySorted_inv in Hl as [Hl Hx]. rewrite IH by done.
  destruct l as [|y l]; [done|]. simpl.
  apply Forall_cons in Hx as [Hxy _]. unfold byQuantity in Hxy.
  apply Qle_bool_iff in Hxy. by rewrite Hxy.
Qed.

Lemma setIngredients_same (db : Recipes) (item : Item) (r : Recipe) :
  findRecipe db item = Some r → setIngredients item (ingredients r) db = db.
Proof.
  unfold findRecipe. induction db as [|r0 db IH]; simpl; [done|].
  destruct (makes item r0).
  - intros [= <-]. by destruct r0.
  - intros H. by rewrite IH.
Qed.

Lemma findRecipe_setIngredients (db : Recipes) (x y : Item) (l : list Quantity) (ry : Recipe) :
  findRecipe db y = Some ry →
  findRecipe (setIngredients y l db) x
  = if decide (x = y) then Some (mkRecipe (product ry) l (byproducts ry) (time ry))
    else findRecipe db x.
Proof.
  unfold findRecipe. induction db as [|r db IH]; simpl; [done|].
  destruct (makes y r) eqn:Ey.
  - intros [= <-]. simpl. unfold makes in *. simpl.
    apply bool_decide_eq_true in Ey. rewrite Ey.
    destruct (decide (x = y)) as [->|Hne].
    + by rewrite bool_decide_eq_true_2.
    + by rewrite !bool_decide_eq_false_2 by congruence.
  - intros H. simpl. destruct (makes x r) eqn:Ex; [|by apply IH].
    destruct (decide (x = y)) as [->|Hne]; [congruence|done].
Qed.

Lemma sortedRecipe_handleIndustry (x : Item) (i : nat) (db : Recipes) (g : FactoryGraph) :
  sortedRecipe db x → sortedRecipe (handleIndustry i db g).1 x.
Proof.
  intros (r & Hr & Hs). unfold handleIndustry.
  destruct (industries g !! i) as [node|]; [|by exists r].
  destruct (findRecipe db (i_item node)) as [recipe|] eqn:E; [|by exists r].
  simpl. unfold sortedRecipe. rewrite (findRecipe_setIngredients _ _ _ _ _ E).
  destruct (decide (x = i_item node)) as [->|Hne]; [|by exists r].
  eexists. split; [reflexivity|]. simpl. apply sortByQuantity_sorted.
Qed.

Lemma sortedRecipe_handleIndustryLinksOver (x : Item) (ids : list nat) :
  ∀ (db : Recipes) (g : FactoryGraph),
  sortedRecipe db x → sortedRecipe (handleIndustryLinksOver ids db g).1 x.
Proof.
  induction ids as [|i ids IH]; intros db g H; simpl; [done|].
  pose proof (sortedRecipe_handleIndustry x i db g H) as H1.
  destruct (handleIndustry i db g) as [db1 [g1|e|]]; simpl in *; [|done..].
  by apply IH.
Qed.

Lemma settled_resolveLinks (i : nat) (its : list Item) (g g' : FactoryGraph) :
  resolveLinks i its g = Ok g' → settled g g'.
Proof.
  intros H.
  eapply (stable_resolveLinks (settled g));
    [..|exact H|split; [done|apply keepsIndustries_refl]]; settle.
Qed.

(** After the pass, the recipe of the item of every industry visited is
    sorted. *)
Lemma handleIndustryLinksOver_sorts (ids : list nat) :
  ∀ (db db' : Recipes) (g g' : FactoryGraph) (i : nat) (node : IndustryNode),
  handleIndustryLinksOver ids db g = (db', Ok g') →
  i ∈ ids →
  industries g !! i = Some node →
  sortedRecipe db' (i_item node).
Proof.
  induction ids as [|k ids IH]; intros db db' g g' i node H Hi Hnode; simpl in H.
  { by apply elem_of_nil in Hi. }
  pose proof (sortedRecipe_handleIndustry (i_item node) k db g) as Hk.
  destruct (handleIndustry k db g) as [db1 [g1|e|]] eqn:E; [|discriminate..].
  assert (Hsettled : settled g g1).
  { unfold handleIndustry in E.
    destruct (industries g !! k) as [nk|]; [|discriminate].
    destruct (findRecipe db (i_item nk)) as [recipe|]; [|discriminate].
    injection E as _ E. by eapply settled_resolveLinks. }
  destruct Hsettled as [_ Hkeep]. destruct (Hkeep i node Hnode) as (node1 & Hnode1 & Hshape).
  unfold industryShape in Hshape. injection Hshape as Hitem _.
  apply elem_of_cons in Hi as [->|Hi].
  - pose proof (sortedRecipe_handleIndustryLinksOver (i_item node) ids db1 g1) as Hrest.
    rewrite H in Hrest. simpl in *. apply Hrest.
    unfold handleIndustry in E. rewrite Hnode in E.
    destruct (findRecipe db (i_item node)) as [recipe|] eqn:Er; [|discriminate].
    injection E as <- _. unfold sortedRecipe.
    rewrite (findRecipe_setIngredients _ _ _ _ _ Er), decide_True by done.
    eexists. split; [reflexivity|]. simpl. apply sortByQuantity_sorted.
  - rewrite <- Hitem. by eapply IH.
Qed.

Lemma handleIndustryLinksOver_again (db : Recipes) (g : FactoryGraph) (ids : list nat) :
  (∀ i, i ∈ ids →
     ∃ node, industries g !! i = Some node
             ∧ i_incomingLinkCount node <= MAX_INDUSTRY_LINKS
             ∧ sortedRecipe db (i_item node)) →
  handleIndustryLinksOver ids db g = (db, Ok g).
Proof.
  induction ids as [|i ids IH]; intros Hids; simpl; [done|].
  destruct (Hids i) as (node & Hnode & Hle & r & Hr & Hsorted); [by left|].
  unfold handleIndustry. rewrite Hnode, Hr.
  rewrite (sortByQuantity_id _ Hsorted), (setIngredients_same _ _ _ Hr).
  unfold resolveLinks. rewrite Hnode. cbn [orThrow bind].
  replace (_ >? 0) with false by (symmetry; rewrite Z.gtb_ltb; apply Z.ltb_ge; lia).
  apply IH. intros j Hj. apply Hids. by right.
Qed.

(** X17.  When [handleIndustryLinks] has brought every industry within the
    limit (under the conditions of X13), a second pass over the graph and
    the table it has left changes neither: each recipe it sorts is sorted
    already, and no industry has a link in excess. *)
Theorem handleIndustryLinks_idempotent (db db' : Recipes) (g g' : FactoryGraph) :
  unitPerItem g →
  enoughIngredients db g (seq 0 (length (industries g))) →
  handleIndustryLinks db g = (db', Ok g') →
  handleIndustryLinks db' g' = (db', Ok g').
Proof.
  intros Hunits Henough H. unfold handleIndustryLinks in *.
  destruct (handleIndustryLinksOver_limit _ _ _ _ _ (NoDup_seq _ _) Hunits Henough H)
    as (Hin & Hout & _).
  apply handleIndustryLinksOver_again. intros i Hi.
  assert (Hi0 : i ∈ seq 0 (length (industries g))).
  { destruct (decide (i ∈ seq 0 (length (industries g)))) as [|Hno]; [done|].
    apply elem_of_seq in Hi. destruct (lookup_lt_is_Some_2 (industries g') i) as [n Hn]; [lia|].
    rewrite Hout in Hn by done. apply lookup_lt_Some in Hn.
    exfalso. apply Hno, elem_of_seq. lia. }
  destruct (Hin i Hi0) as (node' & Hnode' & Hle).
  exists node'. split; [done|]. split; [done|].
  apply elem_of_seq in Hi0.
  destruct (lookup_lt_is_Some_2 (industries g) i) as [node Hnode]; [lia|].
  assert (Hitem : i_item node' = i_item node).
  { apply settled_handleIndustryLinks in H as [_ Hkeep].
    destruct (Hkeep i node Hnode) as (n1 & Hn1 & Hshape).
    unfold industryShape in Hshape. injection Hshape as Hitem _. congruence. }
  rewrite Hitem. eapply handleIndustryLinksOver_sorts; [exact H| |exact Hnode].
  apply elem_of_seq. lia.
Qed.

(** ** The transfer containers and their transfer units *)

Lemma itemsKept_trans (g1 g2 g3 : FactoryGraph) :
  itemsKept g1 g2 → itemsKept g2 g3 → itemsKept g1 g3.
Proof. intros H12 H23 k it H. by apply H23, H12. Qed.

Lemma fmap_itemOf_kept (g g' : FactoryGraph) (l : list NodeRef) :
  ∀ its : list Item,
  itemsKept g g' → itemOf g <$> l = Some <$> its → itemOf g' <$> l = Some <$> its.
Proof.
  induction l as [|p l IH]; intros [|it its] Hk H; simpl in *; try done.
  injection H as Hp Hl. f_equal; [by apply Hk|by apply IH].
Qed.

(** The steps of the link resolver keep the items of the nodes. *)
Ltac keeps :=
  intros;
  match goal with
  | H : createTransferUnit _ _ = _ |- _ => run_op H
  | H : createTransferContainer _ _ = _ |- _ => run_op H
  | H : i_takeFrom _ _ _ = _ |- _ => run_op H
  | H : t_outputTo _ _ _ = _ |- _ => run_op H
  | H : t_takeFrom _ _ _ = _ |- _ => run_op H
  | |- _ => idtac
  end;
  (eapply itemsKept_trans; [eassumption|]); keeps_items.

Lemma itemsKept_rewire_loop (i : nat) (us : list NodeRef) (g g' : FactoryGraph) :
  forEach (rewire i) us g = Ok g' → itemsKept g g'.
Proof.
  intros H. eapply (forEach_invariant (itemsKept g)); [|by intros ? ?|exact H].
  intros p s s' _ Hs Hstep. eapply (stable_rewire (itemsKept g)); [..|exact Hstep|exact Hs];
    keeps.
Qed.

(** Lines 204-207, [seen] being the items of the units created so far. *)
Lemma newTransferUnits_supplied (id : nat) (its : list Item) :
  ∀ (seen : list Item) (g g' : FactoryGraph) (tc : TransferContainerNode),
  forEach (λ item s,
             let '(transferUnit, s1) := createTransferUnit item s in
             t_outputTo transferUnit (TransferContainerRef id) s1) its g = Ok g' →
  transferContainers g !! id = Some tc →
  itemOf g <$> tc_producers tc = Some <$> seen →
  ∃ tc', transferContainers g' !! id = Some tc'
         ∧ items tc' = items tc
         ∧ itemOf g' <$> tc_producers tc' = Some <$> (seen ++ its)
         ∧ itemsKept g g'
         ∧ ∀ j, j ≠ id → transferContainers g' !! j = transferContainers g !! j.
Proof.
  induction its as [|item its IH]; intros seen g g' tc H Htc Hseen; simpl in H.
  - injection H as <-. exists tc. rewrite app_nil_r. split_and!; try done. by intros ? ?.
  - apply bind_Ok in H as (g0 & H1 & H2).
    unfold createTransferUnit, t_outputTo in H1. cbv beta iota in H1.
    apply bind_Ok in H1 as (u & _ & H1).
    apply bind_Ok in H1 as (tc0 & Htc0%orThrow_Ok & H1).
    destruct (tc_canAddIncomingLinks tc0 1); [|discriminate]. injection H1 as <-.
    simpl in Htc0. assert (tc0 = tc) as -> by congruence.
    set (t := length (transferUnits g)) in *.
    set (g1 := withTransferUnits _ _) in *.
    assert (Hkept : itemsKept g g1).
    { intros [j|j|j|j|j] it; simpl; try done.
      rewrite lookup_alter_keeps by done. apply lookup_snoc_keeps. }
    assert (Hfresh : TransferRef t ∉ tc_producers tc).
    { intros Hin. apply (list_elem_of_fmap_2 (itemOf g)) in Hin. rewrite Hseen in Hin.
      apply list_elem_of_fmap in Hin as (x & Hx & _). simpl in Hx.
      unfold t in Hx. by rewrite lookup_ge_None_2 in Hx. }
    assert (Hadd : tc_producers (tc_addProducer (TransferRef t) tc)
                   = tc_producers tc ++ [TransferRef t]).
    { simpl. unfold set_add. by rewrite bool_decide_eq_false_2. }
    destruct (IH (seen ++ [item]) g1 g' (tc_addProducer (TransferRef t) tc) H2)
      as (tc' & Htc' & Hits & Hunits & Hk & Hothers).
    { simpl. by rewrite list_lookup_alter, decide_True, Htc. }
    { rewrite Hadd, !fmap_app. f_equal; [by eapply fmap_itemOf_kept|].
      change ([itemOf g1 (TransferRef t)] = [Some item]). f_equal. simpl.
      rewrite lookup_alter_keeps by done. unfold t. by rewrite list_lookup_middle. }
    exists tc'. split; [done|]. split; [done|]. split; [by rewrite <- app_assoc in Hunits|].
    split; [by eapply itemsKept_trans|].
    intros j Hj. rewrite Hothers by done. simpl. by rewrite list_lookup_alter_ne.
Qed.

Lemma resolveLinks_supplied (i : nat) (its : list Item) (g g' : FactoryGraph) :
  resolveLinks i its g = Ok g' → supplied g → supplied g'.
Proof.
  unfold resolveLinks. intros H Hs.
  apply bind_Ok in H as (node & Hnode%orThrow_Ok & H).
  destruct (_ >? 0); [|by injection H as <-].
  apply bind_Ok in H as ([id g1] & Hchoose & H).
  pose proof (chooseTransferContainer_industries _ _ _ _ _ Hchoose) as Hind.
  assert (H1 : ∀ j tc, transferContainers g1 !! j = Some tc →
                 itemOf g1 <$> tc_producers tc = Some <$> items tc
                 ∧ (j ≠ id → tc_consumers tc ≠ [])).
  { unfold chooseTransferContainer in Hchoose. destruct (find _ _).
    { injection Hchoose as <- <-. intros j tc Hj. by destruct (Hs j tc Hj). }
    unfold newTransferContainer, createTransferContainer in Hchoose.
    apply bind_Ok in Hchoose as (g2 & H2 & [= <- <-]).
    set (taken := firstn _ its) in *.
    destruct (newTransferUnits_supplied _ _ [] _ _ (mkTransferContainer taken [] []) H2)
      as (tc' & Htc' & Hits & Hunits & Hk & Hothers).
    { simpl. by rewrite list_lookup_middle. }
    { done. }
    intros j tc Hj. destruct (decide (j = length (transferContainers g))) as [->|Hne].
    - assert (tc = tc') as -> by congruence. split; [by rewrite Hits|done].
    - rewrite Hothers in Hj by done. simpl in Hj.
      apply lookup_app_Some in Hj as [Hj|[Hge Hj]].
      + destruct (Hs j tc Hj) as [Heq Hne']. split; [|done].
        eapply fmap_itemOf_kept; [|exact Heq].
        eapply itemsKept_trans; [|exact Hk].
        intros [k|k|k|k|k] it; simpl; try done.
      + apply list_lookup_singleton_Some in Hj as [Hz _]. lia. }
  unfold relink in H. apply bind_Ok in H as (tc & Htc%orThrow_Ok & H).
  apply bind_Ok in H as (g2 & Hloop & H).
  assert (Hnode1 : industries g1 !! i = Some node) by (by rewrite Hind).
  destruct (rewire_loop_shrinks _ _ _ _ _ Hloop Hnode1) as (_ & _ & _ & _ & Htcs).
  apply itemsKept_rewire_loop in Hloop.
  assert (Hk' : itemsKept g1 g').
  { eapply itemsKept_trans; [exact Hloop|]. revert H. clear. intros H. run_op H.
    keeps_items. }
  run_op H. intros j tcj Hj. simpl in Hj. rewrite Htcs, list_lookup_alter in Hj.
  case_decide as E.
  - subst j. rewrite Htc in Hj. injection Hj as <-. simpl. split.
    + eapply fmap_itemOf_kept; [exact Hk'|]. by apply (H1 id tc).
    + apply set_add_nonempty.
  - destruct (H1 j tcj Hj) as [Heq Hne]. split; [|by apply Hne].
    by eapply fmap_itemOf_kept.
Qed.

Lemma handleIndustryLinksOver_supplied (ids : list nat) :
  ∀ (db db' : Recipes) (g g' : FactoryGraph),
  handleIndustryLinksOver ids db g = (db', Ok g') → supplied g → supplied g'.
Proof.
  induction ids as [|i ids IH]; intros db db' g g' H Hs; simpl in H.
  - by injection H as _ <-.
  - destruct (handleIndustry i db g) as [db1 [g1|e|]] eqn:E; [|discriminate..].
    eapply IH; [exact H|]. unfold handleIndustry in E.
    destruct (industries g !! i) as [node|]; [|discriminate].
    destruct (findRecipe db (i_item node)) as [recipe|]; [|discriminate].
    injection E as _ E. by eapply resolveLinks_supplied.
Qed.

(** X18.  In a graph that [buildFactory] returns, every transfer container
    has one transfer unit for each of its items, in the order of the items,
    and at least one industry takes from it. *)
Theorem buildFactory_supplied (fuel : nat) (db db' : Recipes)
    (requirements : list (Item * Requirement)) (g : FactoryGraph) :
  buildFactory fuel db requirements = (db', Ok g) → supplied g.
Proof.
  unfold buildFactory. destruct (repair fuel db requirements) as [db1 r] eqn:E.
  intros [= -> H]. apply bind_Ok in H as (g2 & -> & H).
  apply bind_Ok in H as (u & _ & [= ->]). unfold repair in E.
  destruct (synthesize fuel db requirements) as [g0| |] eqn:E0; cbn [bind] in E;
    [|discriminate..].
  destruct (handleByproducts fuel db g0) as [g1| |] eqn:E1; [|discriminate..].
  eapply handleIndustryLinksOver_supplied; [exact E|].
  assert (Hnone : transferContainers g1 = []).
  { eapply (stable_handleByproducts (λ s, transferContainers s = [])); [..|exact E1|];
      [frame..|].
    eapply (stable_synthesize (λ s, transferContainers s = [])); [..|done|exact E0]; frame. }
  intros id tc Htc. by rewrite Hnone in Htc.
Qed.

(** ** Every consumer of a container takes from it *)

Lemma consumersTake_frame (g g' : FactoryGraph) :
  (∀ c n', containers g' !! c = Some n' →
     consumers n' = [] ∨ ∃ n, containers g !! c = Some n ∧ consumers n' = consumers n) →
  (∀ k c, takes g k c → takes g' k c) →
  consumersTake g → consumersTake g'.
Proof.
  intros Hc Ht H c n' k Hn' Hk. destruct (Hc c n' Hn') as [E|(n & Hn & E)];
    rewrite E in Hk; [by apply elem_of_nil in Hk|].
  apply Ht. by eapply H.
Qed.

(** The inputs of the industries and of the transfer units are kept. *)
Ltac takes_kept :=
  let k := fresh "k" in
  let c := fresh "c" in
  let l := fresh "l" in
  let Hl := fresh "Hl" in
  let Hin := fresh "Hin" in
  intros [?|?|?|?|?] c; simpl; try done; intros (l & Hl & Hin); exists l; (split; [|done]);
  rewrite ?lookup_alter_keeps by done; first [done | by apply lookup_snoc_keeps].

Ltac taken :=
  intros;
  match goal with
  | H : createContainer _ _ = _ |- _ => run_op H
  | H : createSplitContainer _ _ _ = _ |- _ => run_op H
  | H : (let '(_, _) := createIndustry _ _ in _) = _ |- _ => run_op H
  | H : createOutput _ _ _ _ = _ |- _ => run_op H
  | H : createTransferUnit _ _ = _ |- _ => run_op H
  | H : createTransferContainer _ _ = _ |- _ => run_op H
  | H : t_outputTo _ _ _ = _ |- _ => run_op H
  end;
  (eapply consumersTake_frame; [| |eassumption]); [kept|takes_kept].

Lemma takes_addInput (src : NodeRef) (i : nat) (g : FactoryGraph) (k : NodeRef) (c : nat) :
  takes g k c → takes (withIndustries (alter (addInput src) i) g) k c.
Proof.
  destruct k as [?|j|?|?|?]; simpl; try done. intros (l & Hl & Hin).
  rewrite list_lookup_alter. case_decide; subst; [|by exists l].
  destruct (industries g !! j) as [node|]; [|discriminate]. injection Hl as <-.
  eexists. split; [reflexivity|]. simpl. apply elem_of_set_add. by right.
Qed.

Lemma takes_t_addInput (src : NodeRef) (t : nat) (g : FactoryGraph) (k : NodeRef) (c : nat) :
  takes g k c → takes (withTransferUnits (alter (t_addInput src) t) g) k c.
Proof.
  destruct k as [?|?|j|?|?]; simpl; try done. intros (l & Hl & Hin).
  rewrite list_lookup_alter. case_decide; subst; [|by exists l].
  destruct (transferUnits g !! j) as [u|]; [|discriminate]. injection Hl as <-.
  eexists. split; [reflexivity|]. simpl. apply elem_of_set_add. by right.
Qed.

Lemma takes_withContainers (f : list ContainerNode -> list ContainerNode) (g : FactoryGraph)
    (k : NodeRef) (c : nat) :
  takes g k c → takes (withContainers f g) k c.
Proof. by destruct k. Qed.

Lemma consumersTake_i_takeFrom (i : nat) (src : NodeRef) (g g' : FactoryGraph) :
  i_takeFrom i src g = Ok g' → consumersTake g → consumersTake g'.
Proof.
  unfold i_takeFrom. intros H Hg.
  apply bind_Ok in H as (node0 & Hnode0%orThrow_Ok & H).
  destruct src as [c0| | |tc|]; try discriminate;
    apply bind_Ok in H as (n0 & Hn0%orThrow_Ok & H);
    match type of H with (if ?b then _ else _) = _ => destruct b; [|discriminate] end;
    injection H as <-.
  - intros c n' k Hn' Hk. simpl in Hn'. rewrite list_lookup_alter in Hn'.
    case_decide as E.
    + subst c. rewrite Hn0 in Hn'. injection Hn' as <-. simpl in Hk.
      apply elem_of_set_add in Hk as [->|Hk].
      * simpl. rewrite list_lookup_alter, decide_True, Hnode0 by done.
        eexists. split; [reflexivity|]. simpl. apply elem_of_set_add. by left.
      * apply takes_addInput, takes_withContainers. by eapply Hg.
    + apply takes_addInput, takes_withContainers. by eapply Hg.
  - intros c n' k Hn' Hk. simpl in Hn'.
    apply takes_addInput. change (takes g k c). by eapply Hg.
Qed.

Lemma consumersTake_t_takeFrom (t c0 : nat) (g g' : FactoryGraph) :
  t_takeFrom t (ContainerRef c0) g = Ok g' → consumersTake g → consumersTake g'.
Proof.
  unfold t_takeFrom. intros H Hg.
  apply bind_Ok in H as (u0 & Hu0%orThrow_Ok & H).
  apply bind_Ok in H as (n0 & Hn0%orThrow_Ok & H).
  destruct (_ && _); [|discriminate]. injection H as <-.
  intros c n' k Hn' Hk. simpl in Hn'. rewrite list_lookup_alter in Hn'.
  case_decide as E.
  - subst c. rewrite Hn0 in Hn'. injection Hn' as <-. simpl in Hk.
    apply elem_of_set_add in Hk as [->|Hk].
    + simpl. rewrite list_lookup_alter, decide_True, Hu0 by done.
      eexists. split; [reflexivity|]. simpl. apply elem_of_set_add. by left.
    + apply takes_t_addInput, takes_withContainers. by eapply Hg.
  - apply takes_t_addInput, takes_withContainers. by eapply Hg.
Qed.

Lemma consumersTake_detach (i c0 : nat) (g : FactoryGraph) :
  consumersTake g →
  consumersTake (withIndustries (alter (deleteInput (ContainerRef c0)) i)
                   (withContainers (alter (deleteConsumer (IndustryRef i)) c0) g)).
Proof.
  intros Hg c n' k Hn' Hk. simpl in Hn'.
  assert (Hkeep : ∀ k, takes g k c → (k = IndustryRef i → c ≠ c0) →
            takes (withIndustries (alter (deleteInput (ContainerRef c0)) i)
                     (withContainers (alter (deleteConsumer (IndustryRef i)) c0) g)) k c).
  { intros [?|j|?|?|?]; simpl; try done. intros (l & Hl & Hin) Hne.
    rewrite list_lookup_alter. case_decide; subst; [|by exists l].
    destruct (industries g !! j) as [node|]; [|discriminate]. injection Hl as <-.
    eexists. split; [reflexivity|]. simpl. apply elem_of_set_delete. split; [|done].
    intros [= ->]. by apply Hne. }
  rewrite list_lookup_alter in Hn'. case_decide as E.
  - subst c. destruct (containers g !! c0) as [n|] eqn:En; [|discriminate].
    injection Hn' as <-. simpl in Hk. apply elem_of_set_delete in Hk as [Hne Hk].
    apply Hkeep; [by eapply Hg|]. intros ->. done.
  - apply Hkeep; [by eapply Hg|]. intros _ ->. done.
Qed.

(** X19.  In a graph that [buildFactory] returns, every consumer recorded
    on a container is an industry or a transfer unit of the graph that has
    the container among its inputs: the links removed by lines 219-220 are
    removed at both ends. *)
Theorem buildFactory_consumers_take (fuel : nat) (db db' : Recipes)
    (requirements : list (Item * Requirement)) (g : FactoryGraph) :
  buildFactory fuel db requirements = (db', Ok g) → consumersTake g.
Proof.
  unfold buildFactory. destruct (repair fuel db requirements) as [db1 r] eqn:E.
  intros [= -> H]. apply bind_Ok in H as (g2 & -> & H).
  apply bind_Ok in H as (u & _ & [= ->]). unfold repair in E.
  destruct (synthesize fuel db requirements) as [g0| |] eqn:E0; cbn [bind] in E;
    [|discriminate..].
  destruct (handleByproducts fuel db g0) as [g1| |] eqn:E1; [|discriminate..].
  eapply (stable_handleIndustryLinksOver consumersTake); [..|exact E|];
    first [ by apply consumersTake_detach
          | by intros; eapply consumersTake_i_takeFrom
          | by intros; eapply consumersTake_t_takeFrom
          | taken
          | idtac ].
  eapply (stable_handleByproducts consumersTake); [..|exact E1|];
    first [ by intros; eapply consumersTake_t_takeFrom | taken | idtac ].
  eapply (stable_synthesize consumersTake); [..|exact E0];
    first [ by intros; eapply consumersTake_i_takeFrom
          | taken
          | by intros c n k Hn ].
Qed.

(** ** Synthesis within the capacities *)

Lemma neverFull_bind {A B : Type} (m : Result A) (k : A -> Result B)
    (P : A -> Prop) (Q : B -> Prop) :
  neverFull m P → (∀ a, P a → neverFull (k a) Q) → neverFull (bind m k) Q.
Proof. destruct m; simpl; auto. Qed.

Lemma neverFull_impl {A : Type} (r : Result A) (P Q : A -> Prop) :
  neverFull r P → (∀ a, P a → Q a) → neverFull r Q.
Proof. destruct r; simpl; auto. Qed.

Lemma neverFull_orThrow {A : Type} (e : Error) (o : option A) (P : A -> Prop) :
  e ≠ CapacityExceeded → (∀ a, o = Some a → P a) → neverFull (orThrow e o) P.
Proof. destruct o; simpl; auto. Qed.

Lemma neverFull_forEach {A St : Type} (I : St -> Prop) (body : A -> St -> Result St)
    (l : list A) :
  (∀ a s, a ∈ l → I s → neverFull (body a s) I) →
  ∀ s, I s → neverFull (forEach body l s) I.
Proof.
  induction l as [|a l IH]; intros Hbody s Hs; simpl; [done|].
  eapply neverFull_bind; [apply Hbody; [by left|done]|].
  intros s' Hs'. apply IH; [|done]. intros; apply Hbody; [by right|done].
Qed.

(** A loop over [0 .. n-1] whose invariant depends on the index. *)
Lemma neverFull_count {St : Type} (I : nat -> St -> Prop) (body : nat -> St -> Result St)
    (n : nat) :
  ∀ (start : nat) (s : St),
  (∀ k s, (start <= k < start + n)%nat → I k s → neverFull (body k s) (I (S k))) →
  I start s →
  neverFull (forEach body (seq start n) s) (I (start + n)%nat).
Proof.
  induction n as [|n IH]; intros start s Hbody Hs; simpl.
  - by rewrite Nat.add_0_r.
  - eapply neverFull_bind; [apply Hbody; [lia|done]|].
    intros s' Hs'. replace (start + S n)%nat with (S start + n)%nat by lia.
    apply IH; [|done]. intros k s0 Hk. apply Hbody. lia.
Qed.

Lemma untouchedFrom_refl (rank : Item -> nat) (r : nat) (g : FactoryGraph) :
  untouchedFrom rank r g g.
Proof. by intros c n Hn _. Qed.

Lemma untouchedFrom_trans (rank : Item -> nat) (r : nat) (g1 g2 g3 : FactoryGraph) :
  untouchedFrom rank r g1 g2 → untouchedFrom rank r g2 g3 → untouchedFrom rank r g1 g3.
Proof. intros H12 H23 c n Hn Hr. apply H23; [|done]. by apply H12. Qed.

Lemma untouchedFrom_higher (rank : Item -> nat) (r r' : nat) (g g' : FactoryGraph) :
  (r' <= r)%nat → untouchedFrom rank r' g g' → untouchedFrom rank r g g'.
Proof. intros Hle H c n Hn Hr. apply H; [done|lia]. Qed.

Lemma untouchedFrom_same (rank : Item -> nat) (r : nat) (g g' : FactoryGraph) :
  containers g' = containers g → untouchedFrom rank r g g'.
Proof. intros E c n Hn _. by rewrite E. Qed.

Lemma untouchedFrom_snoc (rank : Item -> nat) (r : nat) (g g' : FactoryGraph)
    (l : list ContainerNode) :
  containers g' = containers g ++ l → untouchedFrom rank r g g'.
Proof. intros E c n Hn _. rewrite E. by apply lookup_app_l_Some. Qed.

(** A step that changes the container with index [c0] only, which holds an
    item of a rank below [r]. *)
Lemma untouchedFrom_alter (rank : Item -> nat) (r : nat) (g g' : FactoryGraph)
    (f : ContainerNode -> ContainerNode) (c0 : nat) (n0 : ContainerNode) :
  containers g' = alter f c0 (containers g) →
  containers g !! c0 = Some n0 →
  (rank (c_item n0) < r)%nat →
  untouchedFrom rank r g g'.
Proof.
  intros E Hn0 Hlt c n Hn Hr. rewrite E, list_lookup_alter_ne; [done|].
  intros ->. assert (n = n0) as -> by congruence. lia.
Qed.

(** The attach operations of [produce] succeed where there is room. *)
Lemma i_takeFrom_room (industry c : nat) (g : FactoryGraph) (n : ContainerNode) :
  containers g !! c = Some n → canAddOutgoingLinks n 1 = true →
  neverFull (i_takeFrom industry (ContainerRef c) g)
    (λ g', containers g' = alter (addConsumer (IndustryRef industry)) c (containers g)).
Proof.
  intros Hn Hroom. unfold i_takeFrom.
  destruct (industries g !! industry); simpl; [|done].
  by rewrite Hn; simpl; rewrite Hroom.
Qed.

Lemma i_outputTo_room (industry c : nat) (g : FactoryGraph) (n : ContainerNode) :
  containers g !! c = Some n → canAddIncomingLinks n 1 = true →
  neverFull (i_outputTo industry (ContainerRef c) g)
    (λ g', containers g' = alter (addProducer (IndustryRef industry)) c (containers g)).
Proof.
  intros Hn Hroom. unfold i_outputTo.
  destruct (industries g !! industry); simpl; [|done].
  by rewrite Hn; simpl; rewrite Hroom.
Qed.

Lemma i_outputTo_output (industry o : nat) (g : FactoryGraph) :
  neverFull (i_outputTo industry (OutputRef o) g) (λ g', containers g' = containers g).
Proof.
  unfold i_outputTo. destruct (industries g !! industry); simpl; [|done].
  by destruct (outputNodes g !! o).
Qed.

(** An industry takes from the containers [produce] returned for one of its
    ingredients. *)
Lemma takeFromAll_room (rank : Item -> nat) (r industry : nat) (item : Item) :
  (rank item < r)%nat →
  ∀ (ins : list nat) (g : FactoryGraph),
  NoDup ins → (∀ c, c ∈ ins → hasRoom g item c) →
  neverFull (forEach (λ input g2, i_takeFrom industry (ContainerRef input) g2) ins g)
    (untouchedFrom rank r g).
Proof.
  intros Hlt. induction ins as [|c ins IH]; intros g Hnd Hroom; simpl.
  - apply untouchedFrom_refl.
  - apply NoDup_cons in Hnd as [Hc Hnd].
    destruct (Hroom c) as (n & Hn & Hitem & Hn1); [by left|].
    eapply neverFull_bind; [by eapply i_takeFrom_room|].
    intros g1 E1. simpl in E1.
    assert (H1 : untouchedFrom rank r g g1).
    { eapply untouchedFrom_alter; [exact E1|exact Hn|]. by rewrite Hitem. }
    eapply neverFull_impl; [apply IH; [done|]|].
    + intros c' Hc'. destruct (Hroom c') as (n' & Hn' & ?); [by right|].
      exists n'. split; [|done]. rewrite E1, list_lookup_alter_ne; [done|].
      by intros ->.
    + intros g2 H2. by eapply untouchedFrom_trans.
Qed.

(** The ingredients of one industry of [item]: the containers of the items
    of the rank of [item] or more are left as they are. *)
Lemma buildIngredients_room (rank : Item -> nat)
    (rec : Item -> Q -> FactoryGraph -> Result (list nat * FactoryGraph))
    (industry : nat) (item : Item) (recipe : Recipe) :
  (∀ it rate s, neverFull (rec it rate s) (produced rank it s)) →
  (∀ q, q ∈ ingredients recipe → (rank (q_item q) < rank item)%nat) →
  ∀ g, neverFull (buildIngredients rec industry recipe g) (untouchedFrom rank (rank item) g).
Proof.
  intros Hrec Hlow g. unfold buildIngredients.
  apply neverFull_forEach; [|apply untouchedFrom_refl].
  intros q s Hq Hs.
  eapply neverFull_bind; [apply Hrec|].
  intros [ins s1] (Hnd & Hroom & Hframe). simpl in Hnd, Hroom, Hframe.
  eapply neverFull_impl; [by apply (takeFromAll_room rank (rank item) industry (q_item q)); auto|].
  intros s2 H2. simpl in H2.
  eapply untouchedFrom_trans; [exact Hs|].
  eapply untouchedFrom_trans; [|exact H2].
  eapply untouchedFrom_higher; [|exact Hframe]. specialize (Hlow q Hq). lia.
Qed.

(** The loop of [produce] over the industries it adds (lines 86-96):
    [base] bounds the producers the output containers start with, and the
    industries are dealt to the containers in turn. *)
Lemma addIndustries_room (rank : Item -> nat)
    (rec : Item -> Q -> FactoryGraph -> Result (list nat * FactoryGraph))
    (item : Item) (recipe : Recipe) (outs : list nat) (base n : nat) (g : FactoryGraph) :
  (∀ it rate s, neverFull (rec it rate s) (produced rank it s)) →
  (∀ q, q ∈ ingredients recipe → (rank (q_item q) < rank item)%nat) →
  NoDup outs →
  (∀ a, ((a - base) * length outs < n)%nat → Z.of_nat a + 1 <= MAX_CONTAINER_LINKS) →
  (∀ c, c ∈ outs → ∃ node, containers g !! c = Some node ∧ c_item node = item
      ∧ canAddOutgoingLinks node 1 = true ∧ (length (producers node) <= base)%nat) →
  neverFull (forEach (addIndustry rec item recipe outs) (seq 0 n) g)
    (λ g', (∀ c, c ∈ outs → hasRoom g' item c) ∧ untouchedFrom rank (S (rank item)) g g').
Proof.
  intros Hrec Hlow Hnd Hcap Hstart.
  set (len := length outs).
  set (I := λ (k : nat) (s : FactoryGraph),
    (∀ j c, outs !! j = Some c → ∃ node, containers s !! c = Some node ∧ c_item node = item
       ∧ canAddOutgoingLinks node 1 = true
       ∧ ((length (producers node) - base) * len + j < k + len)%nat)
    ∧ untouchedFrom rank (S (rank item)) g s).
  eapply neverFull_impl; [apply (neverFull_count I _ n 0 g)|].
  - intros k s Hk [Houts Hframe]. unfold addIndustry, createIndustry.
    apply neverFull_bind with (P := λ c0, outs !! (k mod len)%nat = Some c0);
      [by apply neverFull_orThrow|].
    intros c0 Hc0.
    destruct (Houts _ _ Hc0) as (node0 & Hnode0 & Hitem0 & Hroom0 & Hbound0).
    pose proof (lookup_lt_Some _ _ _ Hc0) as Hj0. fold len in Hj0.
    pose proof (Nat.div_mod_eq k len) as Hdiv.
    assert (Hle : ((length (producers node0) - base) * len + k mod len <= k)%nat).
    { revert Hbound0 Hj0 Hdiv. generalize (length (producers node0) - base)%nat.
      generalize (k / len)%nat (k mod len)%nat. generalize len. clear.
      intros len q m d Hbound Hm Hdiv.
      assert (d <= q)%nat by nia. nia. }
    eapply neverFull_bind.
    { eapply (i_outputTo_room _ c0 _ node0); [exact Hnode0|].
      unfold canAddIncomingLinks, incomingLinkCount. apply Z.leb_le, Hcap. fold len. nia. }
    intros s2 E2. simpl in E2.
    eapply neverFull_impl.
    { apply (buildIngredients_room rank rec _ item recipe); [exact Hrec|exact Hlow]. }
    intros s3 H3. simpl in H3. split.
    + intros j c Hc. destruct (decide (c = c0)) as [->|Hne].
      * assert (j = (k mod len)%nat) as -> by (by eapply NoDup_lookup).
        exists (addProducer (IndustryRef (length (industries s))) node0).
        split; [|split; [done|split; [done|]]].
        -- apply H3; [|simpl; rewrite Hitem0; lia].
           by rewrite E2, list_lookup_alter, decide_True, Hnode0.
        -- simpl. pose proof (length_set_add (IndustryRef (length (industries s)))
                                 (producers node0)) as Hadd.
           revert Hle Hadd. generalize (length (producers node0)).
           generalize (length (set_add (IndustryRef (length (industries s)))
                                 (producers node0))).
           generalize (k mod len)%nat. generalize len. clear.
           intros len m a' a Hle Hadd.
           assert ((a' - base) * len <= (a - base) * len + len)%nat by nia. lia.
      * destruct (Houts _ _ Hc) as (node & Hnode & Hitem & Hroom & Hbound).
        exists node. split; [|split; [done|split; [done|]]].
        -- apply H3; [|rewrite Hitem; lia]. by rewrite E2, list_lookup_alter_ne.
        -- eapply Nat.lt_trans; [exact Hbound|]. simpl. lia.
    + eapply untouchedFrom_trans; [exact Hframe|].
      eapply untouchedFrom_trans; [|eapply untouchedFrom_higher; [|exact H3]; lia].
      eapply untouchedFrom_alter; [exact E2|exact Hnode0|rewrite Hitem0; lia].
  - split; [|apply untouchedFrom_refl].
    intros j c Hc. destruct (Hstart c) as (node & Hnode & Hitem & Hroom & Hbase).
    { by eapply list_elem_of_lookup_2. }
    exists node. split; [done|]. split; [done|]. split; [done|].
    pose proof (lookup_lt_Some _ _ _ Hc). fold len in H.
    replace (length (producers node) - base)%nat with 0%nat by lia. lia.
  - intros g' [Houts Hframe]. split; [|done].
    intros c Hc. apply list_elem_of_lookup in Hc as [j Hj].
    destruct (Houts _ _ Hj) as (node & ? & ? & ? & _). by exists node.
Qed.

Lemma withContainer_true (g : FactoryGraph) (c : nat) (p : ContainerNode -> bool)
    (n : ContainerNode) :
  containers g !! c = Some n → withContainer g c p = true → p n = true.
Proof. unfold withContainer. by intros ->. Qed.

Lemma existingOutput_Some (db : Recipes) (rate : Q) (recipe : Recipe) (g : FactoryGraph)
    (cs : list nat) (c : nat) (n : Z) :
  existingOutput db rate recipe g cs = Some (c, n) →
  withContainer g c (λ x, canAddIncomingLinks x n) = true
  ∧ withContainer g c (λ x, canAddOutgoingLinks x 1) = true.
Proof.
  induction cs as [|c0 cs IH]; simpl; [discriminate|].
  destruct (_ && _) eqn:E; [|done].
  intros [= -> <-]. by apply andb_true_iff in E.
Qed.

(** A container that [produce] creates has room for a consumer. *)
Lemma newContainer_room (g : FactoryGraph) (item : Item) (split : Q) (isSplit : bool)
    (l1 l2 : list ContainerNode) (c : nat) :
  1 <= MAX_CONTAINER_LINKS →
  (l1 ++ mkContainer item split isSplit [] [] :: l2) !! c
    = Some (mkContainer item split isSplit [] []) →
  containers g = l1 ++ mkContainer item split isSplit [] [] :: l2 →
  hasRoom g item c.
Proof.
  intros Hmax Hc E. eexists. rewrite E. split; [exact Hc|]. split; [done|].
  unfold canAddOutgoingLinks, outgoingLinkCount. simpl.
  destruct isSplit; apply Z.leb_le; lia.
Qed.

(** [produce] never fails for want of room, and returns containers with
    room for the industry that asked. *)
Lemma produce_room (rank : Item -> nat) (db : Recipes) :
  acyclic rank db → 1 <= MAX_CONTAINER_LINKS →
  ∀ fuel item rate g, neverFull (produce fuel db item rate g) (produced rank item g).
Proof.
  intros Hacyclic Hmax. induction fuel as [|fuel IH]; intros item rate g; [done|].
  cbn [produce].
  assert (Hreuse : ∀ (p : nat -> bool) c,
    find (λ c, p c && withContainer g c (λ n, canAddOutgoingLinks n 1))
         (getContainers g item) = Some c →
    produced rank item g ([c], g)).
  { intros p c [Hc Hp%andb_true_iff]%find_Some_elem.
    apply getContainers_item in Hc as (n & Hn & Hitem).
    split; [apply NoDup_singleton|]. split; [|apply untouchedFrom_refl].
    intros c' ->%list_elem_of_singleton. exists n. split; [done|]. split; [done|].
    destruct Hp as [_ Hp]. exact (withContainer_true g c (λ n, canAddOutgoingLinks n 1) n Hn Hp). }
  assert (Hnew : produced rank item g
                   ([length (containers g)],
                    withContainers (λ l, l ++ [mkContainer item 1%Q false [] []]) g)).
  { split; [apply NoDup_singleton|]. split; [|by eapply untouchedFrom_snoc].
    intros c' ->%list_elem_of_singleton.
    eapply newContainer_room; [done| |reflexivity]. by apply list_lookup_middle. }
  destruct (isOre item).
  { destruct (find _ _) as [c|] eqn:E; simpl; [|exact Hnew].
    apply (Hreuse (λ _, true) c). rewrite <- E. by apply find_ext_eq. }
  destruct (find _ _) as [c|] eqn:E; [exact (Hreuse _ c E)|]. clear E Hreuse.
  eapply neverFull_bind with (P := λ recipe, findRecipe db item = Some recipe);
    [by apply neverFull_orThrow|].
  intros recipe Hrecipe.
  assert (Hlow : ∀ q, q ∈ ingredients recipe → (rank (q_item q) < rank item)%nat).
  { intros q Hq. apply find_Some_elem in Hrecipe as [Hin Hmakes].
    apply bool_decide_eq_true in Hmakes. rewrite <- Hmakes. by apply Hacyclic. }
  destruct (existingOutput _ _ _ _ _) as [[c n]|] eqn:Eout.
  - pose proof (existingOutput_elem _ _ _ _ _ _ _ Eout) as Hc.
    apply getContainers_item in Hc as (node & Hnode & Hitem).
    apply existingOutput_Some in Eout as [Hin Hout].
    apply (withContainer_true g c _ node Hnode) in Hin.
    apply (withContainer_true g c _ node Hnode) in Hout.
    eapply neverFull_bind.
    { apply (addIndustries_room rank _ item recipe [c] (length (producers node)));
        [exact IH|exact Hlow|apply NoDup_singleton| |].
      - intros a Ha. unfold canAddIncomingLinks, incomingLinkCount in Hin.
        apply Z.leb_le in Hin. simpl in Ha. lia.
      - intros c' ->%list_elem_of_singleton. by exists node. }
    intros g' [Hroom Hframe]. split; [apply NoDup_singleton|]. by split.
  - clear Eout.
    destruct (decide (MAX_CONTAINER_LINKS
                      < Math_ceil (rate / (quantity (product recipe) / time recipe))%Q))
      as [Hsplit|Hone].
    + destruct (newOutputs_split_shares item rate recipe g ltac:(lia) Hsplit)
        as (shares & -> & Hlen & _ & _ & _).
      set (n := Math_ceil (rate / (quantity (product recipe) / time recipe))%Q) in *.
      rewrite Math_ceil_div in Hlen by lia.
      pose proof (ceil_div_bounds n MAX_CONTAINER_LINKS ltac:(lia)) as Hbounds.
      rewrite <- Hlen in Hbounds.
      set (g0 := withContainers _ g).
      assert (Hfresh : ∀ c, c ∈ seq (length (containers g)) (length shares) →
        ∃ node, containers g0 !! c = Some node ∧ c_item node = item
          ∧ isSplit node = true ∧ producers node = [] ∧ consumers node = []).
      { intros c Hc%elem_of_seq. unfold g0. simpl.
        rewrite lookup_app_r by lia. rewrite list_lookup_fmap.
        destruct (shares !! (c - length (containers g))%nat) as [share|] eqn:Es.
        - eexists. split; [reflexivity|done].
        - apply lookup_ge_None in Es. lia. }
      eapply neverFull_bind.
      { apply (addIndustries_room rank _ item recipe _ 0%nat);
          [exact IH|exact Hlow|apply NoDup_seq| |].
        - intros a Ha. rewrite length_seq, Nat.sub_0_r in Ha. nia.
        - intros c Hc. destruct (Hfresh c Hc) as (node & Hnode & Hitem & Hs & Hp & Hk).
          exists node. split; [done|]. split; [done|]. split; [|by rewrite Hp].
          unfold canAddOutgoingLinks, outgoingLinkCount. by rewrite Hs, Hk. }
      intros g' [Hroom Hframe]. split; [apply NoDup_seq|]. split; [done|].
      eapply untouchedFrom_trans; [|exact Hframe]. by eapply untouchedFrom_snoc.
    + unfold newOutputs.
      replace (_ >? MAX_CONTAINER_LINKS) with false
        by (symmetry; rewrite Z.gtb_ltb; apply Z.ltb_ge; lia).
      destruct Hnew as (Hnd & Hroom & Hframe). cbn [createContainer].
      eapply neverFull_bind.
      { apply (addIndustries_room rank _ item recipe _ 0%nat);
          [exact IH|exact Hlow|exact Hnd| |].
        - intros a Ha. simpl in Ha. lia.
        - intros c ->%list_elem_of_singleton. eexists. simpl.
          split; [by apply list_lookup_middle|]. split; [done|]. split; [|done].
          unfold canAddOutgoingLinks, outgoingLinkCount. simpl. apply Z.leb_le. lia. }
      intros g' [Hroom' Hframe']. split; [exact Hnd|]. split; [done|].
      eapply untouchedFrom_trans; [exact Hframe|exact Hframe'].
Qed.

Lemma addRequirement_room (rank : Item -> nat) (fuel : nat) (db : Recipes)
    (requirement : Item * Requirement) (g : FactoryGraph) :
  acyclic rank db → 1 <= MAX_CONTAINER_LINKS →
  neverFull (addRequirement fuel db requirement g) (λ _, True).
Proof.
  intros Hacyclic Hmax. destruct requirement as [item [count maintain]].
  unfold addRequirement.
  eapply neverFull_bind with (P := λ recipe, findRecipe db item = Some recipe);
    [by apply neverFull_orThrow|].
  intros recipe Hrecipe. cbn [createOutput].
  apply neverFull_forEach; [|done].
  intros _ s _ _. cbn [createIndustry].
  eapply neverFull_bind; [apply i_outputTo_output|].
  intros s1 _.
  eapply neverFull_impl;
    [apply (buildIngredients_room rank _ _ item recipe);
       [by apply produce_room|]|done].
  intros q Hq. apply find_Some_elem in Hrecipe as [Hin Hmakes].
  apply bool_decide_eq_true in Hmakes. rewrite <- Hmakes. by apply Hacyclic.
Qed.

(** X20.  With a recipe table in which no item is made from itself, directly
    or through other recipes, and a container limit of one link or more,
    the loop of [buildFactory] over the requirements never fails for want
    of room at a container: every container the industries output to or
    take from has room for the link when it is attached. *)
Theorem synthesize_within_capacity (rank : Item -> nat) (fuel : nat) (db : Recipes)
    (requirements : list (Item * Requirement)) :
  acyclic rank db → 1 <= MAX_CONTAINER_LINKS →
  synthesize fuel db requirements ≠ Throw CapacityExceeded.
Proof.
  intros Hacyclic Hmax.
  assert (H : neverFull (synthesize fuel db requirements) (λ _, True)).
  { unfold synthesize. apply neverFull_forEach; [|done].
    intros requirement s _ _. by eapply addRequirement_room. }
  destruct (synthesize fuel db requirements); simpl in H; congruence.
Qed.

(** X21.  With such a table and limit, [produce] called on any graph never
    fails for want of room at a container; the containers it returns are
    distinct and each has room for one more consumer, and the containers
    of the items that rank above the item produced are left as they
    were. *)
Theorem produce_within_capacity (rank : Item -> nat) (fuel : nat) (db : Recipes)
    (item : Item) (rate : Q) (g : FactoryGraph) :
  acyclic rank db → 1 <= MAX_CONTAINER_LINKS →
  produce fuel db item rate g ≠ Throw CapacityExceeded
  ∧ ∀ outs g', produce fuel db item rate g = Ok (outs, g') →
      NoDup outs
      ∧ (∀ c, c ∈ outs → hasRoom g' item c)
      ∧ untouchedFrom rank (S (rank item)) g g'.
Proof.
  intros Hacyclic Hmax.
  pose proof (produce_room rank db Hacyclic Hmax fuel item rate g) as H.
  destruct (produce fuel db item rate g) as [[outs g']| |]; simpl in H.
  - split; [done|]. by intros ? ? [= <- <-].
  - split; [congruence|done].
  - done.
Qed.

(** ** Containers within their link limits *)

Lemma linksWithin_same (g g' : FactoryGraph) :
  containers g' = containers g → linksWithin g → linksWithin g'.
Proof. intros E Hg c n Hn. rewrite E in Hn. by eapply Hg. Qed.

Lemma linksWithin_snoc (g g' : FactoryGraph) (item : Item) (fraction : Q) (isSplit : bool) :
  0 <= MAX_CONTAINER_LINKS →
  containers g' = containers g ++ [mkContainer item fraction isSplit [] []] →
  linksWithin g → linksWithin g'.
Proof.
  intros Hmax E Hg c n Hn. rewrite E in Hn.
  apply lookup_app_Some in Hn as [Hn|[_ Hn]]; [by eapply Hg|].
  apply list_lookup_singleton_Some in Hn as [_ <-].
  unfold incomingLinkCount, canAddOutgoingLinks, outgoingLinkCount. simpl.
  split; [done|]. destruct isSplit; apply Z.leb_le; lia.
Qed.

Lemma linksWithin_alter (g g' : FactoryGraph) (f : ContainerNode -> ContainerNode)
    (c0 : nat) (n0 : ContainerNode) :
  containers g' = alter f c0 (containers g) →
  containers g !! c0 = Some n0 →
  incomingLinkCount (f n0) <= MAX_CONTAINER_LINKS ∧ canAddOutgoingLinks (f n0) 0 = true →
  linksWithin g → linksWithin g'.
Proof.
  intros E Hn0 Hf Hg c n Hn. rewrite E, list_lookup_alter in Hn. case_decide.
  - subst c. rewrite Hn0 in Hn. by injection Hn as <-.
  - by eapply Hg.
Qed.

Lemma addProducer_within (p : NodeRef) (n : ContainerNode) :
  canAddIncomingLinks n 1 = true → canAddOutgoingLinks n 0 = true →
  incomingLinkCount (addProducer p n) <= MAX_CONTAINER_LINKS
  ∧ canAddOutgoingLinks (addProducer p n) 0 = true.
Proof.
  unfold canAddIncomingLinks, incomingLinkCount. intros Hin%Z.leb_le Hout.
  split; [|done]. simpl. pose proof (length_set_add p (producers n)). lia.
Qed.

Lemma addConsumer_within (k : NodeRef) (n : ContainerNode) :
  incomingLinkCount n <= MAX_CONTAINER_LINKS → canAddOutgoingLinks n 1 = true →
  incomingLinkCount (addConsumer k n) <= MAX_CONTAINER_LINKS
  ∧ canAddOutgoingLinks (addConsumer k n) 0 = true.
Proof.
  unfold canAddOutgoingLinks, outgoingLinkCount. intros Hin Hout. split; [done|].
  simpl. pose proof (length_set_add k (consumers n)).
  destruct (isSplit n); apply Z.leb_le; apply Z.leb_le in Hout; lia.
Qed.

Lemma deleteConsumer_within (k : NodeRef) (n : ContainerNode) :
  incomingLinkCount n <= MAX_CONTAINER_LINKS → canAddOutgoingLinks n 0 = true →
  incomingLinkCount (deleteConsumer k n) <= MAX_CONTAINER_LINKS
  ∧ canAddOutgoingLinks (deleteConsumer k n) 0 = true.
Proof.
  unfold canAddOutgoingLinks, outgoingLinkCount. intros Hin Hout. split; [done|].
  simpl. pose proof (length_set_delete k (consumers n)).
  destruct (isSplit n); apply Z.leb_le; apply Z.leb_le in Hout; lia.
Qed.

Lemma linksWithin_outputTo (g g' : FactoryGraph) (p : NodeRef) (c : nat) (n : ContainerNode) :
  containers g !! c = Some n → canAddIncomingLinks n 1 = true →
  containers g' = alter (addProducer p) c (containers g) →
  linksWithin g → linksWithin g'.
Proof.
  intros Hn Hin E Hg. eapply linksWithin_alter; [exact E|exact Hn| |exact Hg].
  apply addProducer_within; [done|]. by eapply Hg.
Qed.

Lemma linksWithin_takeFrom (g g' : FactoryGraph) (k : NodeRef) (c : nat) (n : ContainerNode) :
  containers g !! c = Some n → canAddOutgoingLinks n 1 = true →
  containers g' = alter (addConsumer k) c (containers g) →
  linksWithin g → linksWithin g'.
Proof.
  intros Hn Hout E Hg. eapply linksWithin_alter; [exact E|exact Hn| |exact Hg].
  apply addConsumer_within; [|done]. by eapply Hg.
Qed.

Lemma linksWithin_i_outputTo (i : nat) (dst : NodeRef) (g g' : FactoryGraph) :
  i_outputTo i dst g = Ok g' → linksWithin g → linksWithin g'.
Proof.
  unfold i_outputTo. intros H Hg. apply bind_Ok in H as (node0 & _ & H).
  destruct dst as [c| | | |o]; try discriminate.
  - apply bind_Ok in H as (n & Hn%orThrow_Ok & H).
    destruct (canAddIncomingLinks n 1) eqn:E; [|discriminate]. injection H as <-.
    by eapply (linksWithin_outputTo g _ _ c n).
  - apply bind_Ok in H as (n & _ & [= <-]). by eapply linksWithin_same.
Qed.

Lemma linksWithin_i_takeFrom (i : nat) (src : NodeRef) (g g' : FactoryGraph) :
  i_takeFrom i src g = Ok g' → linksWithin g → linksWithin g'.
Proof.
  unfold i_takeFrom. intros H Hg. apply bind_Ok in H as (node0 & _ & H).
  destruct src as [c| | |tc|]; try discriminate.
  - apply bind_Ok in H as (n & Hn%orThrow_Ok & H).
    destruct (canAddOutgoingLinks n 1) eqn:E; [|discriminate]. injection H as <-.
    by eapply (linksWithin_takeFrom g _ _ c n).
  - apply bind_Ok in H as (n & _ & H).
    destruct (tc_canAddOutgoingLinks n 1); [|discriminate]. injection H as <-.
    by eapply linksWithin_same.
Qed.

Lemma linksWithin_t_outputTo (t : nat) (dst : NodeRef) (g g' : FactoryGraph) :
  t_outputTo t dst g = Ok g' → linksWithin g → linksWithin g'.
Proof.
  unfold t_outputTo. intros H Hg. apply bind_Ok in H as (u0 & _ & H).
  destruct dst as [c| | |tc|]; try discriminate.
  - apply bind_Ok in H as (n & Hn%orThrow_Ok & H).
    destruct (canAddIncomingLinks n 1) eqn:E; [|discriminate]. injection H as <-.
    by eapply (linksWithin_outputTo g _ _ c n).
  - apply bind_Ok in H as (n & _ & H).
    destruct (tc_canAddIncomingLinks n 1); [|discriminate]. injection H as <-.
    by eapply linksWithin_same.
Qed.

Lemma linksWithin_t_takeFrom (t c : nat) (g g' : FactoryGraph) :
  t_takeFrom t (ContainerRef c) g = Ok g' → linksWithin g → linksWithin g'.
Proof.
  unfold t_takeFrom. intros H Hg. apply bind_Ok in H as (u0 & _ & H).
  apply bind_Ok in H as (n & Hn%orThrow_Ok & H).
  destruct (canAddOutgoingLinks n 1) eqn:E; [|discriminate].
  destruct (t_canAddIncomingLinks u0 1); [|discriminate]. injection H as <-.
  by eapply (linksWithin_takeFrom g _ _ c n).
Qed.

Lemma linksWithin_detach (i c : nat) (g : FactoryGraph) :
  linksWithin g →
  linksWithin (withIndustries (alter (deleteInput (ContainerRef c)) i)
                 (withContainers (alter (deleteConsumer (IndustryRef i)) c) g)).
Proof.
  intros Hg c' n Hn. simpl in Hn. rewrite list_lookup_alter in Hn. case_decide.
  - subst c'. destruct (containers g !! c) as [n0|] eqn:E; [|discriminate].
    injection Hn as <-. destruct (Hg c n0 E). by apply deleteConsumer_within.
  - by eapply Hg.
Qed.

(** The passes leave every container within its link limits. *)
Lemma linksWithin_repair (fuel : nat) (db db' : Recipes)
    (requirements : list (Item * Requirement)) (g : FactoryGraph) :
  0 <= MAX_CONTAINER_LINKS →
  repair fuel db requirements = (db', Ok g) → linksWithin g.
Proof.
  intros Hmax E. unfold repair in E.
  destruct (synthesize fuel db requirements) as [g0| |] eqn:E0; cbn [bind] in E;
    [|discriminate..].
  destruct (handleByproducts fuel db g0) as [g1| |] eqn:E1; [|discriminate..].
  assert (Hcreate : ∀ item fraction b g g',
    containers g' = containers g ++ [mkContainer item fraction b [] []] →
    linksWithin g → linksWithin g') by (intros; by eapply linksWithin_snoc).
  eapply (stable_handleIndustryLinksOver linksWithin); [..|exact E|];
    first [ by apply linksWithin_detach
          | by intros; eapply linksWithin_i_takeFrom
          | by intros; eapply linksWithin_t_takeFrom
          | by intros; eapply linksWithin_t_outputTo
          | by intros ? ? ? ? [= _ <-]; apply linksWithin_same
          | idtac ].
  eapply (stable_handleByproducts linksWithin); [..|exact E1|];
    first [ by intros; eapply linksWithin_t_takeFrom
          | by intros; eapply linksWithin_t_outputTo
          | by intros ? ? ? ? [= _ <-]; apply linksWithin_same
          | by intros ? ? ? ? [= _ <-]; eapply Hcreate
          | idtac ].
  eapply (stable_synthesize linksWithin); [..|exact E0];
    first [ by intros; eapply linksWithin_i_takeFrom
          | by intros ? ? ? ? [= _ <-]; apply linksWithin_same
          | by intros ? ? ? ? ? [= _ <-]; eapply Hcreate
          | by intros ? ? ? ? ? ? [= _ <-]; apply linksWithin_same
          | by intros ? ? ? ? [= _ <-]; eapply Hcreate
          | by intros c n Hn
          | idtac ].
  all: intros item x s s' H Hs; cbn [createIndustry] in H;
    eapply linksWithin_i_outputTo; [exact H|]; by apply (linksWithin_same s).
Qed.

(** X22.  Of the five errors of [sanityCheck], the graph the passes hand it
    can raise two: a container is never above its incoming or outgoing link
    limit, split or not, since every link was attached where there was
    room; what is left is egress above ingress and an industry above its
    limit. *)
Theorem sanityCheck_reachable_errors (fuel : nat) (db db' : Recipes)
    (requirements : list (Item * Requirement)) (g : FactoryGraph) (e : Error) :
  1 <= MAX_CONTAINER_LINKS →
  repair fuel db requirements = (db', Ok g) →
  sanityCheck db' g = Throw e →
  e = SanityError EgressExceedsIngress ∨ e = SanityError IndustryLimit.
Proof.
  intros Hmax Hg%linksWithin_repair H; [|lia]. unfold sanityCheck in H.
  destruct (forEach _ (seq 0 (length (containers g))) tt) as [[]|e'|] eqn:E1;
    simpl in H; [|injection H as ->|discriminate].
  - apply forEach_first_throw in H as (_ & node & _ & _ & _ & Hnode).
    unfold checkIndustry in Hnode. destruct (_ >? _); [|discriminate].
    injection Hnode as <-. by right.
  - apply forEach_first_throw in E1 as (l1 & id & l2 & Hl & _ & Hid).
    assert (Hin : id ∈ seq 0 (length (containers g))).
    { rewrite Hl. apply elem_of_app. right. by left. }
    apply elem_of_seq in Hin. destruct (containers g !! id) as [c|] eqn:Ec.
    2: { apply lookup_ge_None in Ec. lia. }
    destruct (Hg id c Ec) as [Hin' Hout].
    apply (checkContainer_Throw db' g id c e Ec) in Hid as (why & -> & Hwhy).
    unfold canAddOutgoingLinks in Hout.
    destruct why; simpl in Hwhy; [lia| |by left| |done].
    + destruct (isSplit c); apply Z.leb_le in Hout; lia.
    + destruct Hwhy as (_ & _ & _ & Hs & Hover). rewrite Hs in Hout.
      apply Z.leb_le in Hout. lia.
Qed.

(** * The byproduct pass: which transfer unit, which container *)

Lemma synthesize_no_transferUnits (fuel : nat) (db : Recipes)
    (requirements : list (Item * Requirement)) (g : FactoryGraph) :
  synthesize fuel db requirements = Ok g → transferUnits g = [].
Proof.
  intros H.
  eapply (stable_synthesize (λ g, transferUnits g = [])); [..|exact H];
    first [done | frame].
Qed.

Lemma lastWhere_None_inv {A : Type} (p : A -> bool) (l : list A) (x : A) :
  lastWhere p l = None → x ∈ l → p x = false.
Proof.
  induction l as [|y l IH] using rev_ind; [by intros _ ?%elem_of_nil|].
  rewrite lastWhere_app. destruct (p y) eqn:E; [discriminate|].
  intros H [Hx| ->%list_elem_of_singleton]%elem_of_app; [by apply IH|done].
Qed.

(** A transfer unit that has room after it was given an input had room
    before. *)
Lemma t_addInput_room (src : NodeRef) (u : TransferNode) :
  t_canAddIncomingLinks (t_addInput src u) 1 = true → t_canAddIncomingLinks u 1 = true.
Proof.
  unfold t_canAddIncomingLinks, t_incomingLinkCount. simpl.
  intros H%Z.leb_le. apply Z.leb_le.
  assert (length (t_inputs u) <= length (set_add src (t_inputs u)))%nat; [|lia].
  unfold set_add. case_bool_decide; rewrite ?length_app; lia.
Qed.

Lemma oneOpenUnit_t_takeFrom (t c : nat) (g g' : FactoryGraph) :
  t_takeFrom t (ContainerRef c) g = Ok g' → oneOpenUnit g → oneOpenUnit g'.
Proof.
  intros ->%t_takeFrom_Ok Hg t1 t2 u1 u2 H1 H2 Hitem Hr1 Hr2. simpl in H1, H2.
  assert (Hback : ∀ k u, alter (t_addInput (ContainerRef c)) t (transferUnits g) !! k = Some u →
            ∃ u0, transferUnits g !! k = Some u0 ∧ t_item u0 = t_item u
                  ∧ (t_canAddIncomingLinks u 1 = true → t_canAddIncomingLinks u0 1 = true)).
  { intros k u Hk. rewrite list_lookup_alter in Hk. case_decide; [|by exists u].
    subst k. destruct (transferUnits g !! t) as [u0|]; [|discriminate].
    injection Hk as <-. exists u0. split; [done|]. split; [done|]. apply t_addInput_room. }
  destruct (Hback _ _ H1) as (v1 & Hv1 & E1 & R1).
  destruct (Hback _ _ H2) as (v2 & Hv2 & E2 & R2).
  eapply (Hg t1 t2 v1 v2); [done|done|congruence|by apply R1|by apply R2].
Qed.

(** [handleByproduct] creates a transfer unit for an item only when no
    transfer unit of the item has room. *)
Lemma oneOpenUnit_handleByproduct (c : nat) (b : Quantity) (g g' : FactoryGraph) :
  handleByproduct c b g = Ok g' → oneOpenUnit g → oneOpenUnit g'.
Proof.
  unfold handleByproduct. intros H Hg.
  apply bind_Ok in H as (node & _ & H).
  destruct (isConsumed g node (q_item b)); [by injection H as <-|].
  apply bind_Ok in H as ([t g1] & H1 & H2).
  eapply oneOpenUnit_t_takeFrom; [exact H2|]. clear H2.
  destruct (lastWhere _ _) eqn:Elast; [by injection H1 as _ <-|].
  cbn [createTransferUnit] in H1.
  destruct (byproductOutput _ _) as [o g2] eqn:E2.
  apply bind_Ok in H1 as (g3 & H3 & [= _ <-]).
  apply t_outputTo_container_Ok in H3 as ->.
  assert (Hunits : transferUnits g2 = transferUnits g ++ [mkTransfer (q_item b) [] None]).
  { unfold byproductOutput in E2.
    destruct (lastWhere (containerHasHeadroom _) _); [|unfold createContainer in E2];
      by injection E2 as _ <-. }
  assert (Hold : ∀ k u,
    alter (t_setOutput (ContainerRef o)) (length (transferUnits g)) (transferUnits g2) !! k
      = Some u →
    (transferUnits g !! k = Some u ∧ (k < length (transferUnits g))%nat)
    ∨ (k = length (transferUnits g) ∧ t_item u = q_item b)).
  { intros k u Hk. rewrite Hunits, list_lookup_alter in Hk. case_decide as E.
    - right. subst k. rewrite list_lookup_middle in Hk by done. by injection Hk as <-.
    - left. apply lookup_app_Some in Hk as [Hk|[Hge Hk]].
      + split; [done|]. by eapply lookup_lt_Some.
      + apply list_lookup_singleton_Some in Hk as [Hk _]. lia. }
  assert (Hnone : ∀ k u, transferUnits g !! k = Some u → t_item u = q_item b →
            t_canAddIncomingLinks u 1 = false).
  { intros k u Hk Hitem.
    pose proof (lastWhere_None_inv _ _ k Elast) as Hfalse.
    unfold transferHasHeadroom, withTransferUnit in Hfalse. rewrite Hk in Hfalse.
    apply Hfalse. apply elem_of_indicesWhere. exists u. split; [done|].
    by apply bool_decide_eq_true. }
  intros t1 t2 u1 u2 Hu1 Hu2 Hitem Hr1 Hr2. simpl in Hu1, Hu2.
  destruct (Hold _ _ Hu1) as [[Hv1 _]|[-> Hi1]], (Hold _ _ Hu2) as [[Hv2 _]|[-> Hi2]].
  - by eapply (Hg t1 t2 u1 u2).
  - rewrite (Hnone _ _ Hv1) in Hr1 by congruence. discriminate.
  - rewrite (Hnone _ _ Hv2) in Hr2 by congruence. discriminate.
  - done.
Qed.

Lemma reconciling_oneOpenUnit (g : FactoryGraph) : reconciling g → oneOpenUnit g.
Proof.
  induction 1 as [fuel db requirements g H|c b g g' _ IH H].
  - apply synthesize_no_transferUnits in H. intros t1 t2 u1 u2 H1.
    rewrite H in H1. by rewrite lookup_nil in H1.
  - by eapply oneOpenUnit_handleByproduct.
Qed.

Lemma NoDup_indicesWhere {A : Type} (p : A -> bool) (l : list A) : NoDup (indicesWhere p l).
Proof. unfold indicesWhere. apply NoDup_filter, NoDup_seq. Qed.

(** Where at most one element passes the test, the first that passes is
    the last that passes. *)
Lemma isFirstWhere_only {A : Type} (p : A -> bool) (l : list A) (x : A) :
  NoDup l →
  (∀ y z, y ∈ l → z ∈ l → p y = true → p z = true → y = z) →
  isFirstWhere p l x → isLastWhere p l x.
Proof.
  intros Hnd Hone (l1 & l2 & -> & Hx & _). exists l1, l2. split; [done|]. split; [done|].
  apply Forall_forall. intros y Hy. destruct (p y) eqn:E; [|done].
  apply NoDup_app in Hnd as (_ & _ & Hnd). apply NoDup_cons in Hnd as [Hnot _].
  assert (y = x) as ->; [|done].
  apply Hone; [| |done..]; apply elem_of_app; right; [by right|by left].
Qed.

(** C8, as amended.  In every graph in which [buildFactory] handles a
    byproduct that no consumer carries: [handleByproduct] attaches the
    container to the first transfer unit, in creation order, of the
    transfer units of the item that have room for an incoming link, which
    is the only one ([reconciling_oneOpenUnit]); when there is none, the
    output of the transfer unit it creates is the last container, in
    creation order, of the containers of the item that have room for an
    incoming link (the loop of lines 135-139 has no [break]). *)
Theorem handleByproduct_first_unit_last_container :
  reusesTransferUnitIn reconciling (@isFirstWhere nat)
  ∧ wiresNewTransferUnitIn reconciling (@isLastWhere nat).
Proof.
  split.
  - intros g g' c node b t Hg Hnode Hcons H Hpick.
    apply (reusesTransferUnit_last g g' c node b t Hnode Hcons H).
    apply isFirstWhere_only; [apply NoDup_indicesWhere| |done].
    intros y z [uy [Hy Ey]]%elem_of_indicesWhere [uz [Hz Ez]]%elem_of_indicesWhere Hry Hrz.
    apply bool_decide_eq_true in Ey, Ez.
    unfold transferHasHeadroom, withTransferUnit in Hry, Hrz.
    rewrite Hy in Hry. rewrite Hz in Hrz.
    eapply (reconciling_oneOpenUnit g Hg y z uy uz); [done|done|congruence|done|done].
  - intros g g' c node b o _. apply wiresNewTransferUnit_last.
Qed.

(** * The link resolver, industry by industry *)





(** * A second run *)

Lemma handleIndustry_sortedTable (i : nat) (db : Recipes) (g : FactoryGraph) :
  sortedTable db → (handleIndustry i db g).1 = db.
Proof.
  intros Hdb. unfold handleIndustry.
  destruct (industries g !! i) as [node|]; [|done].
  destruct (findRecipe db (i_item node)) as [recipe|] eqn:E; [|done].
  simpl. rewrite sortByQuantity_id by (by eapply Hdb, findRecipe_elem).
  by apply setIngredients_same.
Qed.

Lemma handleIndustryLinksOver_sortedTable (ids : list nat) :
  ∀ (db : Recipes) (g : FactoryGraph),
  sortedTable db → (handleIndustryLinksOver ids db g).1 = db.
Proof.
  induction ids as [|i ids IH]; intros db g Hdb; simpl; [done|].
  pose proof (handleIndustry_sortedTable i db g Hdb) as Hi.
  destruct (handleIndustry i db g) as [db1 [g1|e|]]; simpl in Hi; subst db1; [|done..].
  by apply IH.
Qed.

(** X23.  When every recipe of the table has its ingredients in ascending
    quantity, [buildFactory] leaves the table as it is, whether it returns
    a graph or throws, and a second run in the same process gives what the
    first has given. *)
Theorem buildFactory_repeatable (fuel : nat) (db : Recipes)
    (requirements : list (Item * Requirement)) :
  sortedTable db →
  (buildFactory fuel db requirements).1 = db
  ∧ buildFactory fuel (buildFactory fuel db requirements).1 requirements
    = buildFactory fuel db requirements.
Proof.
  intros Hdb.
  assert (H : (buildFactory fuel db requirements).1 = db); [|by rewrite H].
  unfold buildFactory.
  assert (Hrepair : (repair fuel db requirements).1 = db).
  { unfold repair. destruct (do g <- synthesize fuel db requirements; _); [|done..].
    by apply handleIndustryLinksOver_sortedTable. }
  by destruct (repair fuel db requirements).
Qed.

End Factory.

(** * The example runs

    [MAX_CONTAINER_LINKS] is 10 and [MAX_INDUSTRY_LINKS] is 7; the rates are
    those of [ingressOf] and [egressOf]. *)

Lemma buildFactory_validated_witness :
  ∃ db' g,
    buildFactory 10 7 ingressOf egressOf 20 unsortedRecipes [require widget 1] = (db', Ok g)
    ∧ withinLimits 10 7 ingressOf egressOf db' g.
Proof.
  eexists _, _. split; [run|].
  apply (proj1 (buildFactory_validated 10 7 ingressOf egressOf 20
                  unsortedRecipes [require widget 1])).
  run.
Defined.

Lemma buildFactory_split_one_consumer_witness :
  ∃ db' g c,
    buildFactory 10 7 ingressOf egressOf 20 (plateRecipes (21 # 2)) [require widget 1] = (db', Ok g)
    ∧ containers g !! 0%nat = Some c
    ∧ isSplit c = true
    ∧ outgoingLinkCount c = 1.
Proof.
  eexists _, _, _. split; [run|]. split; [reflexivity|]. split; [reflexivity|].
  eapply (buildFactory_split_one_consumer 10 7 ingressOf egressOf 20
            (plateRecipes (21 # 2)) _ [require widget 1] _ 0%nat); run.
Defined.

Lemma handleByproducts_consumes_witness :
  ∃ g g' c,
    synthesize 10 ingressOf egressOf 20 slagRecipes [require gadget 1] = Ok g
    ∧ handleByproducts 10 7 20 slagRecipes g = Ok g'
    ∧ containers g' !! 0%nat = Some c
    ∧ c_item c = plate
    ∧ ∃ consumer, consumer ∈ consumers c ∧ itemOf g' consumer = Some slag.
Proof.
  by_running (synthesize 10 ingressOf egressOf 20 slagRecipes [require gadget 1]) ltac:(fun g =>
  by_running (handleByproducts 10 7 20 slagRecipes g) ltac:(fun g' =>
    exists g, g'; eexists;
    split; [run|]; split; [run|]; split; [reflexivity|]; split; [reflexivity|];
    eapply (handleByproducts_consumes 10 7 20 slagRecipes g g' 0%nat _ _ (mkQuantity slag 1));
    [run|reflexivity|reflexivity|reflexivity|by left])).
Defined.

Lemma handleByproducts_idempotent_witness :
  ∃ g g',
    synthesize 10 ingressOf egressOf 20 slagRecipes [require gadget 1] = Ok g
    ∧ handleByproducts 10 7 20 slagRecipes g = Ok g'
    ∧ g ≠ g'
    ∧ ∃ g'', handleByproducts 10 7 20 slagRecipes g' = Ok g''
             ∧ g'' = g'
             ∧ nodeCounts g'' = nodeCounts g'
             ∧ linkTopology g'' = linkTopology g'
             ∧ ∀ id, ingressOf slagRecipes g'' id = ingressOf slagRecipes g' id
                     ∧ egressOf slagRecipes g'' id = egressOf slagRecipes g' id.
Proof.
  by_running (synthesize 10 ingressOf egressOf 20 slagRecipes [require gadget 1]) ltac:(fun g =>
    exists g; eexists;
    split; [run|]; split; [run|]; split; [discriminate|];
    eapply (handleByproducts_idempotent 10 7 ingressOf egressOf 20 slagRecipes g); run).
Defined.



(** Two gadgets take ten plates a minute each, from two plate containers
    of ten industries.  The slag of the first container is given a new
    transfer unit, which has room and takes the slag of the second.  Eleven
    widgets leave two slag containers with room for an incoming link, the
    containers 0 and 2; the plate container 3 has an unconsumed byproduct
    and there is no transfer unit yet. *)
Lemma handleByproduct_first_unit_last_container_witness :
  (∃ g0 g g' node,
     synthesize 10 ingressOf egressOf 20 tenPlateRecipes [require gadget 2] = Ok g0
     ∧ handleByproduct 10 7 0 (mkQuantity slag 1) g0 = Ok g
     ∧ reconciling 10 7 ingressOf egressOf g
     ∧ containers g !! 2%nat = Some node
     ∧ isConsumed g node slag = false
     ∧ handleByproduct 10 7 2 (mkQuantity slag 1) g = Ok g'
     ∧ isFirstWhere (transferHasHeadroom 7 g) (getTransferUnits g slag) 0%nat
     ∧ ∃ node', containers g' !! 2%nat = Some node'
                ∧ TransferRef 0 ∈ consumers node'
                ∧ length (transferUnits g') = length (transferUnits g))
  ∧ (∃ g g' node,
       synthesize 10 ingressOf egressOf 20 slagRecipes [require widget 11; require gadget 1] = Ok g
       ∧ reconciling 10 7 ingressOf egressOf g
       ∧ containers g !! 3%nat = Some node
       ∧ isConsumed g node slag = false
       ∧ handleByproduct 10 7 3 (mkQuantity slag 1) g = Ok g'
       ∧ Forall (λ t, transferHasHeadroom 7 g t = false) (getTransferUnits g slag)
       ∧ isLastWhere (containerHasHeadroom 10 g) (getContainers g slag) 2%nat
       ∧ ∃ unit, transferUnits g' !! length (transferUnits g) = Some unit
                 ∧ t_item unit = slag
                 ∧ t_output unit = Some (ContainerRef 2)).
Proof.
  split.
  - by_running (synthesize 10 ingressOf egressOf 20 tenPlateRecipes [require gadget 2])
      ltac:(fun g0 =>
    by_running (handleByproduct 10 7 0 (mkQuantity slag 1) g0) ltac:(fun g =>
    by_running (handleByproduct 10 7 2 (mkQuantity slag 1) g) ltac:(fun g' =>
      exists g0, g, g'; eexists;
      assert (Hg : reconciling 10 7 ingressOf egressOf g)
        by (apply (reconciling_step 10 7 ingressOf egressOf 0 (mkQuantity slag 1) g0);
            [apply (reconciling_start 10 7 ingressOf egressOf 20 tenPlateRecipes
                      [require gadget 2]); run|run]);
      assert (Hfirst : isFirstWhere (transferHasHeadroom 7 g) (getTransferUnits g slag) 0%nat)
        by (exists [], []; split; [run|]; split; [run|constructor]);
      split; [run|]; split; [run|]; split; [exact Hg|]; split; [run|]; split; [run|];
      split; [run|]; split; [exact Hfirst|];
      eapply (proj1 (handleByproduct_first_unit_last_container 10 7 ingressOf egressOf)
                g g' 2%nat _ (mkQuantity slag 1) 0%nat);
      [exact Hg|run|run|run|exact Hfirst]))).
  - by_running (synthesize 10 ingressOf egressOf 20 slagRecipes
                  [require widget 11; require gadget 1]) ltac:(fun g =>
    by_running (handleByproduct 10 7 3 (mkQuantity slag 1) g) ltac:(fun g' =>
      exists g, g'; eexists;
      assert (Hg : reconciling 10 7 ingressOf egressOf g)
        by (apply (reconciling_start 10 7 ingressOf egressOf 20 slagRecipes
                     [require widget 11; require gadget 1]); run);
      assert (Hnone : Forall (λ t, transferHasHeadroom 7 g t = false) (getTransferUnits g slag))
        by (replace (getTransferUnits g slag) with (@nil nat) by run; constructor);
      assert (Hlast : isLastWhere (containerHasHeadroom 10 g) (getContainers g slag) 2%nat)
        by (exists [0%nat], []; split; [run|]; split; [run|constructor]);
      split; [run|]; split; [exact Hg|]; split; [run|]; split; [run|]; split; [run|];
      split; [exact Hnone|]; split; [exact Hlast|];
      eapply (proj2 (handleByproduct_first_unit_last_container 10 7 ingressOf egressOf)
                g g' 3%nat _ (mkQuantity slag 1) 2%nat);
      [exact Hg|run|run|run|exact Hnone|exact Hlast])).
Defined.

(** C8 as stated fails in its second half: in the state that eleven widgets
    and one gadget leave, the first slag container with room for an
    incoming link is the container 0, and the output of the new transfer
    unit is the container 2. *)
Lemma handleByproduct_first_container_fails :
  ¬ (reusesTransferUnitIn 10 7 (reconciling 10 7 ingressOf egressOf) (@isFirstWhere nat)
     ∧ wiresNewTransferUnitIn 10 7 (reconciling 10 7 ingressOf egressOf) (@isFirstWhere nat)).
Proof.
  intros [_ H].
  by_running (synthesize 10 ingressOf egressOf 20 slagRecipes
                [require widget 11; require gadget 1]) ltac:(fun g =>
  by_running (handleByproduct 10 7 3 (mkQuantity slag 1) g) ltac:(fun g' =>
  by_running (containers g !! 3%nat) ltac:(fun node =>
    destruct (H g g' 3%nat node (mkQuantity slag 1) 0%nat) as (unit & Hu & _ & Hout);
    [apply (reconciling_start 10 7 ingressOf egressOf 20 slagRecipes
              [require widget 11; require gadget 1]); run
    |run|run|run
    |replace (getTransferUnits g (q_item (mkQuantity slag 1))) with (@nil nat) by run; constructor
    |exists [], [2%nat]; split; [run|]; split; [run|constructor]
    |vm_compute in Hu; injection Hu as <-; discriminate Hout]))).
Qed.

(** C3.  Twenty-two industries: the shares that give the split fractions are
    8, 8 and 6, the industries attached are 8, 7 and 7. *)
Example produce_split_shares_uneven :
  ∃ outputs g,
    produce 10 ingressOf egressOf 20 (plateRecipes 22) plate 22 emptyFactory = Ok (outputs, g)
    ∧ outputs = [0; 1; 2]%nat
    ∧ map (λ c, (isSplit c, Qred (split c * 22))) (take 3 (containers g))
      = [(true, 8%Q); (true, 8%Q); (true, 6%Q)]
    ∧ map (λ c, length (producers c)) (take 3 (containers g)) = [8; 7; 7]%nat.
Proof. eexists _, _. split; [run|]. split; [run|]. split; run. Qed.

(** C5.  Ten widgets take from the one plate container, which is then full;
    its byproduct is not consumed, and [handleByproduct] attaches a transfer
    unit to it all the same. *)
Example handleByproduct_attaches_to_full_container :
  ∃ g node,
    synthesize 10 ingressOf egressOf 20 bulkPlateRecipes [require widget 10] = Ok g
    ∧ containers g !! 0%nat = Some node
    ∧ c_item node = plate
    ∧ isConsumed g node slag = false
    ∧ canAddOutgoingLinks 10 node 1 = false
    ∧ handleByproduct 10 7 0 (mkQuantity slag 1) g = Throw CapacityExceeded
    ∧ buildFactory 10 7 ingressOf egressOf 20 bulkPlateRecipes [require widget 10]
      = (bulkPlateRecipes, Throw CapacityExceeded).
Proof. eexists _, _. repeat (split; [run|]). run. Qed.

(** C9.  [buildFactory] leaves the ingredients of the recipe of the widget
    in another order than the declared one. *)
Example buildFactory_sorts_recipe_ingredients :
  ∃ db' g,
    buildFactory 10 7 ingressOf egressOf 20 unsortedRecipes [require widget 1] = (db', Ok g)
    ∧ ingredients <$> findRecipe unsortedRecipes widget
      = Some [mkQuantity iron 2; mkQuantity coal 1]
    ∧ ingredients <$> findRecipe db' widget
      = Some [mkQuantity coal 1; mkQuantity iron 2].
Proof. eexists _, _. repeat (split; [run|]). run. Qed.

(** C2.  Two runs of [buildFactory] in one process on the same
    requirements, the second reading the recipe table as the first has left
    it ([findRecipe] hands out the objects of the one table of ./recipes):
    both return, with the same numbers of nodes, and the graphs differ.
    The first run takes the ingredients of the widget in the declared
    order, plates then slag, and the second in the order that the first has
    sorted them into, slag then plates: the second iron container feeds
    three slag industries in the first graph and three plate industries in
    the second. *)
Example buildFactory_twice_differs :
  ∃ db' g1 db'' g2 c1 c2,
    buildFactory 10 7 ingressOf egressOf 20 sharedOreRecipes [require widget 1] = (db', Ok g1)
    ∧ buildFactory 10 7 ingressOf egressOf 20 db' [require widget 1] = (db'', Ok g2)
    ∧ nodeCounts g1 = nodeCounts g2
    ∧ linkTopology g1 ≠ linkTopology g2
    ∧ map c_item (containers g1) = [plate; iron; slag; iron]
    ∧ map c_item (containers g2) = [slag; iron; plate; iron]
    ∧ containers g1 !! 3%nat = Some c1
    ∧ containers g2 !! 3%nat = Some c2
    ∧ map (itemOf g1) (consumers c1) = [Some slag; Some slag; Some slag]
    ∧ map (itemOf g2) (consumers c2) = [Some plate; Some plate; Some plate].
Proof.
  eexists _, _, _, _, _, _. split; [run|]. split; [run|]. split; [run|]. split.
  { intros H. vm_compute in H. discriminate H. }
  repeat (split; [run|]). run.
Qed.

(** A second run in the same process starts from the table the first run
    has left, and creates the containers in another order. *)
Example buildFactory_second_run :
  ∃ db' g1 db'' g2,
    buildFactory 10 7 ingressOf egressOf 20 unsortedRecipes [require widget 1] = (db', Ok g1)
    ∧ buildFactory 10 7 ingressOf egressOf 20 db' [require widget 1] = (db'', Ok g2)
    ∧ map c_item (containers g1) = [iron; coal]
    ∧ map c_item (containers g2) = [coal; iron].
Proof. eexists _, _, _, _. repeat (split; [run|]). run. Qed.

(** ** The scenarios of the specification *)

(** One requirement whose only ingredient is an ore: one output node, one
    industry, one ore container with one outgoing link, no transfer unit. *)
Example scenario_single_ore :
  ∃ db' g c,
    buildFactory 10 7 ingressOf egressOf 20 ironRecipes [require widget 1] = (db', Ok g)
    ∧ nodeCounts g = (1, 1, 0, 0, 1)%nat
    ∧ containers g !! 0%nat = Some c
    ∧ c_item c = iron
    ∧ outgoingLinkCount c = 1.
Proof. eexists _, _, _. repeat (split; [run|]). run. Qed.

(** Twelve industries for a limit of ten: two split containers with six
    industries each, fractions one half, one outgoing link each. *)
Example scenario_twelve_industries :
  ∃ db' g,
    buildFactory 10 7 ingressOf egressOf 20 (plateRecipes 12) [require widget 1] = (db', Ok g)
    ∧ map (λ c, (isSplit c, Qred (split c), incomingLinkCount c, outgoingLinkCount c))
          (filter (λ c, c_item c = plate) (containers g))
      = [(true, 1 # 2, 6, 1); (true, 1 # 2, 6, 1)].
Proof. eexists _, _. split; run. Qed.

(** Nine ingredients for a limit of seven: one transfer container for the
    three ingredients of least quantity, and seven incoming links left. *)
Example scenario_nine_ingredients :
  ∃ db' g i,
    buildFactory 10 7 ingressOf egressOf 20 nineIngredients [require widget 1] = (db', Ok g)
    ∧ map items (transferContainers g) = [[Ore "i"; Ore "h"; Ore "g"]]
    ∧ industries g !! 0%nat = Some i
    ∧ i_incomingLinkCount i = 7
    ∧ TransferContainerRef 0 ∈ inputs i.
Proof.
  eexists _, _, _. repeat (split; [run|]).
  apply list_elem_of_In. simpl. repeat ((left; reflexivity) || right).
Qed.

(** A byproduct nothing consumes: a transfer unit and a container for it. *)
Example scenario_byproduct :
  ∃ db' g,
    buildFactory 10 7 ingressOf egressOf 20 slagRecipes [require gadget 1] = (db', Ok g)
    ∧ map (λ t, (t_item t, t_inputs t, t_output t)) (transferUnits g)
      = [(slag, [ContainerRef 0], Some (ContainerRef 2))]
    ∧ map (λ c, (c_item c, producers c, consumers c)) (containers g)
      = [(plate, [IndustryRef 1], [IndustryRef 0; TransferRef 0]);
         (iron, [], [IndustryRef 1]);
         (slag, [TransferRef 0], [])].
Proof. eexists _, _. repeat (split; [run|]). run. Qed.

(** A container whose egress is above its ingress: [sanityCheck] throws. *)
Example scenario_egress_above_ingress :
  sanityCheck 10 7 (λ _ _ _, 1%Q) (λ _ _ _, 2%Q) []
    (mkFactory [mkContainer iron 1 false [] []] [] [] [] [])
  = Throw (SanityError EgressExceedsIngress).
Proof. reflexivity. Qed.

(** ** Runs for the further properties *)

Lemma produce_frame_witness :
  ∃ g outs g',
    synthesize 10 ingressOf egressOf 20 nineIngredients [require widget 1] = Ok g
    ∧ produce 10 ingressOf egressOf 20 (plateRecipes 12) plate 12 g = Ok (outs, g')
    ∧ length (containers g) ≠ length (containers g')
    ∧ transferUnits g' = transferUnits g
    ∧ transferContainers g' = transferContainers g
    ∧ outputNodes g' = outputNodes g.
Proof.
  by_running (synthesize 10 ingressOf egressOf 20 nineIngredients [require widget 1])
    ltac:(fun g =>
  by_running (produce 10 ingressOf egressOf 20 (plateRecipes 12) plate 12 g) ltac:(fun r =>
    lazymatch r with
    | (?outs, ?g') =>
        exists g, outs, g'; split; [run|]; split; [run|]; split; [discriminate|];
        apply (produce_frame 10 ingressOf egressOf 20 (plateRecipes 12) plate 12 g g' outs);
        run
    end)).
Defined.

Lemma handleByproducts_frame_witness :
  ∃ g g',
    synthesize 10 ingressOf egressOf 20 slagRecipes [require gadget 1] = Ok g
    ∧ handleByproducts 10 7 20 slagRecipes g = Ok g'
    ∧ g ≠ g'
    ∧ industries g' = industries g
    ∧ transferContainers g' = transferContainers g
    ∧ outputNodes g' = outputNodes g.
Proof.
  by_running (synthesize 10 ingressOf egressOf 20 slagRecipes [require gadget 1]) ltac:(fun g =>
  by_running (handleByproducts 10 7 20 slagRecipes g) ltac:(fun g' =>
    exists g, g'; split; [run|]; split; [run|]; split; [discriminate|];
    apply (handleByproducts_frame 10 7 20 slagRecipes g g'); run)).
Defined.

Lemma handleIndustryLinks_frame_witness :
  ∃ g db' g',
    synthesize 10 ingressOf egressOf 20 nineIngredients [require widget 1] = Ok g
    ∧ handleIndustryLinks 10 7 nineIngredients g = (db', Ok g')
    ∧ g ≠ g'
    ∧ containerShape <$> containers g' = containerShape <$> containers g
    ∧ industryShape <$> industries g' = industryShape <$> industries g
    ∧ outputNodes g' = outputNodes g.
Proof.
  by_running (synthesize 10 ingressOf egressOf 20 nineIngredients [require widget 1])
    ltac:(fun g =>
  by_running (handleIndustryLinks 10 7 nineIngredients g) ltac:(fun r =>
    lazymatch r with
    | (?db', ?g') =>
        exists g, db', g'; split; [run|]; split; [run|]; split; [discriminate|];
        apply (handleIndustryLinks_frame 10 7 nineIngredients db' g g'); run
    end)).
Defined.

Lemma handleIndustryLinks_within_limit_witness :
  ∃ g,
    synthesize 10 ingressOf egressOf 20 unsortedRecipes [require widget 1] = Ok g
    ∧ (handleIndustryLinks 10 7 unsortedRecipes g).1 ≠ unsortedRecipes
    ∧ (handleIndustryLinks 10 7 unsortedRecipes g).2 = Ok g.
Proof.
  by_running (synthesize 10 ingressOf egressOf 20 unsortedRecipes [require widget 1])
    ltac:(fun g =>
    exists g; split; [run|]; split; [vm_compute; discriminate|];
    apply (handleIndustryLinks_within_limit 10 7 unsortedRecipes g);
    intros [|i] node H; vm_compute in H; [|discriminate];
    injection H as <-; split; [vm_compute; discriminate|eexists; run]).
Defined.

Lemma sanityCheck_reports_first_witness :
  ∃ db' g,
    repair 10 7 ingressOf egressOf 20 (plateRecipes 100) [require widget 1] = (db', Ok g)
    ∧ sanityCheck 10 7 ingressOf egressOf db' g = Throw (SanityError IndustryLimit)
    ∧ reportsFirst 10 7 ingressOf egressOf db' g (SanityError IndustryLimit).
Proof.
  by_running (repair 10 7 ingressOf egressOf 20 (plateRecipes 100) [require widget 1])
    ltac:(fun r =>
    lazymatch r with
    | (?db', ?g) =>
        exists db', g; split; [run|]; split; [run|];
        apply (sanityCheck_reports_first 10 7 ingressOf egressOf db' g); run
    end).
Defined.

Lemma produce_returns_item_containers_witness :
  ∃ outs g',
    produce 10 ingressOf egressOf 20 (plateRecipes 12) plate 12 emptyFactory = Ok (outs, g')
    ∧ length outs = 2%nat
    ∧ outs ≠ []
    ∧ (∀ c, c ∈ outs → ∃ node, containers g' !! c = Some node ∧ c_item node = plate)
    ∧ extends emptyFactory g'.
Proof.
  by_running (produce 10 ingressOf egressOf 20 (plateRecipes 12) plate 12 emptyFactory)
    ltac:(fun r =>
    lazymatch r with
    | (?outs, ?g') =>
        exists outs, g'; split; [run|]; split; [reflexivity|];
        apply (produce_returns_item_containers 10 ingressOf egressOf 20 (plateRecipes 12)
                 plate 12 emptyFactory g' outs); [lia|run]
    end).
Defined.

Lemma produce_ore_witness :
  ∃ c g' node,
    produce 10 ingressOf egressOf 1 ironRecipes iron 1 emptyFactory = Ok ([c], g')
    ∧ containers g' !! c = Some node
    ∧ c_item node = iron
    ∧ canAddOutgoingLinks 10 node 1 = true.
Proof.
  destruct (produce_ore 10 ingressOf egressOf 0 ironRecipes iron 1 emptyFactory)
    as (c & g' & node & H1 & H2 & H3 & H4 & _); [reflexivity|lia|].
  by exists c, g', node.
Defined.

Lemma buildFactory_outputs_witness :
  ∃ db' g,
    buildFactory 10 7 ingressOf egressOf 20 slagRecipes [require widget 11; require gadget 1]
    = (db', Ok g)
    ∧ length (outputNodes g) = 2%nat
    ∧ ∀ k requirement,
        [require widget 11; require gadget 1] !! k = Some requirement →
        delivers slagRecipes g k requirement.
Proof.
  by_running (buildFactory 10 7 ingressOf egressOf 20 slagRecipes
                [require widget 11; require gadget 1]) ltac:(fun r =>
    lazymatch r with
    | (?db', ?g) =>
        exists db', g; split; [run|];
        apply (buildFactory_outputs 10 7 ingressOf egressOf 20 slagRecipes db'
                 [require widget 11; require gadget 1] g); run
    end).
Defined.

Lemma chooseTransferContainer_least_quantity_witness :
  let l := [mkQuantity (Ore "a") 9; mkQuantity (Ore "b") 8; mkQuantity (Ore "c") 7;
            mkQuantity (Ore "d") 6; mkQuantity (Ore "e") 5; mkQuantity (Ore "f") 4;
            mkQuantity (Ore "g") 3; mkQuantity (Ore "h") 2; mkQuantity (Ore "i") 1] in
  ∃ g g1 tc,
    synthesize 10 ingressOf egressOf 20 nineIngredients [require widget 1] = Ok g
    ∧ chooseTransferContainer 10 7 2 (q_item <$> sortByQuantity l) g = Ok (0%nat, g1)
    ∧ transferContainers g1 !! 0%nat = Some tc
    ∧ items tc = [Ore "i"; Ore "h"; Ore "g"].
Proof.
  intros l.
  by_running (synthesize 10 ingressOf egressOf 20 nineIngredients [require widget 1])
    ltac:(fun g =>
  by_running (chooseTransferContainer 10 7 2 (q_item <$> sortByQuantity l) g) ltac:(fun r =>
    lazymatch r with
    | (_, ?g1) =>
        destruct (chooseTransferContainer_least_quantity 10 7 2 l g g1 0)
          as (tc & Htc & Hits & _); [run|reflexivity|];
        exists g, g1, tc; split; [run|]; split; [run|]; split; [exact Htc|];
        rewrite Hits; reflexivity
    end)).
Defined.

Lemma handleByproducts_skips_handled_witness :
  ∃ g,
    synthesize 10 ingressOf egressOf 20 ironRecipes [require widget 1] = Ok g
    ∧ containers g ≠ []
    ∧ handleByproducts 10 7 20 ironRecipes g = Ok g.
Proof.
  by_running (synthesize 10 ingressOf egressOf 20 ironRecipes [require widget 1])
    ltac:(fun g =>
    exists g; split; [run|]; split; [discriminate|];
    apply (handleByproducts_skips_handled 10 7 20 ironRecipes g); [|simpl; lia];
    intros [|id] c Hc Hore; vm_compute in Hc; [|discriminate];
    injection Hc as <-; discriminate).
Defined.

Lemma handleByproducts_stores_witness :
  ∃ g g',
    synthesize 10 ingressOf egressOf 20 slagRecipes [require gadget 1] = Ok g
    ∧ handleByproducts 10 7 20 slagRecipes g = Ok g'
    ∧ length (transferUnits g') = 1%nat
    ∧ stored g'.
Proof.
  by_running (synthesize 10 ingressOf egressOf 20 slagRecipes [require gadget 1]) ltac:(fun g =>
  by_running (handleByproducts 10 7 20 slagRecipes g) ltac:(fun g' =>
    exists g, g'; split; [run|]; split; [run|]; split; [reflexivity|];
    apply (handleByproducts_stores 10 7 20 slagRecipes g g'); [run|];
    intros t u H; vm_compute in H; discriminate)).
Defined.

Lemma handleIndustryLinks_resolves_witness :
  ∃ g db' g' node,
    synthesize 10 ingressOf egressOf 20 nineIngredients [require widget 1] = Ok g
    ∧ industries g !! 0%nat = Some node
    ∧ i_incomingLinkCount node = 9
    ∧ handleIndustryLinks 10 7 nineIngredients g = (db', Ok g')
    ∧ ∀ i node', industries g' !! i = Some node' → i_incomingLinkCount node' <= 7.
Proof.
  by_running (synthesize 10 ingressOf egressOf 20 nineIngredients [require widget 1])
    ltac:(fun g =>
  by_running (handleIndustryLinks 10 7 nineIngredients g) ltac:(fun r =>
    lazymatch r with
    | (?db', ?g') =>
        exists g, db', g'; eexists;
        split; [run|]; split; [reflexivity|]; split; [reflexivity|]; split; [run|];
        apply (handleIndustryLinks_resolves 10 7 nineIngredients db' g g'); [| |run];
        [ intros id tc H; vm_compute in H; discriminate
        | intros i node recipe Hi Hnode Hrecipe;
          apply list_elem_of_singleton in Hi as ->;
          vm_compute in Hnode; injection Hnode as <-;
          vm_compute in Hrecipe; injection Hrecipe as <-;
          vm_compute; discriminate ]
    end)).
Defined.

Lemma buildFactory_consistent_witness :
  ∃ db' g,
    buildFactory 10 7 ingressOf egressOf 20 unsortedRecipes [require widget 1] = (db', Ok g)
    ∧ consistent 10 g.
Proof.
  by_running (buildFactory 10 7 ingressOf egressOf 20 unsortedRecipes [require widget 1])
    ltac:(fun r =>
    lazymatch r with
    | (?db', ?g) =>
        exists db', g; split; [run|];
        apply (buildFactory_consistent 10 7 ingressOf egressOf 20 unsortedRecipes db'
                 [require widget 1] g); [lia| |run];
        intros recipe Hr; apply list_elem_of_singleton in Hr as ->;
        apply (bool_decide_unpack _); vm_compute; exact I
    end).
Defined.

Lemma handleIndustryLinks_untouched_witness :
  ∃ g db' g' node,
    synthesize 10 ingressOf egressOf 20 mixedRecipes [require widget 1; require gadget 1] = Ok g
    ∧ handleIndustryLinks 10 7 mixedRecipes g = (db', Ok g')
    ∧ industries g !! 0%nat ≠ industries g' !! 0%nat
    ∧ industries g !! 1%nat = Some node
    ∧ industries g' !! 1%nat = Some node.
Proof.
  by_running (synthesize 10 ingressOf egressOf 20 mixedRecipes
                [require widget 1; require gadget 1]) ltac:(fun g =>
  by_running (handleIndustryLinks 10 7 mixedRecipes g) ltac:(fun r =>
    lazymatch r with
    | (?db', ?g') =>
        exists g, db', g'; eexists;
        split; [run|]; split; [run|]; split; [discriminate|]; split; [reflexivity|];
        apply (handleIndustryLinks_untouched 10 7 mixedRecipes db' g g' 1%nat);
        [run|reflexivity|vm_compute; discriminate]
    end)).
Defined.

Lemma buildFactory_wired_witness :
  ∃ db' g,
    buildFactory 10 7 ingressOf egressOf 20 slagRecipes [require widget 11; require gadget 1]
    = (db', Ok g)
    ∧ length (industries g) = 15%nat
    ∧ wired slagRecipes g.
Proof.
  by_running (buildFactory 10 7 ingressOf egressOf 20 slagRecipes
                [require widget 11; require gadget 1]) ltac:(fun r =>
    lazymatch r with
    | (?db', ?g) =>
        exists db', g; split; [run|]; split; [reflexivity|];
        apply (buildFactory_wired 10 7 ingressOf egressOf 20 slagRecipes db'
                 [require widget 11; require gadget 1] g); [lia|run]
    end).
Defined.

Lemma handleIndustryLinks_idempotent_witness :
  ∃ g db' g',
    synthesize 10 ingressOf egressOf 20 nineIngredients [require widget 1] = Ok g
    ∧ handleIndustryLinks 10 7 nineIngredients g = (db', Ok g')
    ∧ (db', g') ≠ (nineIngredients, g)
    ∧ handleIndustryLinks 10 7 db' g' = (db', Ok g').
Proof.
  by_running (synthesize 10 ingressOf egressOf 20 nineIngredients [require widget 1])
    ltac:(fun g =>
  by_running (handleIndustryLinks 10 7 nineIngredients g) ltac:(fun r =>
    lazymatch r with
    | (?db', ?g') =>
        exists g, db', g';
        split; [run|]; split; [run|]; split; [discriminate|];
        apply (handleIndustryLinks_idempotent 10 7 nineIngredients db' g g'); [| |run];
        [ intros id tc H; vm_compute in H; discriminate
        | intros i node recipe Hi Hnode Hrecipe;
          apply list_elem_of_singleton in Hi as ->;
          vm_compute in Hnode; injection Hnode as <-;
          vm_compute in Hrecipe; injection Hrecipe as <-;
          vm_compute; discriminate ]
    end)).
Defined.

Lemma buildFactory_supplied_witness :
  ∃ db' g,
    buildFactory 10 7 ingressOf egressOf 20 nineIngredients [require widget 1] = (db', Ok g)
    ∧ length (transferContainers g) = 1%nat
    ∧ supplied g.
Proof.
  by_running (buildFactory 10 7 ingressOf egressOf 20 nineIngredients [require widget 1])
    ltac:(fun r =>
    lazymatch r with
    | (?db', ?g) =>
        exists db', g; split; [run|]; split; [reflexivity|];
        apply (buildFactory_supplied 10 7 ingressOf egressOf 20 nineIngredients db'
                 [require widget 1] g); run
    end).
Defined.

Lemma buildFactory_consumers_take_witness :
  ∃ db' g,
    buildFactory 10 7 ingressOf egressOf 20 nineIngredients [require widget 1] = (db', Ok g)
    ∧ length (transferUnits g) = 3%nat
    ∧ consumersTake g.
Proof.
  by_running (buildFactory 10 7 ingressOf egressOf 20 nineIngredients [require widget 1])
    ltac:(fun r =>
    lazymatch r with
    | (?db', ?g) =>
        exists db', g; split; [run|]; split; [reflexivity|];
        apply (buildFactory_consumers_take 10 7 ingressOf egressOf 20 nineIngredients db'
                 [require widget 1] g); run
    end).
Defined.

Lemma acyclic_plateRecipes (rate : Q) : acyclic tier (plateRecipes rate).
Proof.
  intros r q Hr Hq. unfold plateRecipes in Hr.
  apply elem_of_cons in Hr as [->|Hr]; [|apply elem_of_cons in Hr as [->|Hr]].
  - apply list_elem_of_singleton in Hq as ->. vm_compute. lia.
  - apply list_elem_of_singleton in Hq as ->. vm_compute. lia.
  - by apply elem_of_nil in Hr.
Qed.

(** A widget that takes a hundred plates a minute: a hundred plate
    industries on ten split containers. *)
Lemma synthesize_within_capacity_witness :
  acyclic tier (plateRecipes 100) ∧ 1 <= 10
  ∧ synthesize 10 ingressOf egressOf 5 (plateRecipes 100) [(widget, mkRequirement 1 0)]
    ≠ Throw CapacityExceeded.
Proof.
  split; [apply acyclic_plateRecipes|]. split; [lia|].
  apply (synthesize_within_capacity 10 ingressOf egressOf tier);
    [apply acyclic_plateRecipes|lia].
Defined.

Lemma produce_within_capacity_witness :
  acyclic tier (plateRecipes 100) ∧ 1 <= 10
  ∧ (produce 10 ingressOf egressOf 5 (plateRecipes 100) plate 100 emptyFactory
       ≠ Throw CapacityExceeded
     ∧ ∀ outs g',
         produce 10 ingressOf egressOf 5 (plateRecipes 100) plate 100 emptyFactory
           = Ok (outs, g') →
         NoDup outs
         ∧ (∀ c, c ∈ outs → hasRoom 10 g' plate c)
         ∧ untouchedFrom tier (S (tier plate)) emptyFactory g').
Proof.
  split; [apply acyclic_plateRecipes|]. split; [lia|].
  apply (produce_within_capacity 10 ingressOf egressOf tier);
    [apply acyclic_plateRecipes|lia].
Defined.

Lemma sanityCheck_reachable_errors_witness :
  ∃ db' g e,
    1 <= 10
    ∧ repair 10 7 ingressOf egressOf 20 (plateRecipes 100) [require widget 1] = (db', Ok g)
    ∧ sanityCheck 10 7 ingressOf egressOf db' g = Throw e
    ∧ (e = SanityError EgressExceedsIngress ∨ e = SanityError IndustryLimit).
Proof.
  by_running (repair 10 7 ingressOf egressOf 20 (plateRecipes 100) [require widget 1])
    ltac:(fun r =>
    lazymatch r with
    | (?db', ?g) =>
        exists db', g, (SanityError IndustryLimit);
        split; [lia|]; split; [run|]; split; [run|];
        apply (sanityCheck_reachable_errors 10 7 ingressOf egressOf 20
                 (plateRecipes 100) db' [require widget 1] g); [lia|run|run]
    end).
Defined.

(** The table that a run on [unsortedRecipes] leaves: coal, of which the
    widget takes less, comes before iron. *)
Lemma buildFactory_repeatable_witness :
  let db := [mkRecipe (mkQuantity widget 1) [mkQuantity coal 1; mkQuantity iron 2] [] 1] in
  sortedTable db
  ∧ (buildFactory 10 7 ingressOf egressOf 20 db [require widget 1]).1 = db
  ∧ buildFactory 10 7 ingressOf egressOf 20
      (buildFactory 10 7 ingressOf egressOf 20 db [require widget 1]).1 [require widget 1]
    = buildFactory 10 7 ingressOf egressOf 20 db [require widget 1].
Proof.
  intros db.
  assert (H : sortedTable db).
  { intros r Hr. apply list_elem_of_singleton in Hr as ->. simpl.
    repeat constructor. unfold byQuantity, Qle. simpl. lia. }
  split; [exact H|].
  exact (buildFactory_repeatable 10 7 ingressOf egressOf 20 db [require widget 1] H).
Defined.
